(** * Gmail command-line client: credential lifecycle and message codec

    A shallow embedding of [skills/gmail/scripts/gmail_search.py] and the
    properties of its specification.

    Conventions.  A Python [str] is a Rocq [string] holding the UTF-8
    encoding of the text; [bytes] are a [string] as well.  A JSON object
    with optional keys is a record of [option] fields: [None] is an absent
    key.  A Python exception is a value of [exn]; a computation that can
    raise returns a [res]. *)

From Stdlib Require Import ZArith NArith Ascii String List Lia Bool.
From stdpp Require Import base option list gmap strings pretty.

Local Open Scope string_scope.
Local Open Scope N_scope.

(** ** Python results and exceptions *)

Inductive exn : Type :=
| ValueError (msg : string)
| KeyError (key : string)
| BinasciiError (msg : string)
| UnpicklingError
| FileNotFoundError (path : string)
| RefreshError (msg : string)
| FlowError (msg : string)
| HttpError (msg : string)
| EOFError
| SystemExit (code : Z).

Inductive res (A : Type) : Type :=
| Ok (a : A)
| Raise (e : exn).
Arguments Ok {A} a.
Arguments Raise {A} e.

Definition res_map {A B} (f : A -> B) (r : res A) : res B :=
  match r with
  | Ok a => Ok (f a)
  | Raise e => Raise e
  end.

(** Truth value of an optional string: [d.get(k)] is truthy when the key
    is present with a non-empty string. *)
Definition truthy (o : option string) : bool :=
  match o with
  | Some (String _ _) => true
  | _ => false
  end.
Arguments truthy : simpl never.

(** ** Library routines used by the script *)

Module Base64.

(** [binascii.a2b_base64]'s table: the sextet of an alphabet character. *)
Definition table_a2b_base64 (c : ascii) : option N :=
  let n := N_of_ascii c in
  if (65 <=? n) && (n <=? 90) then Some (n - 65)
  else if (97 <=? n) && (n <=? 122) then Some (n - 71)
  else if (48 <=? n) && (n <=? 57) then Some (n + 4)
  else if n =? 43 then Some 62
  else if n =? 47 then Some 63
  else None.

(** [_urlsafe_decode_translation]: '-' becomes '+', '_' becomes '/'. *)
Definition urlsafe_translate (c : ascii) : ascii :=
  let n := N_of_ascii c in
  if n =? 45 then ascii_of_N 43
  else if n =? 95 then ascii_of_N 47
  else c.

Definition is_ascii_str (s : string) : bool :=
  forallb (fun c => N_of_ascii c <? 128) (list_ascii_of_string s).

Definition emit (b : N) (r : res string) : res string :=
  res_map (String (ascii_of_N b)) r.

(** The decoding loop in its lenient mode (no validation): characters
    outside the alphabet are skipped, a complete pad sequence ends the
    input, a dangling quad is an error. *)
Fixpoint a2b_base64 (s : string) (quad_pos leftchar pads : N) : res string :=
  match s with
  | EmptyString =>
      if quad_pos =? 0 then Ok EmptyString
      else if quad_pos =? 1
           then Raise (BinasciiError "Invalid base64-encoded string")
           else Raise (BinasciiError "Incorrect padding")
  | String c rest =>
      if N_of_ascii c =? 61 then
        if 2 <=? quad_pos then
          if 4 <=? quad_pos + (pads + 1) then Ok EmptyString
          else a2b_base64 rest quad_pos leftchar (pads + 1)
        else a2b_base64 rest quad_pos leftchar pads
      else
        match table_a2b_base64 c with
        | None => a2b_base64 rest quad_pos leftchar pads
        | Some v =>
            if quad_pos =? 0 then a2b_base64 rest 1 v 0
            else if quad_pos =? 1 then
              emit (N.lor (N.shiftl leftchar 2) (N.shiftr v 4))
                   (a2b_base64 rest 2 (N.land v 15) 0)
            else if quad_pos =? 2 then
              emit (N.lor (N.shiftl leftchar 4) (N.shiftr v 2))
                   (a2b_base64 rest 3 (N.land v 3) 0)
            else
              emit (N.lor (N.shiftl leftchar 6) v)
                   (a2b_base64 rest 0 0 0)
        end
  end.

(** [base64.urlsafe_b64decode] on a [str] argument. *)
Definition urlsafe_b64decode (s : string) : res string :=
  if is_ascii_str s then
    a2b_base64 (string_of_list_ascii (map urlsafe_translate (list_ascii_of_string s))) 0 0 0
  else Raise (ValueError "string argument should contain only ASCII characters").

End Base64.

Module Utf8.

Definition is_cont (c : ascii) : bool :=
  let n := N_of_ascii c in (128 <=? n) && (n <? 192).

(** U+FFFD, as the three bytes of its UTF-8 encoding. *)
Definition replacement (k : string) : string :=
  String (ascii_of_N 239) (String (ascii_of_N 191) (String (ascii_of_N 189) k)).

(** [bytes.decode("utf-8", errors="replace")]: well-formed sequences are
    kept, every maximal ill-formed prefix the decoder reports (an invalid
    start byte, a sequence cut by an invalid continuation byte, or a
    truncated sequence at the end of the data) becomes one U+FFFD. *)
Fixpoint decode_replace (s : string) : string :=
  match s with
  | EmptyString => EmptyString
  | String c1 r1 =>
      let n1 := N_of_ascii c1 in
      if n1 <? 128 then String c1 (decode_replace r1)
      else if n1 <? 194 then replacement (decode_replace r1)
      else if n1 <? 224 then
        match r1 with
        | EmptyString => replacement EmptyString
        | String c2 r2 =>
            if is_cont c2 then String c1 (String c2 (decode_replace r2))
            else replacement (decode_replace r1)
        end
      else if n1 <? 240 then
        match r1 with
        | EmptyString => replacement EmptyString
        | String c2 r2 =>
            let n2 := N_of_ascii c2 in
            if negb (is_cont c2)
               || ((n1 =? 224) && (n2 <? 160))
               || ((n1 =? 237) && (160 <=? n2))
            then replacement (decode_replace r1)
            else
              match r2 with
              | EmptyString => replacement EmptyString
              | String c3 r3 =>
                  if is_cont c3
                  then String c1 (String c2 (String c3 (decode_replace r3)))
                  else replacement (decode_replace r2)
              end
        end
      else if n1 <? 245 then
        match r1 with
        | EmptyString => replacement EmptyString
        | String c2 r2 =>
            let n2 := N_of_ascii c2 in
            if negb (is_cont c2)
               || ((n1 =? 240) && (n2 <? 144))
               || ((n1 =? 244) && (144 <=? n2))
            then replacement (decode_replace r1)
            else
              match r2 with
              | EmptyString => replacement EmptyString
              | String c3 r3 =>
                  if is_cont c3 then
                    match r3 with
                    | EmptyString => replacement EmptyString
                    | String c4 r4 =>
                        if is_cont c4
                        then String c1 (String c2 (String c3 (String c4 (decode_replace r4))))
                        else replacement (decode_replace r3)
                    end
                  else replacement (decode_replace r2)
              end
        end
      else replacement (decode_replace r1)
  end.

End Utf8.

(** [base64.urlsafe_b64decode(data).decode("utf-8", errors="replace")] *)
Definition b64_text (data : string) : res string :=
  res_map Utf8.decode_replace (Base64.urlsafe_b64decode data).


(** ** Python string methods *)

Module PyStr.

Definition byte (n : N) : ascii := ascii_of_N n.

Definition NL : string := String (byte 10) "".

(** [str.lower] on the ASCII letters; a character outside ASCII is left as
    it is, which no test of this program can observe: the only use is a
    [startswith] against ASCII text, and no character outside ASCII
    lowers to an ASCII letter or colon. *)
Definition lower_char (c : ascii) : ascii :=
  let n := N_of_ascii c in
  if (65 <=? n) && (n <=? 90) then byte (n + 32) else c.

Fixpoint lower (s : string) : string :=
  match s with
  | EmptyString => EmptyString
  | String c r => String (lower_char c) (lower r)
  end.

(** [s.startswith(p)] *)
Fixpoint startswith (s p : string) : bool :=
  match p, s with
  | EmptyString, _ => true
  | String a p', String b s' => Ascii.eqb a b && startswith s' p'
  | String _ _, EmptyString => false
  end.

(** [p in s] for strings *)
Fixpoint contains (s p : string) : bool :=
  startswith s p ||
  match s with
  | EmptyString => false
  | String _ r => contains r p
  end.

(** [s.split(sep)] for a one-character separator. *)
Fixpoint split (sep : ascii) (s : string) : list string :=
  match s with
  | EmptyString => [EmptyString]
  | String c r =>
      if Ascii.eqb c sep then EmptyString :: split sep r
      else match split sep r with
           | h :: t => String c h :: t
           | [] => [String c EmptyString]
           end
  end.

(** [sep.join(l)] *)
Fixpoint join (sep : string) (l : list string) : string :=
  match l with
  | [] => EmptyString
  | [x] => x
  | x :: rest => x +:+ sep +:+ join sep rest
  end.

(** The white space of [str.strip]: the ASCII control and space
    characters U+0009..U+000D, U+001C..U+0020, and after them the
    characters outside ASCII, by their UTF-8 bytes: U+0085, U+00A0,
    U+1680, U+2000..U+200A, U+2028, U+2029, U+202F, U+205F, U+3000. *)
Definition ascii_space (c : ascii) : bool :=
  let n := N_of_ascii c in
  ((9 <=? n) && (n <=? 13)) || ((28 <=? n) && (n <=? 32)).

Definition space2 (a b : N) : bool :=
  (a =? 194) && ((b =? 133) || (b =? 160)).

Definition space3 (a b c : N) : bool :=
  ((a =? 225) && (b =? 154) && (c =? 128))
  || ((a =? 226) && (b =? 128)
      && (((128 <=? c) && (c <=? 138)) || (c =? 168) || (c =? 169) || (c =? 175)))
  || ((a =? 226) && (b =? 129) && (c =? 159))
  || ((a =? 227) && (b =? 128) && (c =? 128)).

Fixpoint lstrip (s : string) : string :=
  match s with
  | String a r =>
      if ascii_space a then lstrip r
      else match r with
           | String b r2 =>
               if space2 (N_of_ascii a) (N_of_ascii b) then lstrip r2
               else match r2 with
                    | String c r3 =>
                        if space3 (N_of_ascii a) (N_of_ascii b) (N_of_ascii c)
                        then lstrip r3 else s
                    | EmptyString => s
                    end
           | EmptyString => s
           end
  | EmptyString => s
  end.

(** The same from the right end, on the reversed list of bytes. *)
Fixpoint rstrip_rev (l : list ascii) : list ascii :=
  match l with
  | a :: r =>
      if ascii_space a then rstrip_rev r
      else match r with
           | b :: r2 =>
               if space2 (N_of_ascii b) (N_of_ascii a) then rstrip_rev r2
               else match r2 with
                    | c :: r3 =>
                        if space3 (N_of_ascii c) (N_of_ascii b) (N_of_ascii a)
                        then rstrip_rev r3 else l
                    | [] => l
                    end
           | [] => l
           end
  | [] => l
  end.

Definition rstrip (s : string) : string :=
  string_of_list_ascii (rev (rstrip_rev (rev (list_ascii_of_string s)))).

Definition strip (s : string) : string := rstrip (lstrip s).

End PyStr.

(** ** Regular expressions, as far as the script's patterns need them *)

Module Re.

Inductive regex : Type :=
| Void
| Eps
| Chr (cls : ascii -> bool)
| Cat (r1 r2 : regex)
| Alt (r1 r2 : regex)
| Star (r : regex).

Definition Plus (r : regex) : regex := Cat r (Star r).

Fixpoint nullable (r : regex) : bool :=
  match r with
  | Void => false
  | Eps => true
  | Chr _ => false
  | Cat r1 r2 => nullable r1 && nullable r2
  | Alt r1 r2 => nullable r1 || nullable r2
  | Star _ => true
  end.

(** The derivative of a regular expression by a character. *)
Fixpoint deriv (c : ascii) (r : regex) : regex :=
  match r with
  | Void => Void
  | Eps => Void
  | Chr cls => if cls c then Eps else Void
  | Cat r1 r2 =>
      if nullable r1 then Alt (Cat (deriv c r1) r2) (deriv c r2)
      else Cat (deriv c r1) r2
  | Alt r1 r2 => Alt (deriv c r1) (deriv c r2)
  | Star r1 => Cat (deriv c r1) (Star r1)
  end.

(** Whether the whole of [s] is in the language of [r]. *)
Fixpoint fullmatch (r : regex) (s : string) : bool :=
  match s with
  | EmptyString => nullable r
  | String c rest => fullmatch (deriv c r) rest
  end.

Definition between (lo hi : N) (c : ascii) : bool :=
  (lo <=? N_of_ascii c) && (N_of_ascii c <=? hi).
Definition one_of (chars : string) (c : ascii) : bool :=
  existsb (Ascii.eqb c) (list_ascii_of_string chars).
Definition alpha (c : ascii) : bool := between 97 122 c || between 65 90 c.
Definition digit (c : ascii) : bool := between 48 57 c.

(** [$]: the end of the string, or just before a newline that ends it. *)
Definition Dollar : regex := Alt Eps (Chr (Ascii.eqb (PyStr.byte 10))).

(** [re.search(r'<(.+?)>', s)], group 1 of the leftmost match: at the
    first ['<'] from which a match exists, the shortest non-empty run of
    characters other than newline that a ['>'] follows. *)
Fixpoint lazy_until_gt (s : string) : option string :=
  match s with
  | EmptyString => None
  | String c r =>
      if Ascii.eqb c ">" then Some EmptyString
      else if Ascii.eqb c (PyStr.byte 10) then None
      else String c <$> lazy_until_gt r
  end.

Definition angle_group_here (s : string) : option string :=
  match s with
  | EmptyString => None
  | String c r =>
      if Ascii.eqb c (PyStr.byte 10) then None
      else String c <$> lazy_until_gt r
  end.

Fixpoint search_angle_group (s : string) : option string :=
  match s with
  | EmptyString => None
  | String c r =>
      if Ascii.eqb c "<" then
        match angle_group_here r with
        | Some g => Some g
        | None => search_angle_group r
        end
      else search_angle_group r
  end.

End Re.

(** ** Message codec: the part tree of a fetched message *)

Module Codec.

(** The ["body"] object of a part. *)
Record Body : Type := mkBody {
  data : option string;
  size : option Z;
  attachmentId : option string
}.

(** One MIME part as the service returns it; every key is optional. *)
#[local] Unset Elimination Schemes.
Inductive MessagePart : Type :=
| Part (mimeType : option string) (filename : option string)
       (body : option Body) (parts : option (list MessagePart)).
#[local] Set Elimination Schemes.

Definition mimeType (p : MessagePart) : option string :=
  match p with Part m _ _ _ => m end.
Definition filename (p : MessagePart) : option string :=
  match p with Part _ f _ _ => f end.
Definition body (p : MessagePart) : option Body :=
  match p with Part _ _ b _ => b end.
Definition parts (p : MessagePart) : option (list MessagePart) :=
  match p with Part _ _ _ ps => ps end.

(** ["body" in payload and payload["body"].get("data")], with the data
    when the test succeeds. *)
Definition body_data (p : MessagePart) : option string :=
  match body p with
  | Some b => if truthy (data b) then data b else None
  | None => None
  end.

Definition is_text_plain (p : MessagePart) : bool :=
  match mimeType p with
  | Some m => String.eqb m "text/plain"
  | None => false
  end.

(** [extract_body]: the node's own payload first; otherwise one loop over
    ["parts"], which at every part first tries the plain-text test and
    then, when the part has a ["parts"] key, the recursive call. *)
Fixpoint extract_body (payload : MessagePart) : res string :=
  match body_data payload with
  | Some d => b64_text d
  | None =>
      match parts payload with
      | None => Ok ""
      | Some ps =>
          (fix loop (l : list MessagePart) : res string :=
             match l with
             | [] => Ok ""
             | part :: rest =>
                 match (if is_text_plain part then body_data part else None) with
                 | Some d => b64_text d
                 | None =>
                     match parts part with
                     | Some _ =>
                         match extract_body part with
                         | Raise e => Raise e
                         | Ok "" => loop rest
                         | Ok b => Ok b
                         end
                     | None => loop rest
                     end
                 end
             end) ps
      end
  end.

(** An entry of the list [extract_attachment_info] builds. *)
Record AttachmentDescriptor : Type := mkAttachment {
  att_filename : string;
  att_mime_type : string;
  att_size : Z;
  att_attachment_id : option string
}.

Definition descriptor (part : MessagePart) : AttachmentDescriptor :=
  {| att_filename := default "" (filename part);
     att_mime_type := default "" (mimeType part);
     att_size := default 0%Z (body part ≫= size);
     att_attachment_id := body part ≫= attachmentId |}.

(** The inner [recurse] closure; [attachments] is the list it appends to. *)
Fixpoint recurse (part : MessagePart) (attachments : list AttachmentDescriptor)
  : list AttachmentDescriptor :=
  let attachments :=
    if truthy (filename part) then (attachments ++ [descriptor part])%list else attachments in
  match parts part with
  | Some ps =>
      (fix each (l : list MessagePart) (acc : list AttachmentDescriptor) :=
         match l with
         | [] => acc
         | p :: rest => each rest (recurse p acc)
         end) ps attachments
  | None => attachments
  end.

Definition extract_attachment_info (payload : MessagePart) : list AttachmentDescriptor :=
  recurse payload [].

End Codec.

(** ** The world the script runs in *)

(** [google.oauth2.credentials.Credentials], as far as the script looks at
    it.  [expired] is the outcome of the library's comparison of the expiry
    with the clock. *)
Record Credentials : Type := mkCredentials {
  token : option string;
  refresh_token : option string;
  expired : bool;
  granted_scopes : list string
}.

(** [creds.valid]: there is a token and it is not expired. *)
Definition valid (c : Credentials) : bool :=
  bool_decide (is_Some (token c)) && negb (expired c).

(** What [TOKEN_FILE] holds when it exists: a pickled credentials object,
    or bytes [pickle.load] cannot read. *)
Inductive TokenFile : Type :=
| Pickled (c : Credentials)
| Unreadable.

(** An entry of the file system below the download directory. *)
Inductive Entry : Type :=
| File (content : string)
| Dir.

(** The message a request to the mail service carries: the MIME message
    [create_message] composes, before its serialisation to bytes and
    base64, and the thread it belongs to. *)
Record Mime : Type := mkMime {
  multipart_alternative : bool;
  subtype : string;
  mime_headers : list (string * string);
  mime_text : string
}.

Record Outgoing : Type := mkOutgoing {
  raw : Mime;
  out_threadId : option string
}.

(** The calls made to the remote mail service. *)
Inductive Request : Type :=
| MessagesGet (id : string) (format : string) (metadataHeaders : list string)
| MessagesSend (body : Outgoing)
| DraftsCreate (message : Outgoing)
| AttachmentsGet (messageId : string) (id : string).

(** The exchanges with the authorization server. *)
Inductive AuthEvent : Type :=
| TokenRefresh (c : Credentials)
| LocalServerFlow (scopes : list string)
| ManualFlow (scopes : list string) (authorization_response : string).

(** A fetched message: its thread and its payload, which is the root of
    the part tree and carries the headers. *)
Record Payload : Type := mkPayload {
  headers : option (list (string * string));
  root : Codec.MessagePart
}.

Record Message : Type := mkMessage {
  threadId : option string;
  payload : option Payload
}.

Record SendResult : Type := mkSendResult {
  sent_id : string;
  sent_threadId : string
}.

Record DraftResult : Type := mkDraftResult {
  draft_id : string;
  draft_message_id : string
}.

(** What the collaborators outside the program answer: the authorization
    server, the operator at the terminal and the mail service. *)
Record Env : Type := mkEnv {
  refresh : Credentials -> res Credentials;
  authorization_url : list string -> string;
  run_local_server : list string -> res Credentials;
  stdin : option string;
  fetch_token : list string -> string -> res Credentials;
  messages_get : string -> string -> list string -> res Message;
  messages_send : Outgoing -> res SendResult;
  drafts_create : Outgoing -> res DraftResult;
  attachments_get : string -> string -> res (option string);
  json_dumps_send : SendResult -> string;
  json_dumps_draft : DraftResult -> string
}.

(** The files under [~/.gmail_credentials]. *)
Record CredentialsDir : Type := mkCredentialsDir {
  scope_file : option string;
  token_file : option TokenFile;
  client_secrets_file : bool
}.

(** The state a run reads and changes: [~/.gmail_credentials] when it
    exists, the other paths it tests and writes, the lines it printed, and
    the calls it made. *)
Record World : Type := mkWorld {
  credentials_dir : option CredentialsDir;
  files : gmap string Entry;
  stdout : list string;
  requests : list Request;
  auth_events : list AuthEvent
}.

(** State and exceptions: a computation returns a value or raises, and
    leaves a world either way. *)
Definition M (A : Type) : Type := World -> res A * World.

Definition ret {A} (a : A) : M A := fun w => (Ok a, w).
Definition raise {A} (e : exn) : M A := fun w => (Raise e, w).
Definition bind {A B} (m : M A) (k : A -> M B) : M B :=
  fun w => match m w with
           | (Ok a, w') => k a w'
           | (Raise e, w') => (Raise e, w')
           end.
Definition lift {A} (r : res A) : M A := fun w => (r, w).
Definition gets {A} (f : World -> A) : M A := fun w => (Ok (f w), w).
Definition modify (f : World -> World) : M unit := fun w => (Ok tt, f w).

Declare Scope py_scope.
Delimit Scope py_scope with py.
Notation "x <- m ;; k" := (bind m (fun x => k))
  (at level 100, m at next level, right associativity) : py_scope.
Notation "m ;; k" := (bind m (fun _ => k))
  (at level 100, right associativity) : py_scope.

Definition set_stdout (f : list string -> list string) (w : World) : World :=
  mkWorld (credentials_dir w) (files w) (f (stdout w)) (requests w) (auth_events w).
Definition set_requests (f : list Request -> list Request) (w : World) : World :=
  mkWorld (credentials_dir w) (files w) (stdout w) (f (requests w)) (auth_events w).
Definition set_auth_events (f : list AuthEvent -> list AuthEvent) (w : World) : World :=
  mkWorld (credentials_dir w) (files w) (stdout w) (requests w) (f (auth_events w)).
Definition set_credentials_dir (d : option CredentialsDir) (w : World) : World :=
  mkWorld d (files w) (stdout w) (requests w) (auth_events w).
Definition set_files (f : gmap string Entry -> gmap string Entry) (w : World) : World :=
  mkWorld (credentials_dir w) (f (files w)) (stdout w) (requests w) (auth_events w).

(** [print(s)] *)
Definition print (s : string) : M unit :=
  modify (set_stdout (fun out => out ++ [s])%list).

(** [sys.exit(code)] *)
Definition sys_exit {A} (code : Z) : M A := raise (SystemExit code).

(** A call to the mail service: it is recorded, then answered. *)
Definition call {A} (r : Request) (answer : res A) : M A :=
  (modify (set_requests (fun l => l ++ [r])%list) ;; lift answer)%py.

(** An exchange with the authorization server. *)
Definition exchange {A} (e : AuthEvent) (answer : res A) : M A :=
  (modify (set_auth_events (fun l => l ++ [e])%list) ;; lift answer)%py.

(** [try: body except ...: handler]: the handler runs on the exceptions
    the clause names, in the world the body left. *)
Definition try_except {A} (body : M A) (handles : exn -> bool) (handler : exn -> M A) : M A :=
  fun w => match body w with
           | (Raise e, w') => if handles e then handler e w' else (Raise e, w')
           | r => r
           end.

(** [except Exception]: every exception but [SystemExit]. *)
Definition is_Exception (e : exn) : bool :=
  match e with
  | SystemExit _ => false
  | _ => true
  end.

(** [except HttpError] *)
Definition is_HttpError (e : exn) : bool :=
  match e with
  | HttpError _ => true
  | _ => false
  end.

(** [str(e)] for the exceptions that carry a message. *)
Definition exn_str (e : exn) : string :=
  match e with
  | ValueError m | KeyError m | BinasciiError m | FileNotFoundError m
  | RefreshError m | FlowError m | HttpError m => m
  | UnpicklingError => "invalid load key"
  | EOFError => "EOF when reading a line"
  | SystemExit c => pretty c
  end.

(** ** Credential manager *)

Module Credential.

Definition CREDENTIALS_DIR : string := "~/.gmail_credentials".
Definition TOKEN_FILE : string := CREDENTIALS_DIR +:+ "/token.pickle".
Definition CLIENT_SECRETS_FILE : string := CREDENTIALS_DIR +:+ "/credentials.json".
Definition SCOPE_FILE : string := CREDENTIALS_DIR +:+ "/scope.txt".

Definition SCOPES_MAP : gmap string (list string) :=
  <["readonly" := ["https://www.googleapis.com/auth/gmail.readonly"]]>
  (<["modify" := ["https://www.googleapis.com/auth/gmail.readonly";
                  "https://www.googleapis.com/auth/gmail.modify"]]>
  (<["full" := ["https://mail.google.com/"]]> ∅)).

Definition DEFAULT_SCOPE : string := "modify".

(** [SCOPE_FILE.exists()] and [SCOPE_FILE.read_text()] *)
Definition scope_text (w : World) : option string :=
  credentials_dir w ≫= scope_file.

(** [TOKEN_FILE.exists()] and what the file holds *)
Definition token_content (w : World) : option TokenFile :=
  credentials_dir w ≫= token_file.

(** [CLIENT_SECRETS_FILE.exists()] *)
Definition client_secrets_exists (w : World) : bool :=
  match credentials_dir w with
  | Some d => client_secrets_file d
  | None => false
  end.

(** [path.write_text] and [open(path, "wb")] for a file of the directory:
    they fail when the directory is not there. *)
Definition write_in_dir (path : string) (f : CredentialsDir -> CredentialsDir) : M unit :=
  fun w => match credentials_dir w with
           | Some d => (Ok tt, set_credentials_dir (Some (f d)) w)
           | None => (Raise (FileNotFoundError path), w)
           end.

Definition with_scope (o : option string) (d : CredentialsDir) : CredentialsDir :=
  mkCredentialsDir o (token_file d) (client_secrets_file d).
Definition with_token (o : option TokenFile) (d : CredentialsDir) : CredentialsDir :=
  mkCredentialsDir (scope_file d) o (client_secrets_file d).

(** [CREDENTIALS_DIR.mkdir(parents=True, exist_ok=True)] *)
Definition mkdir_credentials_dir : M unit :=
  modify (fun w => match credentials_dir w with
                   | Some _ => w
                   | None => set_credentials_dir (Some (mkCredentialsDir None None false)) w
                   end).

Definition get_current_scope : M string :=
  (text <- gets scope_text ;;
   match text with
   | Some t => ret (PyStr.strip t)
   | None => ret DEFAULT_SCOPE
   end)%py.

Definition invalid_scope_message (scope : string) : string :=
  "Invalid scope: " +:+ scope +:+ ". Choose from: ['readonly', 'modify', 'full']".

Definition set_scope (scope : string) : M unit :=
  match SCOPES_MAP !! scope with
  | None => raise (ValueError (invalid_scope_message scope))
  | Some _ =>
      (write_in_dir SCOPE_FILE (with_scope (Some scope)) ;;
       tok <- gets token_content ;;
       match tok with
       | Some _ => write_in_dir TOKEN_FILE (with_token None)
       | None => ret tt
       end)%py
  end.

Definition rule : string :=
  "======================================================================".

Definition print_all (l : list string) : M unit :=
  fold_right (fun s k => (print s ;; k)%py) (ret tt) l.

Definition manual_instructions (auth_url : string) : list string :=
  [ PyStr.NL +:+ rule;
    "MANUAL AUTHENTICATION FOR REMOTE SERVER";
    rule;
    PyStr.NL +:+ "This method works without SSH tunneling.";
    "You'll copy/paste the redirect URL after completing OAuth." +:+ PyStr.NL;
    rule;
    "STEP 1: Open this URL in your browser (local or remote):";
    rule;
    PyStr.NL +:+ auth_url +:+ PyStr.NL;
    rule;
    "STEP 2: Complete the Google OAuth flow";
    rule;
    "- Sign in to your Google account";
    "- Click 'Advanced' if you see unverified app warning";
    "- Click 'Go to Gmail Agent Skill (unsafe)'";
    "- Click 'Allow'";
    PyStr.NL +:+ rule;
    "STEP 3: After clicking Allow:";
    rule;
    "Your browser will try to load http://localhost:8080/...";
    "It will FAIL with 'connection refused' or similar.";
    "That's EXPECTED! Don't close the tab.";
    PyStr.NL +:+ rule;
    "STEP 4: Copy the FULL URL from your browser's address bar";
    rule;
    "Example: http://localhost:8080/?state=...&code=4/0...";
    "        ^^^^^^^^^^^^^^^^^^^^^^^^^^^^^^^^^^^^^^^^^^^^^^^^";
    "Copy everything from http to the end" +:+ PyStr.NL ].

(** [input(prompt)] *)
Definition input (env : Env) (prompt : string) : M string :=
  (print prompt ;;
   match stdin env with
   | Some line => ret line
   | None => raise EOFError
   end)%py.

(** The manual branch of the flow: [None] is one of its [return None]. *)
Definition manual_flow (env : Env) (scopes : list string) : M (option Credentials) :=
  (print_all (manual_instructions (authorization_url env scopes)) ;;
   pasted <- input env "Paste the full URL here: " ;;
   let redirect_url := PyStr.strip pasted in
   if negb (truthy (Some redirect_url)) then
     print (PyStr.NL +:+ "❌ Error: No URL provided.") ;;
     ret None
   else if negb (PyStr.contains redirect_url "code=") then
     print (PyStr.NL +:+ "❌ Error: URL doesn't contain authorization code.") ;;
     print "Make sure you copied the FULL URL after clicking Allow." ;;
     ret None
   else
     try_except
       (creds <- exchange (ManualFlow scopes redirect_url)
                          (fetch_token env scopes redirect_url) ;;
        print (PyStr.NL +:+ "✓ Authentication successful!") ;;
        ret (Some creds))
       is_Exception
       (fun e =>
          print (PyStr.NL +:+ "❌ Error processing authorization: " +:+ exn_str e) ;;
          print (PyStr.NL +:+ "Make sure you:") ;;
          print "1. Copied the COMPLETE URL (including http://)" ;;
          print "2. Didn't modify the URL" ;;
          print "3. Completed the OAuth flow successfully" ;;
          ret None))%py.

(** The end of [get_credentials] after new credentials were obtained: the
    directory is made and the credentials are pickled into [TOKEN_FILE]. *)
Definition persist (creds : Credentials) : M (option Credentials) :=
  (mkdir_credentials_dir ;;
   write_in_dir TOKEN_FILE (with_token (Some (Pickled creds))) ;;
   ret (Some creds))%py.

(** The branch of [get_credentials] that asks for a new authorization:
    nothing is done without the client secrets; otherwise one of the two
    flows runs, and what it obtains is persisted. *)
Definition authorize (env : Env) (manual : bool) (scopes : list string)
  : M (option Credentials) :=
  (configured <- gets client_secrets_exists ;;
   if negb configured then ret None
   else
     obtained <- (if manual then manual_flow env scopes
                  else creds <- exchange (LocalServerFlow scopes)
                                         (run_local_server env scopes) ;;
                       ret (Some creds)) ;;
     match obtained with
     | Some creds => persist creds
     | None => ret None
     end)%py.

Definition get_credentials (env : Env) (manual : bool) : M (option Credentials) :=
  (scope <- get_current_scope ;;
   scopes <- match SCOPES_MAP !! scope with
             | Some l => ret l
             | None => raise (KeyError scope)
             end ;;
   tok <- gets token_content ;;
   creds <- match tok with
            | Some (Pickled c) => ret (Some c)
            | Some Unreadable => raise UnpicklingError
            | None => ret None
            end ;;
   match creds with
   | Some c =>
       if valid c then ret (Some c)
       else if expired c && truthy (refresh_token c) then
         refreshed <- exchange (TokenRefresh c) (refresh env c) ;;
         persist refreshed
       else authorize env manual scopes
   | None => authorize env manual scopes
   end)%py.

End Credential.

(** ** Paths ([pathlib] on a POSIX system) *)

Module Pathlib.

(** A path as [pathlib] parses it: the anchor (nothing, one slash or two)
    and the components, among which no empty one and no [.] remain. *)
Record PurePath : Type := mkPath {
  anchor : string;
  segments : list string
}.

Definition parse_anchor (s : string) : string :=
  match s with
  | String "/" (String "/" (String "/" _)) => "/"
  | String "/" (String "/" _) => "//"
  | String "/" _ => "/"
  | _ => EmptyString
  end.

Definition kept (x : string) : bool :=
  negb (String.eqb x EmptyString) && negb (String.eqb x ".").

Definition parse_segments (s : string) : list string :=
  List.filter kept (PyStr.split "/" s).

(** [Path(s)] *)
Definition Path (s : string) : PurePath :=
  mkPath (parse_anchor s) (parse_segments s).

(** [p / s]: an anchored right operand replaces the left one. *)
Definition truediv (p : PurePath) (s : string) : PurePath :=
  let q := Path s in
  match anchor q with
  | EmptyString => mkPath (anchor p) (segments p ++ segments q)
  | _ => q
  end.

(** [p.name] *)
Definition name (p : PurePath) : string := List.last (segments p) EmptyString.

(** [s.rfind(c)] *)
Fixpoint rfind (c : ascii) (s : string) : option nat :=
  match s with
  | EmptyString => None
  | String a r =>
      match rfind c r with
      | Some i => Some (S i)
      | None => if Ascii.eqb a c then Some 0%nat else None
      end
  end.

(** [s[:i]] and [s[i:]] *)
Fixpoint take (i : nat) (s : string) : string :=
  match i, s with
  | S i', String a r => String a (take i' r)
  | _, _ => EmptyString
  end.

Fixpoint drop (i : nat) (s : string) : string :=
  match i, s with
  | S i', String _ r => drop i' r
  | _, _ => s
  end.

(** The position of the dot that starts the suffix: the last dot, unless
    it is the first or the last character of the name. *)
Definition suffix_start (n : string) : option nat :=
  match rfind "." n with
  | Some i =>
      if ((0 <? i)%nat && (i <? String.length n - 1)%nat)%bool then Some i else None
  | None => None
  end.

(** [p.suffix] *)
Definition suffix (p : PurePath) : string :=
  match suffix_start (name p) with
  | Some i => drop i (name p)
  | None => EmptyString
  end.

(** [p.stem] *)
Definition stem (p : PurePath) : string :=
  match suffix_start (name p) with
  | Some i => take i (name p)
  | None => name p
  end.

(** [str(p)] *)
Definition str (p : PurePath) : string :=
  match segments p, anchor p with
  | [], EmptyString => "."
  | _, _ => anchor p +:+ PyStr.join "/" (segments p)
  end.

(** [p.parent] *)
Definition parent (p : PurePath) : PurePath :=
  mkPath (anchor p) (removelast (segments p)).

(** [p.exists()] *)
Definition exists_ (fs : gmap string Entry) (p : PurePath) : bool :=
  bool_decide (is_Some (fs !! str p)).

(** Whether [p] is a directory: an entry that is one, or the root or the
    working directory, which are always there. *)
Definition is_dir (fs : gmap string Entry) (p : PurePath) : bool :=
  match segments p with
  | [] => true
  | _ => match fs !! str p with
         | Some Dir => true
         | _ => false
         end
  end.

(** [p.write_bytes(data)] for a path that does not exist: the file is
    created when the directory it goes to is there. *)
Definition write_bytes (p : PurePath) (data : string) : M unit :=
  fun w =>
    if is_dir (files w) (parent p)
    then (Ok tt, set_files (insert (str p) (File data)) w)
    else (Raise (FileNotFoundError (str p)), w).

End Pathlib.

(** ** Attachment download *)

Module Download.
Import Pathlib.

(** The path the loop builds for a value of [counter]:
    [Path(output_dir) / f"{stem}_{counter}{suffix}"]. *)
Definition numbered (output_dir filename : string) (counter : N) : PurePath :=
  truediv (Path output_dir)
          (stem (Path filename) +:+ "_" +:+ pretty counter +:+ suffix (Path filename)).

(** [while output_path.exists(): ...], run for at most [fuel] tests.  The
    source loop has no bound; it ends because the numbered paths are
    pairwise different and the file system is finite, so that two tests
    more than it has entries always suffice. *)
Fixpoint while_exists (fuel : nat) (fs : gmap string Entry)
         (output_dir filename : string) (counter : N) (output_path : PurePath)
  : PurePath :=
  match fuel with
  | O => output_path
  | S fuel' =>
      if exists_ fs output_path
      then while_exists fuel' fs output_dir filename (counter + 1)
                        (numbered output_dir filename counter)
      else output_path
  end.

(** The path [download_attachment] settles on. *)
Definition free_path (fs : gmap string Entry) (output_dir filename : string) : PurePath :=
  while_exists (S (S (size fs))) fs output_dir filename 1
               (truediv (Path output_dir) filename).

Definition download_attachment (env : Env)
           (msg_id attachment_id filename output_dir : string) : M string :=
  (attachment <- call (AttachmentsGet msg_id attachment_id)
                      (attachments_get env msg_id attachment_id) ;;
   data <- match attachment with
           | Some d => ret d
           | None => raise (KeyError "data")
           end ;;
   file_data <- lift (Base64.urlsafe_b64decode data) ;;
   fs <- gets files ;;
   let output_path := free_path fs output_dir filename in
   write_bytes output_path file_data ;;
   ret (str output_path))%py.

End Download.

(** ** Outgoing messages and replies *)

Module Compose.

(** [r'^[a-zA-Z0-9._%+-]+@[a-zA-Z0-9.-]+\.[a-zA-Z]{2,}$'] *)
Definition local_class (c : ascii) : bool :=
  Re.alpha c || Re.digit c || Re.one_of "._%+-" c.
Definition domain_class (c : ascii) : bool :=
  Re.alpha c || Re.digit c || Re.one_of ".-" c.

Definition email_pattern : Re.regex :=
  Re.Cat (Re.Plus (Re.Chr local_class))
 (Re.Cat (Re.Chr (Ascii.eqb "@"))
 (Re.Cat (Re.Plus (Re.Chr domain_class))
 (Re.Cat (Re.Chr (Ascii.eqb "."))
 (Re.Cat (Re.Chr Re.alpha)
 (Re.Cat (Re.Chr Re.alpha)
 (Re.Cat (Re.Star (Re.Chr Re.alpha))
         Re.Dollar)))))).

Definition validate_email (email : string) : bool :=
  Re.fullmatch email_pattern (PyStr.strip email).

(** The optional-header idiom of [create_message]: [if v: message[k] = v]. *)
Definition header_if (k v : string) : list (string * string) :=
  if truthy (Some v) then [(k, v)] else [].

Definition create_message (to subject body from_addr cc bcc : string) (html : bool)
           (in_reply_to references : string) (thread_id : option string) : Outgoing :=
  let message :=
    mkMime html (if html then "html" else "plain")
           ([("To", to); ("From", from_addr); ("Subject", subject)]
              ++ header_if "Cc" cc ++ header_if "Bcc" bcc
              ++ header_if "In-Reply-To" in_reply_to
              ++ header_if "References" references)%list
           body in
  mkOutgoing message (if truthy thread_id then thread_id else None).

(** [{h["name"]: h["value"] for h in ...}]: a later header of the same
    name replaces an earlier one. *)
Definition headers_dict (l : list (string * string)) : gmap string string :=
  fold_left (fun m h => <[h.1 := h.2]> m) l ∅.

(** [d.get(k, dflt)] *)
Definition get (d : gmap string string) (k dflt : string) : string :=
  default dflt (d !! k).

Record ReplyContext : Type := mkReplyContext {
  reply_to : string;
  reply_subject : string;
  reply_thread_id : option string;
  reply_message_id : string;
  reply_references : string
}.

(** [get_message_for_reply] after the message was fetched. *)
Definition reply_context (msg : Message) : ReplyContext :=
  let headers := headers_dict (default [] (payload msg ≫= headers)) in
  let original_from := get headers "From" EmptyString in
  let reply_to := default original_from (Re.search_angle_group original_from) in
  let original_subject := get headers "Subject" "(no subject)" in
  let subject :=
    if negb (PyStr.startswith (PyStr.lower original_subject) "re:")
    then "Re: " +:+ original_subject
    else original_subject in
  let message_id := get headers "Message-ID" EmptyString in
  let existing_refs := get headers "References" EmptyString in
  let references :=
    if truthy (Some existing_refs) && truthy (Some message_id)
    then existing_refs +:+ " " +:+ message_id
    else if truthy (Some message_id) then message_id
    else EmptyString in
  mkReplyContext reply_to subject (threadId msg) message_id references.

Definition reply_metadata_headers : list string :=
  ["From"; "To"; "Subject"; "Message-ID"; "References"].

Definition get_message_for_reply (env : Env) (msg_id : string) : M ReplyContext :=
  (msg <- call (MessagesGet msg_id "metadata" reply_metadata_headers)
               (messages_get env msg_id "metadata" reply_metadata_headers) ;;
   ret (reply_context msg))%py.

End Compose.

(** ** The send, draft and reply commands *)

Module Cli.
Import Compose.

Record SendArgs : Type := mkSendArgs {
  arg_to : string;
  arg_subject : string;
  arg_body : string;
  arg_cc : option string;
  arg_bcc : option string;
  arg_html : bool;
  arg_json : bool
}.

Record ReplyArgs : Type := mkReplyArgs {
  reply_arg_message_id : string;
  reply_arg_body : string;
  reply_arg_html : bool;
  reply_arg_json : bool
}.

(** [print(msg); sys.exit(1)] *)
Definition fail {A} (msg : string) : M A := (print msg ;; sys_exit 1)%py.

(** [if not cond_ok: print(msg); sys.exit(1)] *)
Definition require (ok : bool) (msg : string) : M unit :=
  if ok then ret tt else fail msg.

(** [try: body except HttpError as e: print(...); sys.exit(1)] *)
Definition except_http {A} (body : M A) : M A :=
  try_except body is_HttpError (fun e => fail ("Gmail API error: " +:+ exn_str e)).

(** The credentials every command starts by asking for.  (The client
    object that [build] makes from them afterwards is made locally; the
    calls to the service are the [execute()] of its requests.) *)
Definition authenticated (env : Env) : M Credentials :=
  (creds <- Credential.get_credentials env false ;;
   match creds with
   | Some c => ret c
   | None => fail "Not authenticated. Run 'setup' or 'auth' first."
   end)%py.

(** [for email in field.split(','): if not validate_email(email): ...] *)
Fixpoint check_each (label : string) (emails : list string) : M unit :=
  match emails with
  | [] => ret tt
  | email :: rest =>
      (require (validate_email email)
               ("Error: Invalid " +:+ label +:+ " email address: " +:+ PyStr.strip email) ;;
       check_each label rest)%py
  end.

Definition check_list (label : string) (field : option string) : M unit :=
  if truthy field then check_each label (PyStr.split "," (default EmptyString field))
  else ret tt.

(** The checks [cmd_send] and [cmd_draft] share, in their order. *)
Definition validate_fields (args : SendArgs) : M unit :=
  (require (truthy (Some (arg_to args))) "Error: --to is required" ;;
   require (validate_email (arg_to args))
           ("Error: Invalid email address: " +:+ arg_to args) ;;
   check_list "CC" (arg_cc args) ;;
   check_list "BCC" (arg_bcc args) ;;
   require (truthy (Some (arg_subject args))) "Error: --subject is required" ;;
   require (truthy (Some (arg_body args))) "Error: --body is required")%py.

Definition message_of (args : SendArgs) : Outgoing :=
  create_message (arg_to args) (arg_subject args) (arg_body args) "me"
                 (default EmptyString (arg_cc args))
                 (default EmptyString (arg_bcc args))
                 (arg_html args) EmptyString EmptyString None.

Definition print_recipients (args : SendArgs) : M unit :=
  (print ("To: " +:+ arg_to args) ;;
   (if truthy (arg_cc args)
    then print ("CC: " +:+ default EmptyString (arg_cc args)) else ret tt) ;;
   (if truthy (arg_bcc args)
    then print ("BCC: " +:+ default EmptyString (arg_bcc args)) else ret tt) ;;
   print ("Subject: " +:+ arg_subject args))%py.

Definition cmd_send (env : Env) (args : SendArgs) : M unit :=
  (_ <- authenticated env ;;
   validate_fields args ;;
   except_http
     (let message := message_of args in
      result <- call (MessagesSend message) (messages_send env message) ;;
      if arg_json args then print (json_dumps_send env result)
      else
        print "✓ Email sent successfully!" ;;
        print ("Message ID: " +:+ sent_id result) ;;
        print ("Thread ID: " +:+ sent_threadId result) ;;
        print_recipients args))%py.

Definition cmd_draft (env : Env) (args : SendArgs) : M unit :=
  (_ <- authenticated env ;;
   validate_fields args ;;
   except_http
     (let message := message_of args in
      result <- call (DraftsCreate message) (drafts_create env message) ;;
      if arg_json args then print (json_dumps_draft env result)
      else
        print "✓ Draft created successfully!" ;;
        print ("Draft ID: " +:+ draft_id result) ;;
        print ("Message ID: " +:+ draft_message_id result) ;;
        print_recipients args))%py.

Definition cmd_reply (env : Env) (args : ReplyArgs) : M unit :=
  (_ <- authenticated env ;;
   require (truthy (Some (reply_arg_message_id args))) "Error: message_id is required" ;;
   require (truthy (Some (reply_arg_body args))) "Error: --body is required" ;;
   except_http
     (original <- get_message_for_reply env (reply_arg_message_id args) ;;
      let message :=
        create_message (reply_to original) (reply_subject original)
                       (reply_arg_body args) "me" EmptyString EmptyString
                       (reply_arg_html args)
                       (reply_message_id original) (reply_references original)
                       (reply_thread_id original) in
      result <- call (MessagesSend message) (messages_send env message) ;;
      if reply_arg_json args then print (json_dumps_send env result)
      else
        print "✓ Reply sent successfully!" ;;
        print ("Message ID: " +:+ sent_id result) ;;
        print ("Thread ID: " +:+ sent_threadId result) ;;
        print ("To: " +:+ reply_to original) ;;
        print ("Subject: " +:+ reply_subject original)))%py.

End Cli.

(** ** Reference readings of the message codec *)

Module CodecSpec.
Import Codec.

(** The children of a part, in their given order; none when the key is
    absent. *)
Definition children (p : MessagePart) : list MessagePart :=
  match parts p with
  | Some ps => ps
  | None => []
  end.

(** A direct child that is plain text and carries a payload. *)
Definition plain_payload (c : MessagePart) : option string :=
  if is_text_plain c then body_data c else None.

(** The specification's wording of [extract_body], clause by clause:
    (a) the node's own payload; (b) the first direct child that is plain
    text with a payload, looked for among all direct children; (c) only
    then the first non-empty result of recursing into the children in
    order; (d) the empty string. *)
Fixpoint extract_body_spec (p : MessagePart) : res string :=
  match body_data p with
  | Some d => b64_text d
  | None =>
      match list_find (fun c => is_Some (plain_payload c)) (children p) with
      | Some (_, c) => b64_text (default "" (plain_payload c))
      | None =>
          match parts p with
          | None => Ok ""
          | Some ps =>
              (fix first_non_empty (l : list MessagePart) : res string :=
                 match l with
                 | [] => Ok ""
                 | c :: rest =>
                     match extract_body_spec c with
                     | Raise e => Raise e
                     | Ok "" => first_non_empty rest
                     | Ok b => Ok b
                     end
                 end) ps
          end
      end
  end.

(** What one step of the loop of [extract_body] yields at a direct child:
    the decoded payload of a plain-text child, else the recursive result
    of a child that has a ["parts"] key when that result is not the empty
    string; [None] when the loop moves on. *)
Definition child_yield (c : MessagePart) : option (res string) :=
  match plain_payload c with
  | Some d => Some (b64_text d)
  | None =>
      match parts c with
      | Some _ =>
          match extract_body c with
          | Ok "" => None
          | r => Some r
          end
      | None => None
      end
  end.

(** The first result a sequence of loop steps yields, the empty string
    when none does. *)
Fixpoint first_yield (l : list (option (res string))) : res string :=
  match l with
  | [] => Ok ""
  | Some r :: _ => r
  | None :: rest => first_yield rest
  end.

(** All nodes of a tree in depth-first pre-order: a parent before its
    children, the children in their given order. *)
Fixpoint nodes (p : MessagePart) : list MessagePart :=
  p :: match parts p with
       | None => []
       | Some ps =>
           (fix over (l : list MessagePart) : list MessagePart :=
              match l with
              | [] => []
              | c :: rest => (nodes c ++ over rest)%list
              end) ps
       end.

Definition has_filename (p : MessagePart) : bool := truthy (filename p).

(** The descriptors of the named nodes of a tree, in pre-order. *)
Definition named (p : MessagePart) : list AttachmentDescriptor :=
  map descriptor (List.filter has_filename (nodes p)).

(** The number of nodes of a tree that carry a non-empty filename. *)
Fixpoint count_named (p : MessagePart) : nat :=
  ((if has_filename p then 1 else 0) +
   match parts p with
   | None => 0
   | Some ps =>
       (fix over (l : list MessagePart) : nat :=
          match l with
          | [] => 0
          | c :: rest => count_named c + over rest
          end) ps
   end)%nat.

(** The loop of [extract_body] moves past a direct child that is not
    plain text with a payload and that either has no ["parts"] key or
    whose recursive result is the empty string. *)
Definition passed_over (c : MessagePart) : Prop :=
  plain_payload c = None /\ (parts c = None \/ extract_body c = Ok "").

(** *** Sample trees *)

Definition leaf (mime : string) (payload : string) : MessagePart :=
  Part (Some mime) (Some "") (Some (mkBody (Some payload) (Some 6%Z) None)) None.

Definition container (mime : string) (ps : list MessagePart) : MessagePart :=
  Part (Some mime) (Some "") (Some (mkBody None (Some 0%Z) None)) (Some ps).

(** multipart/mixed [ multipart/alternative [ text/plain "nested" ],
    text/plain "direct" ] *)
Definition nested_before_direct : MessagePart :=
  container "multipart/mixed"
    [ container "multipart/alternative" [ leaf "text/plain" "bmVzdGVk" ];
      leaf "text/plain" "ZGlyZWN0" ].

(** multipart/mixed [ text/html "<b>hi</b>" ] *)
Definition html_only_child : MessagePart :=
  container "multipart/mixed" [ leaf "text/html" "PGI-aGk8L2I-" ].

(** text/plain "direct" with a payload of its own and a plain-text child
    "nested". *)
Definition own_and_child : MessagePart :=
  Part (Some "multipart/mixed") (Some "")
       (Some (mkBody (Some "ZGlyZWN0") (Some 6%Z) None))
       (Some [ leaf "text/plain" "bmVzdGVk" ]).

Definition attachment (name mime : string) (ps : option (list MessagePart)) : MessagePart :=
  Part (Some mime) (Some name) (Some (mkBody None (Some 10%Z) (Some ("id-" +:+ name)))) ps.

(** A forwarded message kept as an attachment that holds attachments of
    its own, between two siblings. *)
Definition nested_attachments : MessagePart :=
  container "multipart/mixed"
    [ leaf "text/plain" "ZGlyZWN0";
      attachment "fwd.eml" "message/rfc822"
        (Some [ attachment "a.pdf" "application/pdf" None;
                container "multipart/mixed" [ attachment "b.png" "image/png" None ] ]);
      attachment "c.txt" "text/plain" None ].

End CodecSpec.

(** ** Reference readings of the reply derivation *)

Module ReplySpec.

(** The headers of a fetched message, none when the payload or its header
    list is absent. *)
Definition message_headers (msg : Message) : list (string * string) :=
  default [] (payload msg ≫= headers).

(** The value of the last header of a list that bears a name. *)
Fixpoint last_header (l : list (string * string)) (name : string) : option string :=
  match l with
  | [] => None
  | (k, v) :: rest =>
      match last_header rest name with
      | Some v' => Some v'
      | None => if String.eqb k name then Some v else None
      end
  end.

(** A header exists when it is there with a value that is not empty. *)
Definition existing (msg : Message) (name : string) : option string :=
  match last_header (message_headers msg) name with
  | Some (String a v) => Some (String a v)
  | _ => None
  end.

(** The subject a reply starts from. *)
Definition original_subject (msg : Message) : string :=
  default "(no subject)" (last_header (message_headers msg) "Subject").

(** A string that begins with the letters r, e in either case and a
    colon. *)
Definition begins_with_re (s : string) : bool :=
  match s with
  | String a (String b (String c _)) =>
      (Ascii.eqb a "r" || Ascii.eqb a "R")
      && (Ascii.eqb b "e" || Ascii.eqb b "E")
      && Ascii.eqb c ":"
  | _ => false
  end.

(** A message whose metadata are the given headers. *)
Definition message_with (hs : list (string * string)) : Message :=
  mkMessage (Some "thread-1")
            (Some (mkPayload (Some hs) (Codec.Part None None None None))).

End ReplySpec.

(** A computation steps within [R] when every run takes a world to an
    [R]-related one, whether it returns or raises. *)
Definition steps_in (R : World -> World -> Prop) {A} (m : M A) : Prop :=
  forall w, R w (m w).2.

(** ** Reference readings of the credential manager *)

Module CredentialSpec.
Import Credential.

(** The scope [get_credentials] works with: the persisted one without its
    surrounding white space, [DEFAULT_SCOPE] when none is persisted. *)
Definition current_scope (w : World) : string :=
  match scope_text w with
  | Some t => PyStr.strip t
  | None => DEFAULT_SCOPE
  end.

(** An exchange that belongs to a full authorization, not a refresh. *)
Definition is_flow (e : AuthEvent) : Prop :=
  match e with
  | TokenRefresh _ => False
  | _ => True
  end.

(** The world after one more exchange with the authorization server. *)
Definition after_exchange (e : AuthEvent) (w : World) : World :=
  set_auth_events (fun l => l ++ [e])%list w.

(** The world after credentials were pickled into [TOKEN_FILE]. *)
Definition after_persist (c : Credentials) (d : CredentialsDir) (w : World) : World :=
  set_credentials_dir (Some (with_token (Some (Pickled c)) d)) w.

(** No refresh exchange is added from [w] to [w']. *)
Definition no_new_refresh (w w' : World) : Prop :=
  forall c, TokenRefresh c ∈ auth_events w' -> TokenRefresh c ∈ auth_events w.

(** *** Sample credentials, collaborators and worlds *)

Definition stale : Credentials :=
  mkCredentials (Some "ya29.old") (Some "1//refresh") true
                ["https://www.googleapis.com/auth/gmail.readonly"].

Definition renewed : Credentials :=
  mkCredentials (Some "ya29.new") (Some "1//refresh") false
                ["https://www.googleapis.com/auth/gmail.readonly"].

Definition granted : Credentials :=
  mkCredentials (Some "ya29.full") (Some "1//other") false
                ["https://mail.google.com/"].

(** Collaborators that answer a refresh with [refresh_answer], either
    flow with [flow_answer], and a fetch with [msg]. *)
Definition collaborators (refresh_answer flow_answer : res Credentials) (msg : Message) : Env :=
  mkEnv (fun _ => refresh_answer)
        (fun _ => "https://accounts.google.com/o/oauth2/auth?client_id=x")
        (fun _ => flow_answer)
        (Some "http://localhost:8080/?state=s&code=4/0abc")
        (fun _ _ => flow_answer)
        (fun _ _ _ => Ok msg)
        (fun _ => Ok (mkSendResult "m-2" "thread-1"))
        (fun _ => Ok (mkDraftResult "d-1" "m-3"))
        (fun _ _ => Ok (Some "aGVsbG8="))
        (fun r => sent_id r)
        (fun r => draft_id r).

Definition empty_message : Message := mkMessage None None.

(** A world with the given credentials directory and nothing else. *)
Definition world_of (d : option CredentialsDir) : World :=
  mkWorld d ∅ [] [] [].

(** The directory of a configured installation that holds the stale
    credentials and the read-only scope. *)
Definition stale_dir (configured : bool) : CredentialsDir :=
  mkCredentialsDir (Some "readonly") (Some (Pickled stale)) configured.

End CredentialSpec.

(** ** Reference readings of the commands *)

Module CliSpec.
Import Compose Cli CredentialSpec.

(** The addresses of an optional comma-separated field. *)
Definition listed (field : option string) : list string :=
  if truthy field then PyStr.split "," (default EmptyString field) else [].

(** Every recipient address of the arguments is well formed. *)
Definition recipients_ok (args : SendArgs) : bool :=
  validate_email (arg_to args)
  && forallb validate_email (listed (arg_cc args))
  && forallb validate_email (listed (arg_bcc args)).

(** The line a malformed [--to] is reported with. *)
Definition to_error (args : SendArgs) : string :=
  if truthy (Some (arg_to args))
  then "Error: Invalid email address: " +:+ arg_to args
  else "Error: --to is required".

(** The same mail service calls were made in both worlds. *)
Definition same_requests (w w' : World) : Prop := requests w' = requests w.

Definition raises {A} (r : res A) : Prop :=
  match r with
  | Raise _ => True
  | Ok _ => False
  end.

(** *** Sample arguments and worlds *)

Definition to_not_an_email : SendArgs :=
  mkSendArgs "not-an-email" "Quarterly Report" "See attached." None None false false.

(** An installation that holds a valid handle. *)
Definition signed_in : World :=
  world_of (Some (mkCredentialsDir (Some "modify") (Some (Pickled renewed)) true)).

(** A message whose sender is no address. *)
Definition from_not_an_email : Message :=
  ReplySpec.message_with
    [("From", "not-an-email"); ("Subject", "Hello"); ("Message-ID", "<m1@example.org>")].

Definition reply_thanks : ReplyArgs := mkReplyArgs "m-1" "Thanks." false false.

End CliSpec.

(** ** Reference readings of the attachment download *)

Module DownloadSpec.
Import Pathlib Download.

(** The paths the loop tries, in order: the plain one, then the numbered
    ones from 1 on. *)
Definition candidate (output_dir filename : string) (k : nat) : PurePath :=
  match k with
  | O => truediv (Path output_dir) filename
  | S _ => numbered output_dir filename (N.of_nat k)
  end.

(** The name the loop builds for a value of [counter]. *)
Definition numbered_name (filename : string) (counter : N) : string :=
  stem (Path filename) +:+ "_" +:+ pretty counter +:+ suffix (Path filename).

Definition chars (s : string) : list ascii := list_ascii_of_string s.

(** A string without a slash. *)
Definition slash_free (s : string) : Prop := ~ In "/"%char (chars s).

(** A file name: one path component, so not empty, not [.], and without a
    slash. *)
Definition file_name (s : string) : Prop := slash_free s /\ kept s = true.

(** What [str] puts before the last component of a path below [d]. *)
Definition dir_prefix (d : PurePath) : string :=
  anchor d +:+ fold_right (fun x acc => x +:+ "/" +:+ acc) EmptyString (segments d).

(** The world after a download that wrote [data] to [path]. *)
Definition after_download (msg_id attachment_id path data : string) (w : World) : World :=
  set_files (insert path (File data))
            (set_requests (fun l => l ++ [AttachmentsGet msg_id attachment_id])%list w).

(** *** Sample directories *)

Definition downloads : string := "/home/u/Downloads".

Definition empty_downloads : gmap string Entry :=
  {[ "/home/u/Downloads" := Dir ]}.

Definition downloads_with_report : gmap string Entry :=
  <[ "/home/u/Downloads/report.pdf" := File "old" ]> empty_downloads.

Definition world_with_files (fs : gmap string Entry) : World :=
  mkWorld None fs [] [] [].

End DownloadSpec.

(** ** Further readings of the credential manager *)

Module CredentialFacts.
Import Credential CredentialSpec.


(** From [w] to [w'] the scope file, the client secrets, the other files
    and the calls to the mail service are the same. *)
Definition keeps_configuration (w w' : World) : Prop :=
  scope_text w' = scope_text w
  /\ client_secrets_exists w' = client_secrets_exists w
  /\ files w' = files w
  /\ requests w' = requests w.

(** The world after more lines were printed. *)
Definition after_print (lines : list string) (w : World) : World :=
  set_stdout (fun out => out ++ lines)%list w.

(** A configured installation without a token. *)
Definition signed_out : World :=
  world_of (Some (mkCredentialsDir (Some "readonly") None true)).

(** Collaborators whose operator pastes [line] and whose authorization
    server answers the code exchange with [answer]. *)
Definition operator (line : option string) (answer : res Credentials) : Env :=
  mkEnv (fun _ => Raise (RefreshError "unused"))
        (fun _ => "https://accounts.google.com/o/oauth2/auth?client_id=x")
        (fun _ => Raise (FlowError "unused"))
        line
        (fun _ _ => answer)
        (fun _ _ _ => Raise (HttpError "unused"))
        (fun _ => Raise (HttpError "unused"))
        (fun _ => Raise (HttpError "unused"))
        (fun _ _ => Raise (HttpError "unused"))
        (fun r => sent_id r)
        (fun r => draft_id r).

(** The world [persist] leaves: the directory is there and its token file
    holds the credentials. *)
Definition persisted (c : Credentials) (w : World) : World :=
  match credentials_dir w with
  | Some d => after_persist c d w
  | None => after_persist c (mkCredentialsDir None None false) w
  end.

(** The exchanges of [w'] continue those of [w]. *)
Definition events_grow (w w' : World) : Prop :=
  exists events, auth_events w' = (auth_events w ++ events)%list.

(** What the operator has seen when the manual flow reads the pasted
    line. *)
Definition prompted (env : Env) (scopes : list string) (w : World) : World :=
  after_print ["Paste the full URL here: "]
    (after_print (manual_instructions (authorization_url env scopes)) w).

End CredentialFacts.

(** ** The setup, auth and scope commands *)

Module Commands.
Import Credential.

(** A double quote, for the texts that hold one. *)
Definition QUOTE : string := String (ascii_of_N 34) EmptyString.

Definition quoted (s : string) : string := QUOTE +:+ s +:+ QUOTE.

(** [TOKEN_FILE.unlink()] when the file exists. *)
Definition unlink_token : M unit :=
  (tok <- gets token_content ;;
   match tok with
   | Some _ => write_in_dir TOKEN_FILE (with_token None)
   | None => ret tt
   end)%py.

(** [cmd_auth]; [manual] is [getattr(args, 'manual', False)]. *)
Definition cmd_auth (env : Env) (manual : bool) : M unit :=
  (configured <- gets client_secrets_exists ;;
   Cli.require configured
     ("Error: " +:+ CLIENT_SECRETS_FILE +:+ " not found. Run 'setup' for instructions.") ;;
   unlink_token ;;
   creds <- get_credentials env manual ;;
   if match creds with
      | Some c => valid c
      | None => false
      end
   then
     print "Authentication successful!" ;;
     scope <- get_current_scope ;;
     print ("Scope: " +:+ scope)
   else Cli.fail "Authentication failed.")%py.

(** [except ValueError] *)
Definition is_ValueError (e : exn) : bool :=
  match e with
  | ValueError _ => true
  | _ => false
  end.

(** [SCOPES_MAP.items()], in the order the dict was written. *)
Definition SCOPES_ITEMS : list (string * list string) :=
  [ ("readonly", ["https://www.googleapis.com/auth/gmail.readonly"]);
    ("modify", ["https://www.googleapis.com/auth/gmail.readonly";
                "https://www.googleapis.com/auth/gmail.modify"]);
    ("full", ["https://mail.google.com/"]) ].

(** One line of the scope listing; every entry of the table has a first
    scope. *)
Definition scope_line (current : string) (item : string * list string) : string :=
  "  " +:+ item.1 +:+ (if String.eqb item.1 current then " (current)" else EmptyString)
       +:+ ": " +:+ hd EmptyString item.2.

(** [cmd_scope]; [set] is [args.set]. *)
Definition cmd_scope (set : option string) : M unit :=
  if truthy set then
    let scope := default EmptyString set in
    try_except
      (set_scope scope ;;
       print ("Scope set to: " +:+ scope) ;;
       print "Token cleared - re-authentication required." ;;
       print "Run: python3 gmail_search.py auth")%py
      is_ValueError
      (fun e => Cli.fail ("Error: " +:+ exn_str e))
  else
    (current <- get_current_scope ;;
     print ("Current scope: " +:+ current) ;;
     print (PyStr.NL +:+ "Available scopes:") ;;
     print_all (map (scope_line current) SCOPES_ITEMS))%py.

(** The [status] dict of [cmd_setup]. *)
Record Status : Type := mkStatus {
  status_configured : bool;
  status_scope : string;
  status_token_valid : bool;
  status_error : option string;
  status_instructions : option string;
  status_message : option string
}.

Definition setup_instructions (scope : string) : string :=
  PyStr.join PyStr.NL
    [ EmptyString;
      "Gmail API not configured. To set up:";
      EmptyString;
      "1. Save your OAuth credentials to: " +:+ CLIENT_SECRETS_FILE;
      EmptyString;
      "   Create a file with this structure:";
      "   {";
      "     " +:+ quoted "installed" +:+ ": {";
      "       " +:+ quoted "client_id" +:+ ": " +:+ quoted "YOUR_CLIENT_ID" +:+ ",";
      "       " +:+ quoted "client_secret" +:+ ": " +:+ quoted "YOUR_CLIENT_SECRET" +:+ ",";
      "       " +:+ quoted "auth_uri" +:+ ": "
                +:+ quoted "https://accounts.google.com/o/oauth2/auth" +:+ ",";
      "       " +:+ quoted "token_uri" +:+ ": "
                +:+ quoted "https://oauth2.googleapis.com/token" +:+ ",";
      "       " +:+ quoted "redirect_uris" +:+ ": [" +:+ quoted "http://localhost" +:+ "]";
      "     }";
      "   }";
      EmptyString;
      "2. Run: python3 gmail_search.py auth";
      EmptyString;
      "Current scope: " +:+ scope +:+ " (change with --scope)";
      EmptyString ].

(** [cmd_setup]; [json] is [args.json] and [json_dumps] stands for
    [json.dumps(status, indent=2)]. *)
Definition cmd_setup (env : Env) (json_dumps : Status -> string) (json : bool) : M unit :=
  (mkdir_credentials_dir ;;
   scope <- get_current_scope ;;
   configured <- gets client_secrets_exists ;;
   status <-
     (if negb configured then
        ret (mkStatus false scope false (Some "credentials.json not found")
                      (Some (setup_instructions scope)) None)
      else
        creds <- get_credentials env false ;;
        if match creds with
           | Some c => valid c
           | None => false
           end
        then ret (mkStatus true scope true None None
                           (Some "Gmail API configured and authenticated"))
        else ret (mkStatus true scope false None None
                    (Some "Credentials found but not authenticated. Run: python3 gmail_search.py auth"))) ;;
   if json then print (json_dumps status)
   else if truthy (status_instructions status)
   then print (default EmptyString (status_instructions status))
   else
     print ("Status: " +:+ (if status_token_valid status
                            then "Ready" else "Needs authentication")) ;;
     print ("Scope: " +:+ status_scope status) ;;
     if negb (status_token_valid status)
     then print (PyStr.NL +:+ "Run: python3 gmail_search.py auth")
     else ret tt)%py.

(** The credentials directory, once there, stays. *)
Definition directory_stays (w w' : World) : Prop :=
  is_Some (credentials_dir w) -> is_Some (credentials_dir w').

(** The status [cmd_setup] reports when the client secrets are missing. *)
Definition unconfigured_status (scope : string) : Status :=
  mkStatus false scope false (Some "credentials.json not found")
           (Some (setup_instructions scope)) None.

End Commands.

(** ** Further readings of the send, draft and reply commands *)

Module ComposeFacts.
Import Compose Cli CredentialFacts.

(** The value of the first header of an outgoing message that bears a
    name. *)
Definition header (out : Outgoing) (name : string) : option string :=
  snd <$> List.find (fun h => String.eqb h.1 name) (mime_headers (raw out)).

(** The message [cmd_reply] composes for a fetched original. *)
Definition reply_message (args : ReplyArgs) (msg : Message) : Outgoing :=
  let original := reply_context msg in
  create_message (reply_to original) (reply_subject original)
                 (reply_arg_body args) "me" EmptyString EmptyString
                 (reply_arg_html args)
                 (reply_message_id original) (reply_references original)
                 (reply_thread_id original).


(** The world after one more call to the mail service. *)
Definition after_call (r : Request) (w : World) : World :=
  set_requests (fun l => l ++ [r])%list w.

(** All the fields [cmd_send] and [cmd_draft] check are in order. *)
Definition fields_ok (args : SendArgs) : bool :=
  CliSpec.recipients_ok args
  && truthy (Some (arg_subject args)) && truthy (Some (arg_body args)).

(** What [print_recipients] prints. *)
Definition recipient_lines (args : SendArgs) : list string :=
  (["To: " +:+ arg_to args]
     ++ (if truthy (arg_cc args) then ["CC: " +:+ default EmptyString (arg_cc args)] else [])
     ++ (if truthy (arg_bcc args) then ["BCC: " +:+ default EmptyString (arg_bcc args)] else [])
     ++ ["Subject: " +:+ arg_subject args])%list.

(** What [cmd_send] prints after the service accepted the message. *)
Definition sent_lines (env : Env) (args : SendArgs) (result : SendResult) : list string :=
  if arg_json args then [json_dumps_send env result]
  else (["✓ Email sent successfully!";
         "Message ID: " +:+ sent_id result;
         "Thread ID: " +:+ sent_threadId result] ++ recipient_lines args)%list.

(** What [cmd_draft] prints after the service stored the draft. *)
Definition draft_lines (env : Env) (args : SendArgs) (result : DraftResult) : list string :=
  if arg_json args then [json_dumps_draft env result]
  else (["✓ Draft created successfully!";
         "Draft ID: " +:+ draft_id result;
         "Message ID: " +:+ draft_message_id result] ++ recipient_lines args)%list.

(** What a command that made the call [r], answered with [answer],
    comes to when it then prints [lines], under [except HttpError]. *)
Definition served {A} (r : Request) (answer : res A) (lines : A -> list string)
           (w : World) : res unit * World :=
  match answer with
  | Ok result => (Ok tt, after_print (lines result) (after_call r w))
  | Raise e =>
      if is_HttpError e
      then (Raise (SystemExit 1),
            after_print ["Gmail API error: " +:+ exn_str e] (after_call r w))
      else (Raise e, after_call r w)
  end.



(** A thread identifier that is there and not empty. *)
Definition thread_of (msg : Message) : option string :=
  match threadId msg with
  | Some (String a t) => Some (String a t)
  | _ => None
  end.



(** A message from a sender with a display name, in a thread, with
    earlier references. *)
Definition from_alice : Message :=
  mkMessage (Some "thread-7")
    (Some (mkPayload
             (Some [("From", "Alice Example <alice@example.org>");
                    ("Subject", "Quarterly Report");
                    ("Message-ID", "<m7@example.org>");
                    ("References", "<m5@example.org> <m6@example.org>")])
             (Codec.Part None None None None))).

End ComposeFacts.

(** ** The shape of an accepted address *)

Module EmailSpec.
Import Compose.

(** The language of a regular expression. *)
Inductive matches : Re.regex -> string -> Prop :=
| matches_eps : matches Re.Eps EmptyString
| matches_chr cls c : cls c = true -> matches (Re.Chr cls) (String c EmptyString)
| matches_cat r1 r2 s1 s2 :
    matches r1 s1 -> matches r2 s2 -> matches (Re.Cat r1 r2) (s1 +:+ s2)
| matches_alt_l r1 r2 s : matches r1 s -> matches (Re.Alt r1 r2) s
| matches_alt_r r1 r2 s : matches r2 s -> matches (Re.Alt r1 r2) s
| matches_star_nil r : matches (Re.Star r) EmptyString
| matches_star_cons r s1 s2 :
    matches r s1 -> matches (Re.Star r) s2 -> matches (Re.Star r) (s1 +:+ s2).

(** Every character of a string is in a class. *)
Definition all_in (cls : ascii -> bool) (s : string) : bool :=
  forallb cls (list_ascii_of_string s).

(** [local@domain.tld]: a local part of at least one character among
    letters, digits and [._%+-], a domain of at least one character among
    letters, digits and [.-], and after its last dot at least two
    letters. *)
Definition well_formed (s : string) : Prop :=
  exists l d t,
    s = l +:+ "@" +:+ d +:+ "." +:+ t
    /\ l <> EmptyString /\ all_in local_class l = true
    /\ d <> EmptyString /\ all_in domain_class d = true
    /\ (2 <= String.length t)%nat /\ all_in Re.alpha t = true.

End EmailSpec.

(** ** The download command *)

Module DownloadCommand.
Import Pathlib Download Codec Cli.

Record DownloadArgs : Type := mkDownloadArgs {
  download_arg_message_id : string;
  download_arg_output : option string;
  download_arg_json : bool
}.

(** An entry of the list [downloaded]. *)
Record Downloaded : Type := mkDownloaded {
  downloaded_filename : string;
  downloaded_path : string;
  downloaded_size : Z
}.

(** [msg.get("payload", {})] *)
Definition payload_or_empty (msg : Message) : MessagePart :=
  match payload msg with
  | Some p => root p
  | None => Part None None None None
  end.

(** The fetch of the whole message; it names no metadata header. *)
Definition full_fetch (msg_id : string) : Request := MessagesGet msg_id "full" [].

(** [for att in attachments: if att.get("attachment_id"): ...], with the
    list [downloaded] it appends to. *)
Fixpoint download_each (env : Env) (msg_id output_dir : string)
         (attachments : list AttachmentDescriptor) (downloaded : list Downloaded)
  : M (list Downloaded) :=
  match attachments with
  | [] => ret downloaded
  | att :: rest =>
      if truthy (att_attachment_id att) then
        (path <- download_attachment env msg_id (default EmptyString (att_attachment_id att))
                                     (att_filename att) output_dir ;;
         download_each env msg_id output_dir rest
           (downloaded ++ [mkDownloaded (att_filename att) path (att_size att)])%list)%py
      else download_each env msg_id output_dir rest downloaded
  end.

(** [for d in downloaded: print(f"  - {d['filename']} ({d['size']} bytes)")] *)
Definition downloaded_line (d : Downloaded) : string :=
  "  - " +:+ downloaded_filename d +:+ " (" +:+ pretty (downloaded_size d) +:+ " bytes)".

(** [args.output or str(Path.home() / "Downloads" / "gmail_attachments")] *)
Definition output_dir_of (home : PurePath) (args : DownloadArgs) : string :=
  if truthy (download_arg_output args) then default EmptyString (download_arg_output args)
  else str (truediv (truediv home "Downloads") "gmail_attachments").

(** [cmd_download].  [home] is what [Path.home()] answers, [mkdir] the
    library's [Path.mkdir(parents=True, exist_ok=True)], and [json_dumps]
    the rendering of the list of downloads. *)
Definition cmd_download (env : Env) (home : PurePath) (mkdir : PurePath -> M unit)
           (json_dumps : list Downloaded -> string) (args : DownloadArgs) : M unit :=
  (_ <- authenticated env ;;
   let output_dir := output_dir_of home args in
   mkdir (Path output_dir) ;;
   except_http
     (msg <- call (full_fetch (download_arg_message_id args))
                  (messages_get env (download_arg_message_id args) "full" []) ;;
      let attachments := extract_attachment_info (payload_or_empty msg) in
      match attachments with
      | [] => print "No attachments found in this message."
      | _ =>
          downloaded <- download_each env (download_arg_message_id args) output_dir
                                      attachments [] ;;
          if download_arg_json args then print (json_dumps downloaded)
          else
            print ("Downloaded " +:+ pretty (N.of_nat (length downloaded))
                     +:+ " attachment(s) to " +:+ output_dir +:+ ":") ;;
            Credential.print_all (downloaded_line <$> downloaded)
      end))%py.

(** *** Reference readings *)

(** The identifiers of the attachments that have one, in the order of the
    descriptors. *)
Definition attachment_ids (attachments : list AttachmentDescriptor) : list string :=
  default EmptyString <$>
    List.filter (fun o => truthy o) (att_attachment_id <$> attachments).

(** Nothing that was in the file system is changed or removed. *)
Definition keeps_entries (w w' : World) : Prop :=
  forall p e, files w !! p = Some e -> files w' !! p = Some e.

(** [mkdir] where the directory is already there: with [exist_ok] it
    does nothing. *)
Definition directory_exists (p : PurePath) : M unit := ret tt.

(** A message with three named parts, the second of which has no
    attachment identifier. *)
Definition three_parts : Message :=
  mkMessage (Some "thread-1")
    (Some (mkPayload None
       (Part (Some "multipart/mixed") None None
          (Some [Part (Some "application/pdf") (Some "report.pdf")
                      (Some (mkBody None (Some 5%Z) (Some "att-1"))) None;
                 Part (Some "text/plain") (Some "notes.txt")
                      (Some (mkBody (Some "aGVsbG8=") (Some 5%Z) None)) None;
                 Part (Some "image/png") (Some "report.pdf")
                      (Some (mkBody None (Some 5%Z) (Some "att-3"))) None])))).

(** An installation that holds a valid handle, with the given files. *)
Definition signed_in_with (fs : gmap string Entry) : World :=
  mkWorld (Some (mkCredentialsDir (Some "modify") (Some (Pickled CredentialSpec.renewed)) true))
          fs [] [] [].

(** A file system with the download directory and a system directory. *)
Definition downloads_and_cron : gmap string Entry :=
  <[ "/etc/cron.d" := Dir ]> DownloadSpec.empty_downloads.

Definition download_m1 : DownloadArgs :=
  mkDownloadArgs "m-1" (Some DownloadSpec.downloads) false.

End DownloadCommand.

(** ** Search: the query, the message details and the report *)

Module Query.
Import Codec Compose Cli.

(** [if v: parts.append(s)] for a text and for a flag. *)
Definition text_part (v s : string) : list string :=
  if truthy (Some v) then [s] else [].

Definition flag_part (b : bool) (s : string) : list string :=
  if b then [s] else [].

(** The list [parts] when [build_query] joins it. *)
Definition query_parts (query from_addr to_addr subject label after before : string)
           (has_attachment is_unread is_starred : bool) : list string :=
  (text_part query query
     ++ text_part from_addr ("from:" +:+ from_addr)
     ++ text_part to_addr ("to:" +:+ to_addr)
     ++ text_part subject ("subject:" +:+ subject)
     ++ text_part label ("label:" +:+ label)
     ++ text_part after ("after:" +:+ after)
     ++ text_part before ("before:" +:+ before)
     ++ flag_part has_attachment "has:attachment"
     ++ flag_part is_unread "is:unread"
     ++ flag_part is_starred "is:starred")%list.

Definition build_query (query from_addr to_addr subject label after before : string)
           (has_attachment is_unread is_starred : bool) : string :=
  PyStr.join " " (query_parts query from_addr to_addr subject label after before
                              has_attachment is_unread is_starred).

(** A message as the service returns it to [get_message_details]: the
    keys of [Message] and the two more the function reads. *)
Record Fetched : Type := mkFetched {
  fetched_message : Message;
  snippet : option string;
  labelIds : option (list string)
}.

(** What the mail service answers to a search and to the fetch of one
    message: [messages().list(q, maxResults)], of which the identifiers
    under ["messages"] are read, and [messages().get(id, format,
    metadataHeaders)], with no header named for the full format. *)
Record Service : Type := mkService {
  list_messages : string -> Z -> res (option (list string));
  get_message : string -> string -> list string -> res Fetched
}.

(** The dictionary [get_message_details] returns; [det_body] and
    [det_attachments] are the keys that are not always there. *)
Record Details : Type := mkDetails {
  det_id : string;
  det_thread_id : option string;
  det_from : string;
  det_to : string;
  det_subject : string;
  det_date : string;
  det_snippet : string;
  det_labels : list string;
  det_body : option string;
  det_attachments : option (list AttachmentDescriptor)
}.

Definition details_metadata_headers : list string := ["From"; "To"; "Subject"; "Date"].

(** [msg.get("payload", {})] *)
Definition payload_part (msg : Message) : MessagePart :=
  match payload msg with
  | Some p => root p
  | None => Part None None None None
  end.

Definition get_message_details (service : Service) (msg_id : string) (full_body : bool)
  : res Details :=
  match (if full_body then get_message service msg_id "full" []
         else get_message service msg_id "metadata" details_metadata_headers) with
  | Raise e => Raise e
  | Ok msg =>
      let headers :=
        headers_dict (default [] (payload (fetched_message msg) ≫= headers)) in
      let result body attachments :=
        mkDetails msg_id (threadId (fetched_message msg))
                  (get headers "From" EmptyString) (get headers "To" EmptyString)
                  (get headers "Subject" "(no subject)") (get headers "Date" EmptyString)
                  (default EmptyString (snippet msg)) (default [] (labelIds msg))
                  body attachments in
      match (if full_body
             then res_map Some (extract_body (payload_part (fetched_message msg)))
             else Ok None) with
      | Raise e => Raise e
      | Ok body =>
          let attachments :=
            match payload (fetched_message msg) with
            | Some p => extract_attachment_info (root p)
            | None => []
            end in
          Ok (result body (match attachments with
                           | [] => None
                           | _ => Some attachments
                           end))
      end
  end.

(** [del details["attachments"]] *)
Definition without_attachments (d : Details) : Details :=
  mkDetails (det_id d) (det_thread_id d) (det_from d) (det_to d) (det_subject d)
            (det_date d) (det_snippet d) (det_labels d) (det_body d) None.

(** [for msg in messages: ...], with the list [detailed] it appends to. *)
Fixpoint details_each (service : Service) (full_body include_attachments : bool)
         (messages : list string) (detailed : list Details) : res (list Details) :=
  match messages with
  | [] => Ok detailed
  | msg_id :: rest =>
      match get_message_details service msg_id full_body with
      | Raise e => Raise e
      | Ok details =>
          let details :=
            if negb include_attachments && bool_decide (is_Some (det_attachments details))
            then without_attachments details else details in
          details_each service full_body include_attachments rest
                       (detailed ++ [details])%list
      end
  end.

Definition search_messages (service : Service) (query : string) (limit : Z)
           (full_body include_attachments : bool) : res (list Details) :=
  match list_messages service query limit with
  | Raise e => Raise e
  | Ok results =>
      details_each service full_body include_attachments (default [] results) []
  end.

(** The lines [format_markdown] appends for one message. *)
Definition message_lines (full_body : bool) (msg : Details) : list string :=
  (["## " +:+ det_subject msg;
    "**From:** " +:+ det_from msg;
    "**To:** " +:+ det_to msg;
    "**Date:** " +:+ det_date msg;
    "**ID:** `" +:+ det_id msg +:+ "`"]
     ++ match det_labels msg with
        | [] => []
        | labels => ["**Labels:** " +:+ PyStr.join ", " labels]
        end
     ++ match det_attachments msg with
        | Some (a :: l) =>
            ["**Attachments:** " +:+ PyStr.join ", " (att_filename <$> a :: l)]
        | _ => []
        end
     ++ [EmptyString]
     ++ (if full_body && truthy (det_body msg)
         then ["### Body"; default EmptyString (det_body msg)]
         else ["> " +:+ det_snippet msg])
     ++ [PyStr.NL +:+ "---" +:+ PyStr.NL])%list.

Definition format_markdown (messages : list Details) (full_body : bool) : string :=
  match messages with
  | [] => "No messages found."
  | _ =>
      PyStr.join PyStr.NL
        (("# Gmail Search Results (" +:+ pretty (N.of_nat (length messages))
            +:+ " messages)" +:+ PyStr.NL)
           :: flat_map (message_lines full_body) messages)
  end.

Record SearchArgs : Type := mkSearchArgs {
  search_query : option string;
  search_from_addr : option string;
  search_to_addr : option string;
  search_subject : option string;
  search_label : option string;
  search_after : option string;
  search_before : option string;
  search_has_attachment : bool;
  search_unread : bool;
  search_starred : bool;
  search_limit : Z;
  search_full : bool;
  search_attachments : bool;
  search_json : bool
}.

(** [x or ""] *)
Definition or_empty (x : option string) : string := default EmptyString x.

(** [cmd_search].  The calls to the search service are answered by
    [service]; they are not among the [requests] the world records. *)
Definition cmd_search (env : Env) (service : Service)
           (json_dumps : list Details -> string) (args : SearchArgs) : M unit :=
  (_ <- authenticated env ;;
   let query :=
     build_query (or_empty (search_query args)) (or_empty (search_from_addr args))
                 (or_empty (search_to_addr args)) (or_empty (search_subject args))
                 (or_empty (search_label args)) (or_empty (search_after args))
                 (or_empty (search_before args))
                 (search_has_attachment args) (search_unread args) (search_starred args) in
   let query := if truthy (Some query) then query else "in:inbox" in
   except_http
     (messages <- lift (search_messages service query (search_limit args)
                                        (search_full args) (search_attachments args)) ;;
      if search_json args then print (json_dumps messages)
      else print (format_markdown messages (search_full args))))%py.

(** *** Reference readings *)

(** The query [cmd_search] searches for. *)
Definition effective_query (args : SearchArgs) : string :=
  let query :=
    build_query (or_empty (search_query args)) (or_empty (search_from_addr args))
                (or_empty (search_to_addr args)) (or_empty (search_subject args))
                (or_empty (search_label args)) (or_empty (search_after args))
                (or_empty (search_before args))
                (search_has_attachment args) (search_unread args) (search_starred args) in
  if truthy (Some query) then query else "in:inbox".

(** No criterion is given: every text is absent or empty and no flag is
    set. *)
Definition no_criterion (args : SearchArgs) : Prop :=
  or_empty (search_query args) = EmptyString
  /\ or_empty (search_from_addr args) = EmptyString
  /\ or_empty (search_to_addr args) = EmptyString
  /\ or_empty (search_subject args) = EmptyString
  /\ or_empty (search_label args) = EmptyString
  /\ or_empty (search_after args) = EmptyString
  /\ or_empty (search_before args) = EmptyString
  /\ search_has_attachment args = false
  /\ search_unread args = false
  /\ search_starred args = false.

(** The fetch [get_message_details] makes. *)
Definition details_fetch (service : Service) (msg_id : string) (full_body : bool)
  : res Fetched :=
  if full_body then get_message service msg_id "full" []
  else get_message service msg_id "metadata" details_metadata_headers.

(** What holds of every dictionary of details: the body key is there
    exactly on request, and the attachments key is never there with an
    empty list. *)
Definition well_shaped (full_body : bool) (d : Details) : Prop :=
  (is_Some (det_body d) <-> full_body = true) /\ det_attachments d <> Some [].

(** *** Sample service *)

(** A service that lists two messages; the first has an attachment. *)
Definition two_messages : Service :=
  mkService
    (fun _ _ => Ok (Some ["m-1"; "m-2"]))
    (fun msg_id _ _ =>
       if String.eqb msg_id "m-1"
       then Ok (mkFetched
                  (mkMessage (Some "thread-1")
                     (Some (mkPayload
                              (Some [("From", "alice@example.org"); ("Subject", "Report")])
                              (Part (Some "multipart/mixed") None None
                                 (Some [Part (Some "text/plain") None
                                             (Some (mkBody (Some "aGVsbG8=") (Some 5%Z) None))
                                             None;
                                        Part (Some "application/pdf") (Some "report.pdf")
                                             (Some (mkBody None (Some 9%Z) (Some "att-1")))
                                             None])))))
                  (Some "hello") (Some ["INBOX"; "UNREAD"]))
       else Ok (mkFetched (mkMessage (Some "thread-2") None) None None)).

Definition search_nothing : SearchArgs :=
  mkSearchArgs None None None None None None None false false false 20 false false false.

End Query.

(** ** The labels command *)

Module Labels.
Import Cli.

(** A label as the service lists it. *)
Record Label : Type := mkLabel {
  label_name : string;
  label_id : string
}.

(** [sorted(labels, key=lambda x: x["name"])]: the stable sort by name,
    strings compared character by character. *)
Fixpoint insert_by_name (x : Label) (l : list Label) : list Label :=
  match l with
  | [] => [x]
  | y :: rest =>
      if String.leb (label_name x) (label_name y) then x :: y :: rest
      else y :: insert_by_name x rest
  end.

Definition sorted_by_name (labels : list Label) : list Label :=
  fold_right insert_by_name [] labels.

Definition label_line (label : Label) : string :=
  "- " +:+ label_name label +:+ " (`" +:+ label_id label +:+ "`)".

(** [cmd_labels].  [labels_list] is what [labels().list(userId="me")]
    answers, of which the list under ["labels"] is read. *)
Definition cmd_labels (env : Env) (labels_list : res (option (list Label)))
           (json_dumps : list Label -> string) (json : bool) : M unit :=
  (_ <- authenticated env ;;
   except_http
     (results <- lift labels_list ;;
      let labels := default [] results in
      if json then print (json_dumps labels)
      else
        print ("# Gmail Labels" +:+ PyStr.NL) ;;
        Credential.print_all (label_line <$> sorted_by_name labels)))%py.

(** *** Reference readings *)

(** The names of a list of labels never decrease. *)
Fixpoint ascending (l : list Label) : bool :=
  match l with
  | a :: rest =>
      match rest with
      | b :: _ => String.leb (label_name a) (label_name b) && ascending rest
      | [] => true
      end
  | [] => true
  end.

(** The labels of a list that bear a name, in their order. *)
Definition named (name : string) (l : list Label) : list Label :=
  List.filter (fun x => String.eqb (label_name x) name) l.

Definition sample_labels : list Label :=
  [mkLabel "Work" "Label_2"; mkLabel "INBOX" "INBOX"; mkLabel "Work" "Label_1";
   mkLabel "archive" "Label_3"].

End Labels.

(** * Properties *)

Module CodecProofs.
Import Codec CodecSpec.

(** Induction on part trees: the property holds of a part when it holds
    of every part of its ["parts"] list. *)
Lemma MessagePart_ind (P : MessagePart -> Prop) :
  (forall p, Forall P (children p) -> P p) ->
  forall p, P p.
Proof.
  intros step. fix IH 1. intros [m f b ps]. apply step.
  unfold children; simpl. destruct ps as [l|]; [|constructor].
  induction l as [|c l IHl]; constructor; [apply IH | exact IHl].
Qed.


(** *** extract_body *)

Lemma extract_body_own p d :
  body_data p = Some d -> extract_body p = b64_text d.
Proof. intros H. destruct p; simpl in *. now rewrite H. Qed.

Lemma extract_body_scan p :
  body_data p = None ->
  extract_body p = first_yield (map child_yield (children p)).
Proof.
  intros H. destruct p as [m f b ps]; simpl in *. rewrite H.
  unfold children; simpl. destruct ps as [l|]; [|reflexivity]. clear H.
  induction l as [|c l IHl]; [reflexivity|].
  simpl. unfold child_yield at 1, plain_payload.
  destruct (if is_text_plain c then body_data c else None) as [d|]; [reflexivity|].
  destruct (parts c); [|exact IHl].
  destruct (extract_body c) as [[|a t]|e]; simpl; [exact IHl|reflexivity|reflexivity].
Qed.

Lemma first_yield_at (l : list (option (res string))) i r :
  l !! i = Some (Some r) ->
  (forall j, (j < i)%nat -> l !! j = Some None) ->
  first_yield l = r.
Proof.
  revert i. induction l as [|o l IHl]; intros i Hi Hlt; [now destruct i|].
  destruct i as [|i]; simpl in *.
  - now inversion Hi.
  - pose proof (Hlt 0%nat ltac:(lia)) as H0. simpl in H0. inversion H0; subst.
    apply (IHl i Hi). intros j Hj. apply (Hlt (S j)). lia.
Qed.

Lemma first_yield_none (l : list (option (res string))) :
  Forall (fun o => o = None) l -> first_yield l = Ok "".
Proof. induction 1 as [|o l Ho _ IH]; [reflexivity|]. subst. exact IH. Qed.

(** *** extract_attachment_info *)

Lemma recurse_unfold p acc :
  recurse p acc =
  fold_left (fun a c => recurse c a) (children p)
            (if has_filename p then acc ++ [descriptor p] else acc)%list.
Proof.
  destruct p as [m f b ps]; unfold children, has_filename; simpl.
  destruct ps as [l|]; [|reflexivity].
  generalize (if truthy f then (acc ++ [descriptor (Part m f b (Some l))])%list else acc).
  induction l as [|c l IHl]; intros a; [reflexivity|]. simpl. apply IHl.
Qed.

Lemma nodes_unfold p : nodes p = p :: flat_map nodes (children p).
Proof.
  destruct p as [m f b ps]; unfold children; simpl. f_equal.
  destruct ps as [l|]; [|reflexivity].
  induction l as [|c l IHl]; [reflexivity|]. simpl. now rewrite IHl.
Qed.

Lemma count_named_unfold p :
  count_named p =
  ((if has_filename p then 1 else 0) + list_sum (map count_named (children p)))%nat.
Proof.
  destruct p as [m f b ps]; unfold children; simpl. f_equal.
  destruct ps as [l|]; [|reflexivity].
  induction l as [|c l IHl]; [reflexivity|]. simpl. now rewrite IHl.
Qed.

Lemma filter_flat_map {A B} (g : B -> bool) (f : A -> list B) (l : list A) :
  List.filter g (flat_map f l) = flat_map (fun a => List.filter g (f a)) l.
Proof.
  induction l as [|a l IHl]; [reflexivity|].
  simpl. now rewrite List.filter_app, IHl.
Qed.

Lemma recurse_spec p : forall acc, recurse p acc = (acc ++ named p)%list.
Proof.
  induction p as [p IH] using MessagePart_ind. intros acc.
  rewrite recurse_unfold. unfold named. rewrite nodes_unfold. simpl.
  set (acc' := (if has_filename p then acc ++ [descriptor p] else acc)%list).
  assert (Hfold : forall l a, Forall (fun c => forall acc, recurse c acc = (acc ++ named c)%list) l ->
            fold_left (fun a c => recurse c a) l a =
            (a ++ map descriptor (List.filter has_filename (flat_map nodes l)))%list).
  { clear. induction l as [|c l IHl]; intros a Hl; simpl.
    - now rewrite app_nil_r.
    - inversion Hl as [|? ? Hc Hl']; subst.
      rewrite IHl by assumption. rewrite Hc. unfold named.
      rewrite List.filter_app, map_app. now rewrite <- app_assoc. }
  rewrite Hfold by exact IH. subst acc'.
  destruct (has_filename p); simpl; [|reflexivity].
  now rewrite <- app_assoc.
Qed.

Lemma length_named p : length (named p) = count_named p.
Proof.
  induction p as [p IH] using MessagePart_ind.
  unfold named. rewrite nodes_unfold, count_named_unfold. simpl.
  assert (Hl : length (map descriptor (List.filter has_filename (flat_map nodes (children p))))
               = list_sum (map count_named (children p))).
  { induction IH as [|c l Hc _ IHl]; [reflexivity|].
    simpl. rewrite List.filter_app, map_app, length_app, IHl.
    unfold named in Hc. now rewrite Hc. }
  destruct (has_filename p); simpl; now rewrite Hl.
Qed.


Lemma child_yield_passed c : passed_over c -> child_yield c = None.
Proof.
  intros [Hp Hr]. unfold child_yield. rewrite Hp.
  destruct (parts c); [|reflexivity].
  destruct Hr as [Hr|Hr]; [discriminate | now rewrite Hr].
Qed.

(** C1, as amended.  On a tree whose root carries no inline payload,
    [extract_body] makes ONE pass over the direct children in their
    order.  At each child it returns the decoded payload when the child
    is plain text with a payload; otherwise, when the child has a parts
    list, it returns the child's recursive result if that is not the
    empty string; otherwise it moves to the next child.  When every
    child is passed over (or there is none) the result is the empty
    string. *)
Theorem extract_body_single_pass p :
  body_data p = None ->
  (forall i c d,
      children p !! i = Some c ->
      (forall j c', (j < i)%nat -> children p !! j = Some c' -> passed_over c') ->
      plain_payload c = Some d ->
      extract_body p = b64_text d)
  /\ (forall i c,
      children p !! i = Some c ->
      (forall j c', (j < i)%nat -> children p !! j = Some c' -> passed_over c') ->
      plain_payload c = None -> parts c <> None -> extract_body c <> Ok "" ->
      extract_body p = extract_body c)
  /\ ((forall c, c ∈ children p -> passed_over c) -> extract_body p = Ok "").
Proof.
  intros Hown. rewrite (extract_body_scan p Hown).
  assert (Hbefore : forall i,
             (forall j c', (j < i)%nat -> children p !! j = Some c' -> passed_over c') ->
             (i < length (children p))%nat ->
             forall j, (j < i)%nat -> map child_yield (children p) !! j = Some None).
  { intros i Hlt Hi j Hj. rewrite list_lookup_fmap.
    destruct (children p !! j) as [c'|] eqn:Hc'.
    - simpl. f_equal. apply child_yield_passed. now apply (Hlt j).
    - apply lookup_ge_None in Hc'. lia. }
  split; [|split].
  - intros i c d Hi Hlt Hd.
    apply (first_yield_at _ i).
    + rewrite list_lookup_fmap, Hi. simpl. unfold child_yield. now rewrite Hd.
    + apply Hbefore; [exact Hlt|]. now apply lookup_lt_Some in Hi.
  - intros i c Hi Hlt Hd Hps Hne.
    apply (first_yield_at _ i).
    + rewrite list_lookup_fmap, Hi. simpl. unfold child_yield. rewrite Hd.
      destruct (parts c); [|congruence].
      destruct (extract_body c) as [[|a t]|e]; congruence.
    + apply Hbefore; [exact Hlt|]. now apply lookup_lt_Some in Hi.
  - intros Hall. apply first_yield_none.
    apply Forall_forall. intros o Ho. apply list_elem_of_fmap in Ho.
    destruct Ho as (c & -> & Hc). apply child_yield_passed. now apply Hall.
Qed.

Lemma extract_body_single_pass_witness :
  body_data nested_before_direct = None /\
  extract_body nested_before_direct = Ok "nested".
Proof.
  split; [reflexivity|].
  destruct (extract_body_single_pass nested_before_direct eq_refl) as (_ & Hrec & _).
  rewrite (Hrec 0%nat (container "multipart/alternative" [leaf "text/plain" "bmVzdGVk"])).
  - reflexivity.
  - reflexivity.
  - intros j c' Hj. inversion Hj.
  - reflexivity.
  - discriminate.
  - discriminate.
Defined.

(** C1 as the specification words it fails: a plain-text direct child
    that comes after a container is not preferred to what the container
    holds, and a child without a parts list is never recursed into. *)
Lemma extract_body_not_two_pass :
  (body_data nested_before_direct = None /\
   extract_body_spec nested_before_direct = Ok "direct" /\
   extract_body nested_before_direct = Ok "nested")
  /\ (body_data html_only_child = None /\
      extract_body_spec html_only_child = Ok "<b>hi</b>" /\
      extract_body html_only_child = Ok "")
  /\ ~ (forall p, body_data p = None -> extract_body p = extract_body_spec p).
Proof.
  split; [|split].
  - repeat split; vm_compute; reflexivity.
  - repeat split; vm_compute; reflexivity.
  - intros H. specialize (H nested_before_direct eq_refl).
    vm_compute in H. discriminate H.
Qed.


(** C5.  When the root node carries an inline body payload,
    [extract_body] returns that payload decoded, whatever the children
    are: in particular when a child holds a plain-text payload of its
    own. *)
Theorem extract_body_own_payload_first p d :
  body_data p = Some d -> extract_body p = b64_text d.
Proof.
  intros Hown. destruct p as [mime fname b ps].
  cbn [extract_body]. now rewrite Hown.
Qed.

Lemma extract_body_own_payload_first_witness :
  body_data own_and_child = Some "ZGlyZWN0" /\
  (exists c d', c ∈ children own_and_child /\ plain_payload c = Some d' /\
                b64_text d' = Ok "nested") /\
  extract_body own_and_child = Ok "direct".
Proof.
  split; [reflexivity|]. split.
  - exists (leaf "text/plain" "bmVzdGVk"), "bmVzdGVk".
    split; [apply list_elem_of_here|]. split; reflexivity.
  - rewrite (extract_body_own_payload_first own_and_child "ZGlyZWN0" eq_refl).
    reflexivity.
Defined.

(** C10.  The root's own payload is returned for every mime-type of the
    root (and every filename and list of children): a message whose only
    part is text/html yields the decoded HTML text. *)
Theorem extract_body_any_mime_type :
  (forall mime fname ps sz att (a : ascii) (t : string),
      extract_body (Part mime fname (Some (mkBody (Some (String a t)) sz att)) ps)
      = b64_text (String a t))
  /\ (forall mime d, body_data (leaf mime d) = Some d ->
                    extract_body (leaf mime d) = b64_text d)
  /\ extract_body (leaf "text/html" "PGI-aGk8L2I-") = Ok "<b>hi</b>".
Proof.
  split; [|split; [|reflexivity]].
  - intros mime fname ps sz att a t. reflexivity.
  - intros mime d Hd. apply (extract_body_own _ _ Hd).
Qed.

(** C4.  [extract_attachment_info] returns the descriptors of exactly
    the nodes that carry a non-empty filename, in depth-first pre-order;
    there are as many as the tree has such nodes; and a node is recorded
    (when named) and then traversed into, whether or not it is named. *)
Theorem extract_attachment_info_preorder p :
  extract_attachment_info p = map descriptor (List.filter has_filename (nodes p))
  /\ length (extract_attachment_info p) = count_named p
  /\ extract_attachment_info p =
     ((if has_filename p then [descriptor p] else [])
        ++ flat_map extract_attachment_info (children p))%list.
Proof.
  assert (He : forall q, extract_attachment_info q = named q).
  { intros q. unfold extract_attachment_info. now rewrite recurse_spec. }
  split; [apply He|]. split.
  - rewrite He. apply length_named.
  - rewrite He. unfold named at 1. rewrite nodes_unfold. simpl.
    assert (Hk : map descriptor (List.filter has_filename (flat_map nodes (children p)))
                 = flat_map extract_attachment_info (children p)).
    { induction (children p) as [|c l IHl]; [reflexivity|].
      simpl. rewrite List.filter_app, map_app, IHl, He. reflexivity. }
    rewrite <- Hk. now destruct (has_filename p).
Qed.

Example extract_attachment_info_nested :
  map att_filename (extract_attachment_info nested_attachments)
  = ["fwd.eml"; "a.pdf"; "b.png"; "c.txt"]
  /\ count_named nested_attachments = 4%nat.
Proof. split; reflexivity. Qed.

End CodecProofs.


Module ReplyProofs.
Import Compose ReplySpec.

Lemma fold_insert_lookup (l : list (string * string)) (m : gmap string string) k :
  fold_left (fun m h => <[h.1 := h.2]> m) l m !! k
  = match last_header l k with
    | Some v => Some v
    | None => m !! k
    end.
Proof.
  revert m. induction l as [|[k' v] l IHl]; intros m; [reflexivity|].
  simpl. rewrite IHl. destruct (last_header l k); [reflexivity|].
  destruct (String.eqb_spec k' k) as [->|Hne].
  - apply lookup_insert_eq.
  - now apply lookup_insert_ne.
Qed.

Lemma headers_dict_lookup l k : headers_dict l !! k = last_header l k.
Proof.
  unfold headers_dict. rewrite fold_insert_lookup, lookup_empty.
  now destruct (last_header l k).
Qed.

Lemma get_header l k dflt :
  get (headers_dict l) k dflt = default dflt (last_header l k).
Proof. unfold get. now rewrite headers_dict_lookup. Qed.

Lemma startswith_lower_re s :
  PyStr.startswith (PyStr.lower s) "re:" = begins_with_re s.
Proof.
  unfold begins_with_re.
  destruct s as [|a [|b [|c s]]];
    cbn [PyStr.lower PyStr.startswith];
    rewrite ?andb_false_r; try reflexivity.
  assert (Hr : Ascii.eqb "r" (PyStr.lower_char a) = (Ascii.eqb a "r" || Ascii.eqb a "R")).
  { clear. destruct a as [[] [] [] [] [] [] [] []]; reflexivity. }
  assert (He : Ascii.eqb "e" (PyStr.lower_char b) = (Ascii.eqb b "e" || Ascii.eqb b "E")).
  { clear. destruct b as [[] [] [] [] [] [] [] []]; reflexivity. }
  assert (Hc : Ascii.eqb ":" (PyStr.lower_char c) = Ascii.eqb c ":").
  { clear. destruct c as [[] [] [] [] [] [] [] []]; reflexivity. }
  assert (Hnil : PyStr.startswith (PyStr.lower s) EmptyString = true)
    by (destruct s; reflexivity).
  rewrite Hr, He, Hc, Hnil.
  destruct (Ascii.eqb a "r" || Ascii.eqb a "R"), (Ascii.eqb b "e" || Ascii.eqb b "E"),
    (Ascii.eqb c ":"); reflexivity.
Qed.

Lemma reply_subject_eq msg :
  reply_subject (reply_context msg)
  = if begins_with_re (original_subject msg)
    then original_subject msg
    else "Re: " +:+ original_subject msg.
Proof.
  unfold reply_context, original_subject, message_headers; cbn [reply_subject].
  rewrite get_header, startswith_lower_re.
  now destruct (begins_with_re _).
Qed.

(** C6.  The references chain of a reply is the prior References value, a
    space and the original Message-ID when both headers exist; the
    Message-ID alone when only it exists; and the empty string when the
    Message-ID does not exist, so in particular when neither does.  A
    header exists when the message carries it with a non-empty value. *)
Theorem references_chain :
  (forall msg,
      reply_references (reply_context msg)
      = match existing msg "References", existing msg "Message-ID" with
        | Some prior, Some message_id => prior +:+ " " +:+ message_id
        | None, Some message_id => message_id
        | _, None => EmptyString
        end)
  /\ reply_references
       (reply_context (message_with [("References", "<a> <b>"); ("Message-ID", "<c>")]))
     = "<a> <b> <c>"
  /\ reply_references (reply_context (message_with [("Message-ID", "<c>")])) = "<c>"
  /\ reply_references (reply_context (message_with [("From", "a@b.org")])) = EmptyString.
Proof.
  split; [|repeat split; vm_compute; reflexivity].
  intros msg. unfold reply_context, existing, message_headers; cbn [reply_references].
  rewrite !get_header.
  destruct (last_header _ "References") as [[|a r]|];
    destruct (last_header _ "Message-ID") as [[|b m]|];
    reflexivity.
Qed.

(** C7.  The subject of a reply is the original subject unchanged when
    that begins with "Re:" in any letter case, and the original subject
    after "Re: " otherwise.  So the result always begins with "Re:", and a
    reply to a message whose subject is already a reply subject keeps it:
    the prefix is applied at most once. *)
Theorem reply_subject_prefixed_once :
  (forall s,
      reply_subject (reply_context (message_with [("Subject", s)]))
      = if begins_with_re s then s else "Re: " +:+ s)
  /\ (forall msg,
      reply_subject (reply_context msg)
      = if begins_with_re (original_subject msg)
        then original_subject msg
        else "Re: " +:+ original_subject msg)
  /\ (forall msg, begins_with_re (reply_subject (reply_context msg)) = true)
  /\ (forall msg msg',
      original_subject msg' = reply_subject (reply_context msg) ->
      reply_subject (reply_context msg') = reply_subject (reply_context msg))
  /\ reply_subject (reply_context (message_with [("Subject", "Re: existing")]))
     = "Re: existing"
  /\ reply_subject (reply_context (message_with [("Subject", "RE: Existing")]))
     = "RE: Existing"
  /\ reply_subject (reply_context (message_with [("Subject", "Quarterly Report")]))
     = "Re: Quarterly Report".
Proof.
  assert (Hre : forall msg, begins_with_re (reply_subject (reply_context msg)) = true).
  { intros msg. rewrite reply_subject_eq.
    destruct (begins_with_re (original_subject msg)) eqn:E; [exact E | reflexivity]. }
  split; [|split; [|split; [|split]]].
  - intros s. rewrite reply_subject_eq.
    replace (original_subject (message_with [("Subject", s)])) with s; [reflexivity|].
    reflexivity.
  - apply reply_subject_eq.
  - exact Hre.
  - intros msg msg' Hs. rewrite (reply_subject_eq msg'), Hs. now rewrite Hre.
  - repeat split; vm_compute; reflexivity.
Qed.

End ReplyProofs.


(** ** What a computation leaves of the world *)

Section Frame.

(** [R w w'] relates a world to a later one; [ok_event] are the exchanges
    with the authorization server that [R] admits. *)
Variable R : World -> World -> Prop.
Variable ok_event : AuthEvent -> Prop.
Hypothesis R_refl : forall w, R w w.
Hypothesis R_trans : forall w1 w2 w3, R w1 w2 -> R w2 w3 -> R w1 w3.
Hypothesis R_print : forall f w, R w (set_stdout f w).
Hypothesis R_dir : forall d w, R w (set_credentials_dir d w).
Hypothesis R_event : forall e w, ok_event e -> R w (set_auth_events (fun l => l ++ [e])%list w).

Abbreviation steps := (steps_in R).

Lemma steps_ret {A} (a : A) : steps (ret a).
Proof. intros w. apply R_refl. Qed.

Lemma steps_raise {A} e : steps (@raise A e).
Proof. intros w. apply R_refl. Qed.

Lemma steps_lift {A} (r : res A) : steps (lift r).
Proof. intros w. apply R_refl. Qed.

Lemma steps_gets {A} (f : World -> A) : steps (gets f).
Proof. intros w. apply R_refl. Qed.

Lemma steps_bind {A B} (m : M A) (k : A -> M B) :
  steps m -> (forall a, steps (k a)) -> steps (bind m k).
Proof.
  intros Hm Hk w. unfold bind. specialize (Hm w).
  destruct (m w) as [[a|e] w']; simpl in *; [|exact Hm].
  eapply R_trans; [exact Hm | apply Hk].
Qed.

Lemma steps_try_except {A} (m : M A) handles (h : exn -> M A) :
  steps m -> (forall e, steps (h e)) -> steps (try_except m handles h).
Proof.
  intros Hm Hh w. unfold try_except. specialize (Hm w).
  destruct (m w) as [[a|e] w']; simpl in *; [exact Hm|].
  destruct (handles e); [|exact Hm].
  eapply R_trans; [exact Hm | apply Hh].
Qed.

Lemma steps_print s : steps (print s).
Proof. intros w. apply R_print. Qed.

Lemma steps_exchange {A} e (r : res A) : ok_event e -> steps (exchange e r).
Proof.
  intros He. unfold exchange. apply steps_bind; [|intros _; apply steps_lift].
  intros w. now apply R_event.
Qed.

Lemma steps_write_in_dir path f : steps (Credential.write_in_dir path f).
Proof.
  intros w. unfold Credential.write_in_dir.
  destruct (credentials_dir w); simpl; [apply R_dir | apply R_refl].
Qed.

Lemma steps_mkdir : steps Credential.mkdir_credentials_dir.
Proof.
  intros w. unfold Credential.mkdir_credentials_dir, modify; simpl.
  destruct (credentials_dir w); [apply R_refl | apply R_dir].
Qed.

Lemma steps_print_all l : steps (Credential.print_all l).
Proof.
  induction l as [|s l IHl]; [apply steps_ret|].
  simpl. apply steps_bind; [apply steps_print | intros _; exact IHl].
Qed.

Lemma steps_fail {A} msg : steps (@Cli.fail A msg).
Proof.
  unfold Cli.fail, sys_exit. apply steps_bind; [apply steps_print|].
  intros _. apply steps_raise.
Qed.

Ltac frame :=
  repeat first
    [ apply steps_ret | apply steps_raise | apply steps_lift | apply steps_gets
    | apply steps_print | apply steps_print_all | apply steps_write_in_dir
    | apply steps_mkdir | apply steps_fail
    | apply steps_exchange; solve [auto]
    | apply steps_bind; [|intros ?]
    | apply steps_try_except; [|intros ?]
    | progress cbv zeta
    | match goal with
      | |- steps (match ?x with _ => _ end) => destruct x
      end ].

Lemma steps_persist c : steps (Credential.persist c).
Proof. unfold Credential.persist. frame. Qed.

Lemma steps_manual_flow env scopes :
  (forall u, ok_event (ManualFlow scopes u)) ->
  steps (Credential.manual_flow env scopes).
Proof. intros Hm. unfold Credential.manual_flow, Credential.input. frame. Qed.

Lemma steps_authorize env manual scopes :
  ok_event (LocalServerFlow scopes) ->
  (forall u, ok_event (ManualFlow scopes u)) ->
  steps (Credential.authorize env manual scopes).
Proof.
  intros Hl Hm. unfold Credential.authorize.
  apply steps_bind; [apply steps_gets|]. intros configured.
  destruct (negb configured); [apply steps_ret|].
  apply steps_bind.
  - destruct manual; [now apply steps_manual_flow|]. frame.
  - intros [c|]; [apply steps_persist | apply steps_ret].
Qed.

Lemma steps_get_credentials env manual :
  (forall e, ok_event e) -> steps (Credential.get_credentials env manual).
Proof.
  intros Hall. unfold Credential.get_credentials, Credential.get_current_scope.
  frame.
Qed.

End Frame.


Module CredentialProofs.
Import Credential CredentialSpec.

Lemma get_current_scope_eq w : get_current_scope w = (Ok (current_scope w), w).
Proof.
  unfold get_current_scope, current_scope, bind, gets, ret.
  now destruct (scope_text w).
Qed.

Lemma valid_scope_cases s l :
  SCOPES_MAP !! s = Some l -> s = "readonly" \/ s = "modify" \/ s = "full".
Proof.
  unfold SCOPES_MAP. intros H.
  destruct (decide (s = "readonly")) as [|N1]; [now left|].
  destruct (decide (s = "modify")) as [|N2]; [now right; left|].
  destruct (decide (s = "full")) as [|N3]; [now right; right|].
  rewrite !lookup_insert_ne, lookup_empty in H by congruence. discriminate.
Qed.

Lemma strip_valid_scope s l : SCOPES_MAP !! s = Some l -> PyStr.strip s = s.
Proof.
  intros H. destruct (valid_scope_cases s l H) as [-> | [-> | ->]]; reflexivity.
Qed.

(** The first steps of [get_credentials] on a world whose scope resolves:
    what remains is the decision on the loaded credentials. *)
Lemma get_credentials_loaded env manual w scopes :
  SCOPES_MAP !! current_scope w = Some scopes ->
  get_credentials env manual w
  = match token_content w with
    | Some (Pickled c) =>
        if valid c then (Ok (Some c), w)
        else if expired c && truthy (refresh_token c)
             then bind (exchange (TokenRefresh c) (refresh env c)) persist w
             else authorize env manual scopes w
    | Some Unreadable => (Raise UnpicklingError, w)
    | None => authorize env manual scopes w
    end.
Proof.
  intros Hs. unfold get_credentials.
  unfold bind at 1. rewrite get_current_scope_eq.
  unfold bind at 1. rewrite Hs. unfold ret at 1.
  unfold bind at 1, gets at 1.
  destruct (token_content w) as [[c|]|]; try reflexivity.
  unfold bind at 1, ret at 1.
  destruct (valid c); [reflexivity|].
  now destruct (expired c && truthy (refresh_token c)).
Qed.

Lemma persist_eq c d w :
  credentials_dir w = Some d ->
  persist c w = (Ok (Some c), after_persist c d w).
Proof.
  intros Hd. unfold persist, bind, mkdir_credentials_dir, modify, write_in_dir, ret.
  rewrite Hd. simpl. rewrite Hd. reflexivity.
Qed.

(** C2, as amended.  When the persisted handle is expired and holds a
    refresh credential (and the persisted scope is one of the enumerated
    values, or absent), [get_credentials] performs exactly one refresh
    exchange.  When the exchange succeeds, the refreshed handle is
    persisted and returned.  When it fails, the failure is raised to the
    caller: no authorization flow is started and the files are as they
    were. *)
Theorem refresh_persists_or_raises env manual w d c scopes :
  credentials_dir w = Some d ->
  token_file d = Some (Pickled c) ->
  expired c = true ->
  truthy (refresh_token c) = true ->
  SCOPES_MAP !! current_scope w = Some scopes ->
  (forall c', refresh env c = Ok c' ->
     get_credentials env manual w
     = (Ok (Some c'), after_persist c' d (after_exchange (TokenRefresh c) w)))
  /\ (forall e, refresh env c = Raise e ->
     get_credentials env manual w
     = (Raise e, after_exchange (TokenRefresh c) w)).
Proof.
  intros Hd Ht He Hr Hs.
  rewrite (get_credentials_loaded env manual w scopes Hs).
  unfold token_content. rewrite Hd. simpl. rewrite Ht.
  unfold valid. rewrite He, Hr, andb_false_r. simpl.
  split.
  - intros c' Hc'. unfold bind, exchange, bind, modify, lift. simpl. rewrite Hc'.
    now apply persist_eq.
  - intros e Hc'. unfold bind, exchange, bind, modify, lift. simpl. now rewrite Hc'.
Qed.

Lemma refresh_persists_or_raises_witness :
  get_credentials (collaborators (Ok renewed) (Ok granted) empty_message) false
                  (world_of (Some (stale_dir true)))
  = (Ok (Some renewed),
     mkWorld (Some (mkCredentialsDir (Some "readonly") (Some (Pickled renewed)) true))
             ∅ [] [] [TokenRefresh stale]).
Proof.
  exact (proj1 (refresh_persists_or_raises
                  (collaborators (Ok renewed) (Ok granted) empty_message) false
                  (world_of (Some (stale_dir true))) (stale_dir true) stale
                  ["https://www.googleapis.com/auth/gmail.readonly"]
                  eq_refl eq_refl eq_refl eq_refl eq_refl)
               renewed eq_refl).
Defined.

(** C2 as the specification words it fails: with the client secrets in
    place and an authorization server that would grant a new handle, a
    failed refresh is not followed by any flow; the failure reaches the
    caller and the stale handle stays persisted. *)
Lemma refresh_failure_propagates :
  let env := collaborators (Raise (RefreshError "invalid_grant")) (Ok granted) empty_message in
  let w := world_of (Some (stale_dir true)) in
  expired stale = true /\ truthy (refresh_token stale) = true
  /\ client_secrets_exists w = true
  /\ run_local_server env ["https://www.googleapis.com/auth/gmail.readonly"] = Ok granted
  /\ get_credentials env false w
     = (Raise (RefreshError "invalid_grant"),
        mkWorld (Some (stale_dir true)) ∅ [] [] [TokenRefresh stale])
  /\ get_credentials env true w
     = (Raise (RefreshError "invalid_grant"),
        mkWorld (Some (stale_dir true)) ∅ [] [] [TokenRefresh stale]).
Proof. repeat split. Qed.

Lemma authorize_no_refresh env manual scopes w :
  no_new_refresh w (authorize env manual scopes w).2.
Proof.
  revert w. apply (steps_authorize no_new_refresh is_flow).
  - intros w c H. exact H.
  - intros w1 w2 w3 H12 H23 c H. apply H12, H23, H.
  - intros f w c H. exact H.
  - intros d w c H. exact H.
  - intros e w He c H. simpl in H. apply elem_of_app in H as [H|H]; [exact H|].
    apply list_elem_of_singleton in H. subst e. destruct He.
  - exact I.
  - intros u. exact I.
Qed.

Lemma set_scope_valid s scopes w d :
  SCOPES_MAP !! s = Some scopes ->
  credentials_dir w = Some d ->
  set_scope s w
  = (Ok tt, set_credentials_dir
              (Some (mkCredentialsDir (Some s) None (client_secrets_file d))) w).
Proof.
  intros Hs Hd. unfold set_scope. rewrite Hs.
  unfold bind, write_in_dir, gets, token_content, ret. rewrite Hd. simpl.
  destruct d as [sc [t|] cs]; reflexivity.
Qed.

(** C3, as amended.  A scope value that is not one of the enumerated ones
    makes [set_scope] raise ValueError and leaves the world as it was.  A
    valid scope, when the credentials directory exists, is persisted and
    the persisted token is deleted; the next [get_credentials] then is the
    authorization branch with the permission set of the new scope: it adds
    no refresh exchange, returns no handle (and exchanges nothing) when the
    client secrets are missing, and otherwise runs the flow, whose outcome
    it persists and returns or raises. *)
Theorem set_scope_forces_authorization :
  (forall s w,
      SCOPES_MAP !! s = None ->
      set_scope s w = (Raise (ValueError (invalid_scope_message s)), w))
  /\ (forall s scopes w d env manual,
      SCOPES_MAP !! s = Some scopes ->
      credentials_dir w = Some d ->
      let d' := mkCredentialsDir (Some s) None (client_secrets_file d) in
      let w' := set_credentials_dir (Some d') w in
      set_scope s w = (Ok tt, w')
      /\ get_credentials env manual w' = authorize env manual scopes w'
      /\ no_new_refresh w (get_credentials env manual w').2
      /\ (client_secrets_file d = false ->
          get_credentials env manual w' = (Ok None, w'))
      /\ (client_secrets_file d = true ->
          get_credentials env false w'
          = match run_local_server env scopes with
            | Ok c => (Ok (Some c),
                       after_persist c d' (after_exchange (LocalServerFlow scopes) w'))
            | Raise e => (Raise e, after_exchange (LocalServerFlow scopes) w')
            end)).
Proof.
  split.
  - intros s w Hs. unfold set_scope. now rewrite Hs.
  - intros s scopes w d env manual Hs Hd d' w'.
    assert (Hacq : forall m, get_credentials env m w' = authorize env m scopes w').
    { intros m. rewrite (get_credentials_loaded env m w' scopes).
      - reflexivity.
      - unfold current_scope, scope_text. simpl.
        now rewrite (strip_valid_scope s scopes Hs). }
    split; [now apply (set_scope_valid s scopes)|]. split; [apply Hacq|]. split; [|split].
    + rewrite Hacq. apply (authorize_no_refresh env manual scopes w').
    + intros Hc. rewrite Hacq. unfold authorize, bind, gets, client_secrets_exists.
      simpl. now rewrite Hc.
    + intros Hc. rewrite Hacq. unfold authorize, bind, gets, client_secrets_exists.
      simpl. rewrite Hc. simpl. unfold exchange, bind, modify, lift. simpl.
      destruct (run_local_server env scopes) as [c|e]; [|reflexivity].
      simpl. now rewrite (persist_eq c d').
Qed.

Example set_scope_then_acquire_configured :
  let env := collaborators (Ok renewed) (Ok granted) empty_message in
  let w := world_of (Some (stale_dir true)) in
  let w' := world_of (Some (mkCredentialsDir (Some "full") None true)) in
  set_scope "full" w = (Ok tt, w')
  /\ get_credentials env false w'
     = (Ok (Some granted),
        mkWorld (Some (mkCredentialsDir (Some "full") (Some (Pickled granted)) true))
                ∅ [] [] [LocalServerFlow ["https://mail.google.com/"]])
  /\ set_scope "admin" w
     = (Raise (ValueError
          "Invalid scope: admin. Choose from: ['readonly', 'modify', 'full']"), w).
Proof. repeat split. Qed.

(** Where the credentials directory was never made, [set_scope] cannot
    write the scope file. *)
Example set_scope_without_directory :
  set_scope "full" (world_of None)
  = (Raise (FileNotFoundError "~/.gmail_credentials/scope.txt"), world_of None).
Proof. reflexivity. Qed.

(** C3 as the specification words it fails: without the client secrets,
    the acquire that follows a scope change runs no authorization flow at
    all; it returns no handle. *)
Lemma set_scope_then_acquire_unconfigured :
  let env := collaborators (Ok renewed) (Ok granted) empty_message in
  let w := world_of (Some (stale_dir false)) in
  let w' := world_of (Some (mkCredentialsDir (Some "full") None false)) in
  set_scope "full" w = (Ok tt, w')
  /\ get_credentials env false w' = (Ok None, w')
  /\ get_credentials env true w' = (Ok None, w')
  /\ auth_events w' = [].
Proof. repeat split. Qed.

End CredentialProofs.


Module CliProofs.
Import Compose Cli Credential CredentialSpec CliSpec.

Lemma same_requests_get_credentials env manual w :
  same_requests w (get_credentials env manual w).2.
Proof.
  revert w. apply (steps_get_credentials same_requests (fun _ => True)).
  - intros w. reflexivity.
  - intros w1 w2 w3 H12 H23. unfold same_requests in *. congruence.
  - intros f w. reflexivity.
  - intros d w. reflexivity.
  - intros e w _. reflexivity.
  - intros e. exact I.
Qed.

Lemma same_requests_authenticated env w :
  same_requests w (authenticated env w).2.
Proof.
  unfold authenticated, bind.
  pose proof (same_requests_get_credentials env false w) as H.
  destruct (get_credentials env false w) as [[[c|]|e] w1]; simpl in *; exact H.
Qed.

Lemma require_eq ok msg w :
  require ok msg w
  = if ok then (Ok tt, w)
    else (Raise (SystemExit 1), set_stdout (fun out => out ++ [msg])%list w).
Proof. now destruct ok. Qed.

Ltac settle :=
  repeat split;
  try first
    [ reflexivity
    | discriminate
    | intros _; exact I
    | intros _; reflexivity
    | unfold same_requests in *; simpl in *; congruence ].

Lemma check_each_outcome label emails w :
  same_requests w (check_each label emails w).2
  /\ ((check_each label emails w).1 = Ok tt -> forallb validate_email emails = true)
  /\ (forallb validate_email emails = false -> raises (check_each label emails w).1).
Proof.
  revert w. induction emails as [|x l IHl]; intros w; simpl.
  - settle.
  - unfold bind. rewrite require_eq.
    destruct (validate_email x); simpl; [apply IHl | settle].
Qed.

Lemma check_list_outcome label field w :
  same_requests w (check_list label field w).2
  /\ ((check_list label field w).1 = Ok tt -> forallb validate_email (listed field) = true)
  /\ (forallb validate_email (listed field) = false -> raises (check_list label field w).1).
Proof.
  unfold check_list, listed. destruct (truthy field).
  - apply check_each_outcome.
  - settle.
Qed.

Lemma validate_fields_outcome args w :
  same_requests w (validate_fields args w).2
  /\ (recipients_ok args = false -> raises (validate_fields args w).1)
  /\ (validate_email (arg_to args) = false ->
      validate_fields args w
      = (Raise (SystemExit 1), set_stdout (fun out => out ++ [to_error args])%list w)).
Proof.
  unfold validate_fields, recipients_ok, to_error, bind.
  rewrite require_eq. destruct (truthy (Some (arg_to args))) eqn:Hto; simpl;
    [|settle].
  rewrite require_eq. destruct (validate_email (arg_to args)) eqn:Hv; simpl;
    [|settle].
  destruct (check_list_outcome "CC" (arg_cc args) w) as (Hr1 & Hok1 & Hbad1).
  destruct (check_list "CC" (arg_cc args) w) as [[[]|e1] w1]; simpl in *;
    [|settle].
  rewrite (Hok1 eq_refl). simpl.
  destruct (check_list_outcome "BCC" (arg_bcc args) w1) as (Hr2 & Hok2 & Hbad2).
  destruct (check_list "BCC" (arg_bcc args) w1) as [[[]|e2] w2]; simpl in *;
    [|settle].
  rewrite (Hok2 eq_refl). simpl.
  rewrite require_eq. destruct (truthy (Some (arg_subject args))); simpl;
    [|settle].
  rewrite require_eq. destruct (truthy (Some (arg_body args))); simpl; settle.
Qed.

(** A command that asks for the credentials and validates the fields
    before anything else. *)
Lemma guarded_command {A} env args (rest : M A) w :
  let cmd := bind (authenticated env) (fun _ => bind (validate_fields args) (fun _ => rest)) in
  (recipients_ok args = false ->
   same_requests w (cmd w).2 /\ raises (cmd w).1)
  /\ (validate_email (arg_to args) = false ->
      forall c w1, get_credentials env false w = (Ok (Some c), w1) ->
      cmd w = (Raise (SystemExit 1),
               set_stdout (fun out => out ++ [to_error args])%list w1)).
Proof.
  assert (Hrun : forall X Y (m : M X) (k : X -> M Y) w0,
             bind m k w0 = match m w0 with
                           | (Ok a, w') => k a w'
                           | (Raise e, w') => (Raise e, w')
                           end) by reflexivity.
  intros cmd. subst cmd. rewrite Hrun. split.
  - intros Hbad.
    pose proof (same_requests_authenticated env w) as Ha.
    destruct (authenticated env w) as [[c|e] w1]; simpl in Ha;
      [|split; [exact Ha|exact I]].
    rewrite Hrun.
    destruct (validate_fields_outcome args w1) as (Hr & Hraise & _).
    specialize (Hraise Hbad).
    destruct (validate_fields args w1) as [[[]|e] w2]; simpl in *; [destruct Hraise|].
    split; [unfold same_requests in *; congruence | exact I].
  - intros Hto c w1 Hc. unfold authenticated. rewrite Hrun, Hc. unfold ret.
    rewrite Hrun.
    destruct (validate_fields_outcome args w1) as (_ & _ & Heq).
    now rewrite (Heq Hto).
Qed.

(** C8, as amended.  When a recipient address given to [send] or [draft]
    is malformed (the To address, or an entry of the Cc or Bcc list), the
    command ends by raising and makes no call to the remote mail service.
    When the credentials are at hand and the To address is the malformed
    one, it exits with status 1 after reporting that address. *)
Theorem malformed_recipient_no_call env args w :
  recipients_ok args = false ->
  (same_requests w (cmd_send env args w).2 /\ raises (cmd_send env args w).1)
  /\ (same_requests w (cmd_draft env args w).2 /\ raises (cmd_draft env args w).1)
  /\ (validate_email (arg_to args) = false ->
      forall c w1, get_credentials env false w = (Ok (Some c), w1) ->
      cmd_send env args w
      = (Raise (SystemExit 1), set_stdout (fun out => out ++ [to_error args])%list w1)
      /\ cmd_draft env args w
         = (Raise (SystemExit 1), set_stdout (fun out => out ++ [to_error args])%list w1)).
Proof.
  intros Hbad. unfold cmd_send, cmd_draft.
  split; [|split].
  - apply (proj1 (guarded_command env args _ w) Hbad).
  - apply (proj1 (guarded_command env args _ w) Hbad).
  - intros Hto c w1 Hc. split.
    + apply (proj2 (guarded_command env args _ w) Hto c w1 Hc).
    + apply (proj2 (guarded_command env args _ w) Hto c w1 Hc).
Qed.

Lemma malformed_recipient_no_call_witness :
  let env := collaborators (Ok renewed) (Ok granted) empty_message in
  recipients_ok to_not_an_email = false
  /\ cmd_send env to_not_an_email signed_in
     = (Raise (SystemExit 1),
        set_stdout (fun _ => ["Error: Invalid email address: not-an-email"]) signed_in)
  /\ requests (cmd_send env to_not_an_email signed_in).2 = []
  /\ requests (cmd_draft env to_not_an_email signed_in).2 = [].
Proof.
  intros env.
  pose proof (malformed_recipient_no_call env to_not_an_email signed_in eq_refl)
    as ((Hs & _) & (Hd & _) & Hto).
  split; [reflexivity|]. split; [|split].
  - exact (proj1 (Hto eq_refl renewed signed_in eq_refl)).
  - exact Hs.
  - exact Hd.
Defined.

(** C8 as the specification words it fails for [reply]: the command takes
    no recipient; it derives one from the From header of the message it
    fetches and sends to it without validating it. *)
Lemma reply_sends_to_malformed_address :
  let env := collaborators (Ok renewed) (Ok granted) from_not_an_email in
  let out := (cmd_reply env reply_thanks signed_in) in
  validate_email "not-an-email" = false
  /\ out.1 = Ok tt
  /\ length (requests out.2) = 2%nat
  /\ (exists sent,
        requests out.2
        = [MessagesGet "m-1" "metadata" reply_metadata_headers; MessagesSend sent]
        /\ mime_headers (raw sent) !! 0%nat = Some ("To", "not-an-email")).
Proof.
  intros env out. split; [reflexivity|]. split; [reflexivity|]. split; [reflexivity|].
  eexists. split; reflexivity.
Qed.

End CliProofs.


Module DownloadProofs.
Import Pathlib Download DownloadSpec.

(** *** Characters of strings *)

Lemma chars_app a b : chars (a +:+ b) = (chars a ++ chars b)%list.
Proof. induction a as [|c a IH]; [reflexivity|]. simpl. now rewrite <- IH. Qed.

Lemma chars_inj a b : chars a = chars b -> a = b.
Proof.
  intros H. rewrite <- (string_of_list_ascii_of_string a),
    <- (string_of_list_ascii_of_string b). unfold chars in H. now rewrite H.
Qed.

Lemma app_assoc_s a b c : (a +:+ b) +:+ c = a +:+ (b +:+ c).
Proof. apply chars_inj. rewrite !chars_app. now rewrite <- app_assoc. Qed.

Lemma slash_free_app a b : slash_free a -> slash_free b -> slash_free (a +:+ b).
Proof.
  unfold slash_free. rewrite chars_app. intros Ha Hb H.
  apply in_app_or in H. tauto.
Qed.

(** *** split *)

Lemma split_not_nil sep s : PyStr.split sep s <> [].
Proof.
  destruct s as [|c r]; simpl; [discriminate|].
  destruct (Ascii.eqb c sep); [discriminate|].
  destruct (PyStr.split sep r); discriminate.
Qed.

Lemma split_whole sep s : ~ In sep (chars s) -> PyStr.split sep s = [s].
Proof.
  induction s as [|c r IH]; intros H; [reflexivity|].
  simpl in *. destruct (Ascii.eqb_spec c sep) as [->|Hne]; [tauto|].
  rewrite IH by tauto. reflexivity.
Qed.

Lemma split_parts_free sep s x : In x (PyStr.split sep s) -> ~ In sep (chars x).
Proof.
  revert x. induction s as [|c r IH]; intros x Hx; simpl in *.
  - destruct Hx as [<-|[]]. simpl. tauto.
  - destruct (Ascii.eqb_spec c sep) as [->|Hne].
    + destruct Hx as [<-|Hx]; [simpl; tauto | now apply IH].
    + destruct (PyStr.split sep r) as [|h t] eqn:E.
      * destruct Hx as [<-|[]]. simpl. intros [H|[]]. congruence.
      * destruct Hx as [<-|Hx].
        -- simpl. intros [H|H]; [congruence|]. apply (IH h); [now left | exact H].
        -- apply IH. now right.
Qed.

(** *** name, stem and suffix *)

Lemma last_in_or_default {A} (l : list A) (d : A) :
  List.last l d = d \/ In (List.last l d) l.
Proof.
  destruct l as [|x l]; [now left|]. right.
  rewrite (app_removelast_last d (l := x :: l)) at 2 by discriminate.
  apply in_or_app. right. now left.
Qed.

Lemma name_slash_free s : slash_free (name (Path s)).
Proof.
  unfold name, Path, parse_segments; simpl.
  destruct (last_in_or_default (List.filter kept (PyStr.split "/" s)) EmptyString)
    as [->|H].
  - intros [].
  - apply filter_In in H as [H _]. now apply (split_parts_free "/"%char s).
Qed.

Lemma take_drop i s : take i s +:+ drop i s = s.
Proof.
  revert i. induction s as [|c r IH]; intros [|i]; try reflexivity.
  change (String c (take i r +:+ drop i r) = String c r). f_equal. apply IH.
Qed.

Lemma stem_suffix p : stem p +:+ suffix p = name p.
Proof.
  unfold stem, suffix. destruct (suffix_start (name p)) as [i|].
  - apply take_drop.
  - apply chars_inj. rewrite chars_app. simpl. apply app_nil_r.
Qed.

Lemma stem_suffix_free s :
  slash_free (stem (Path s)) /\ slash_free (suffix (Path s)).
Proof.
  pose proof (name_slash_free s) as H. rewrite <- stem_suffix in H.
  unfold slash_free in *. rewrite chars_app in H.
  split; intros Hin; apply H, in_or_app; tauto.
Qed.

(** *** Decimal numerals *)

Lemma pretty_N_char_digit x : pretty_N_char x <> "/"%char.
Proof. unfold pretty_N_char. repeat case_match; discriminate. Qed.

Lemma pretty_N_go_free x : forall s, slash_free s -> slash_free (pretty_N_go x s).
Proof.
  induction (N.lt_wf_0 x) as [x _ IH]. intros s Hs.
  destruct (decide (x = 0%N)) as [->|Hx]; [now rewrite pretty_N_go_0|].
  rewrite pretty_N_go_step by lia.
  apply IH; [apply N.div_lt; lia|].
  intros [Hc|Hin]; [now apply (pretty_N_char_digit (x `mod` 10)%N) | now apply Hs].
Qed.

Lemma pretty_free (n : N) : slash_free (pretty n).
Proof.
  unfold pretty, pretty_N. case_decide.
  - intros [Hc|[]]. discriminate.
  - apply pretty_N_go_free. intros [].
Qed.

(** *** The numbered names *)

Lemma numbered_name_file filename counter : file_name (numbered_name filename counter).
Proof.
  destruct (stem_suffix_free filename) as [Hst Hsu].
  assert (Hfree : slash_free ("_" +:+ pretty counter +:+ suffix (Path filename))).
  { apply (slash_free_app "_"); [intros [H|[]]; discriminate|].
    apply slash_free_app; [apply pretty_free | exact Hsu]. }
  split.
  - unfold numbered_name. now apply slash_free_app.
  - unfold numbered_name, kept.
    assert (Hin : In "_"%char (chars (stem (Path filename) +:+ "_"
                     +:+ pretty counter +:+ suffix (Path filename)))).
    { rewrite chars_app. apply in_or_app. right. now left. }
    destruct (String.eqb_spec (stem (Path filename) +:+ "_"
                +:+ pretty counter +:+ suffix (Path filename)) EmptyString) as [E|_].
    { rewrite E in Hin. destruct Hin. }
    destruct (String.eqb_spec (stem (Path filename) +:+ "_"
                +:+ pretty counter +:+ suffix (Path filename)) ".") as [E|_].
    { rewrite E in Hin. destruct Hin as [H|[]]. discriminate. }
    reflexivity.
Qed.

(** *** Paths below a directory *)

Lemma Path_file_name n : file_name n -> Path n = mkPath EmptyString [n].
Proof.
  intros [Hfree Hkept]. unfold Path, parse_segments.
  rewrite (split_whole "/"%char n Hfree). simpl. rewrite Hkept. f_equal.
  destruct n as [|c r]; [reflexivity|].
  destruct (Ascii.eqb_spec c "/"%char) as [->|Hne].
  - exfalso. apply Hfree. now left.
  - unfold parse_anchor.
    destruct c as [[] [] [] [] [] [] [] []]; try reflexivity. congruence.
Qed.

Lemma truediv_file_name d n :
  file_name n -> truediv d n = mkPath (anchor d) (segments d ++ [n]).
Proof. intros Hn. unfold truediv. now rewrite (Path_file_name n Hn). Qed.

Lemma join_snoc l n :
  PyStr.join "/" (l ++ [n])
  = fold_right (fun x acc => x +:+ "/" +:+ acc) EmptyString l +:+ n.
Proof.
  induction l as [|x l IH]; [reflexivity|].
  change (PyStr.join "/" ((x :: l) ++ [n]))
    with (match (l ++ [n])%list with
          | [] => x
          | _ :: _ => x +:+ "/" +:+ PyStr.join "/" (l ++ [n])
          end).
  destruct (l ++ [n])%list as [|y t] eqn:E; [now destruct l|].
  rewrite IH. simpl. now rewrite !app_assoc_s.
Qed.

Lemma str_below d n :
  str (mkPath (anchor d) (segments d ++ [n])) = dir_prefix d +:+ n.
Proof.
  unfold str, dir_prefix. simpl.
  destruct (segments d ++ [n])%list as [|y t] eqn:E; [now destruct (segments d)|].
  rewrite <- E, join_snoc. now rewrite app_assoc_s.
Qed.

Lemma str_numbered output_dir filename counter :
  str (numbered output_dir filename counter)
  = dir_prefix (Path output_dir) +:+ numbered_name filename counter.
Proof.
  unfold numbered. fold (numbered_name filename counter).
  rewrite (truediv_file_name _ _ (numbered_name_file filename counter)).
  apply str_below.
Qed.

Lemma str_numbered_inj output_dir filename (i j : N) :
  str (numbered output_dir filename i) = str (numbered output_dir filename j) -> i = j.
Proof.
  rewrite !str_numbered. unfold numbered_name. intros H.
  apply (f_equal chars) in H. rewrite !chars_app in H.
  do 3 apply app_inv_head in H. apply app_inv_tail in H.
  apply chars_inj in H. now apply (inj pretty) in H.
Qed.

(** *** The loop ends *)

Lemma exists_lookup fs p : exists_ fs p = true <-> is_Some (fs !! str p).
Proof. unfold exists_. apply bool_decide_eq_true. Qed.

(** Not all of the first [size fs + 1] numbered paths exist. *)
Lemma some_numbered_free (fs : gmap string Entry) output_dir filename :
  exists k, (1 <= k <= S (size fs))%nat
            /\ exists_ fs (candidate output_dir filename k) = false.
Proof.
  set (f := fun k : nat => str (numbered output_dir filename (N.of_nat k))).
  set (ks := seq 1 (S (size fs))).
  destruct (decide (Forall (fun k => is_Some (fs !! f k)) ks)) as [Hall|Hnot].
  - exfalso.
    assert (Hnd : NoDup (f <$> ks)).
    { apply NoDup_fmap_2_strong; [|apply NoDup_seq].
      intros i j _ _ Hij. apply str_numbered_inj in Hij. lia. }
    assert (Hsub : (list_to_set (f <$> ks) : gset string) ⊆ dom fs).
    { intros x Hx. apply elem_of_list_to_set, list_elem_of_fmap in Hx
        as (k & -> & Hk).
      apply elem_of_dom. rewrite Forall_forall in Hall. now apply Hall. }
    apply subseteq_size in Hsub.
    rewrite size_list_to_set, length_fmap, size_dom in Hsub by exact Hnd.
    subst ks. rewrite length_seq in Hsub. lia.
  - apply not_Forall_Exists in Hnot; [|intros k; apply _].
    apply Exists_exists in Hnot as (k & Hk & Hfree).
    subst ks. apply elem_of_seq in Hk.
    exists k. split; [lia|].
    destruct k as [|k]; [lia|].
    apply not_true_is_false. rewrite exists_lookup. exact Hfree.
Qed.

Lemma while_exists_first_free fs output_dir filename :
  forall fuel i,
    (exists k, (i <= k < i + fuel)%nat
               /\ exists_ fs (candidate output_dir filename k) = false) ->
    exists k,
      while_exists fuel fs output_dir filename (N.of_nat (S i))
                   (candidate output_dir filename i)
      = candidate output_dir filename k
      /\ (i <= k)%nat
      /\ exists_ fs (candidate output_dir filename k) = false
      /\ forall j, (i <= j < k)%nat ->
                   exists_ fs (candidate output_dir filename j) = true.
Proof.
  induction fuel as [|fuel IH]; intros i (k & Hk & Hfree); [lia|].
  simpl. destruct (exists_ fs (candidate output_dir filename i)) eqn:Hi.
  - replace (N.of_nat (S i) + 1)%N with (N.of_nat (S (S i))) by lia.
    change (numbered output_dir filename (N.of_nat (S i)))
      with (candidate output_dir filename (S i)).
    destruct (IH (S i)) as (k' & Heq & Hle & Hfree' & Hbefore).
    { exists k. split; [|exact Hfree].
      destruct (decide (k = i)) as [->|]; [congruence | lia]. }
    exists k'. repeat split; [exact Heq | lia | exact Hfree' |].
    intros j Hj. destruct (decide (j = i)) as [->|]; [exact Hi|].
    apply Hbefore. lia.
  - exists i. repeat split; [lia | exact Hi |]. intros j Hj. lia.
Qed.

Lemma free_path_spec fs output_dir filename :
  exists k,
    free_path fs output_dir filename = candidate output_dir filename k
    /\ exists_ fs (candidate output_dir filename k) = false
    /\ forall j, (j < k)%nat -> exists_ fs (candidate output_dir filename j) = true.
Proof.
  destruct (some_numbered_free fs output_dir filename) as (k & Hk & Hfree).
  destruct (while_exists_first_free fs output_dir filename (S (S (size fs))) 0)
    as (k' & Heq & _ & Hfree' & Hbefore).
  { exists k. split; [lia | exact Hfree]. }
  exists k'. split; [exact Heq|]. split; [exact Hfree'|].
  intros j Hj. apply Hbefore. lia.
Qed.

(** *** The download *)

Lemma length_app_s a b :
  String.length (a +:+ b) = (String.length a + String.length b)%nat.
Proof. induction a as [|c a IH]; [reflexivity|]. simpl. now rewrite IH. Qed.

Lemma candidate_below output_dir filename k :
  file_name filename ->
  exists n, file_name n
            /\ candidate output_dir filename k
               = mkPath (anchor (Path output_dir)) (segments (Path output_dir) ++ [n])
            /\ n = match k with
                   | O => filename
                   | S _ => numbered_name filename (N.of_nat k)
                   end.
Proof.
  intros Hf. destruct k as [|k].
  - exists filename. split; [exact Hf|]. split; [|reflexivity].
    now apply truediv_file_name.
  - exists (numbered_name filename (N.of_nat (S k))).
    split; [apply numbered_name_file|]. split; [|reflexivity].
    apply truediv_file_name, numbered_name_file.
Qed.

Lemma file_name_not_empty n : file_name n -> (0 < String.length n)%nat.
Proof. intros [_ Hk]. destruct n; [discriminate | simpl; lia]. Qed.

Lemma length_prefix_join l :
  l <> [] ->
  String.length (fold_right (fun x acc => x +:+ "/" +:+ acc) EmptyString l)
  = S (String.length (PyStr.join "/" l)).
Proof.
  induction l as [|x l IH]; [congruence|]. intros _.
  destruct l as [|y l].
  - simpl. rewrite !length_app_s. simpl. lia.
  - change (PyStr.join "/" (x :: y :: l)) with (x +:+ "/" +:+ PyStr.join "/" (y :: l)).
    cbn [fold_right] in *. rewrite !length_app_s. rewrite !length_app_s in IH.
    rewrite IH by discriminate. simpl. lia.
Qed.

(** A file below a directory is not the directory. *)
Lemma str_below_not_dir d n :
  file_name n -> segments d <> [] ->
  str (mkPath (anchor d) (segments d ++ [n])) <> str d.
Proof.
  intros Hn Hd E. apply (f_equal String.length) in E.
  rewrite str_below in E. unfold dir_prefix, str in E.
  destruct (segments d) as [|x l] eqn:El; [congruence|].
  rewrite !length_app_s in E.
  rewrite (length_prefix_join (x :: l)) in E by discriminate.
  pose proof (file_name_not_empty n Hn). lia.
Qed.

Lemma parent_below a l n : parent (mkPath a (l ++ [n])) = mkPath a l.
Proof. unfold parent. simpl. now rewrite removelast_last. Qed.

Lemma write_bytes_below d n data w :
  is_dir (files w) d = true ->
  write_bytes (mkPath (anchor d) (segments d ++ [n])) data w
  = (Ok tt, set_files (insert (str (mkPath (anchor d) (segments d ++ [n]))) (File data)) w).
Proof.
  intros Hd. unfold write_bytes. rewrite parent_below.
  destruct d as [a l]. simpl in *. now rewrite Hd.
Qed.

Lemma download_attachment_run env msg_id attachment_id filename output_dir data bytes w :
  file_name filename ->
  is_dir (files w) (Path output_dir) = true ->
  attachments_get env msg_id attachment_id = Ok (Some data) ->
  Base64.urlsafe_b64decode data = Ok bytes ->
  download_attachment env msg_id attachment_id filename output_dir w
  = (Ok (str (free_path (files w) output_dir filename)),
     after_download msg_id attachment_id
                    (str (free_path (files w) output_dir filename)) bytes w).
Proof.
  intros Hf Hd Hget Hdec.
  unfold download_attachment, bind, call, bind, modify, lift, gets, ret.
  simpl. rewrite Hget, Hdec. simpl.
  destruct (free_path_spec (files w) output_dir filename) as (k & -> & _).
  destruct (candidate_below output_dir filename k Hf) as (n & Hn & -> & _).
  rewrite write_bytes_below by exact Hd. reflexivity.
Qed.

Lemma is_dir_after_write d n data fs :
  file_name n ->
  is_dir fs d = true ->
  is_dir (<[str (mkPath (anchor d) (segments d ++ [n])) := File data]> fs) d = true.
Proof.
  intros Hn Hd. unfold is_dir in *.
  destruct (segments d) as [|x l] eqn:El; [reflexivity|].
  rewrite lookup_insert_ne; [exact Hd|].
  rewrite <- El. apply str_below_not_dir; [exact Hn | congruence].
Qed.

Lemma first_free_unique fs output_dir filename k k' :
  exists_ fs (candidate output_dir filename k) = false ->
  (forall j, (j < k)%nat -> exists_ fs (candidate output_dir filename j) = true) ->
  exists_ fs (candidate output_dir filename k') = false ->
  (forall j, (j < k')%nat -> exists_ fs (candidate output_dir filename j) = true) ->
  k = k'.
Proof.
  intros Hk Hb Hk' Hb'.
  destruct (lt_eq_lt_dec k k') as [[Hlt | ->] | Hlt]; [|reflexivity|].
  - specialize (Hb' k Hlt). congruence.
  - specialize (Hb k' Hlt). congruence.
Qed.

Lemma str_plain_not_numbered output_dir filename k :
  file_name filename ->
  str (candidate output_dir filename 0) <> str (candidate output_dir filename (S k)).
Proof.
  intros Hf E. apply (f_equal String.length) in E.
  unfold candidate in E. rewrite str_numbered in E.
  rewrite (truediv_file_name _ _ Hf), str_below in E.
  assert (Hname : stem (Path filename) +:+ suffix (Path filename) = filename).
  { rewrite stem_suffix, (Path_file_name filename Hf). reflexivity. }
  rewrite <- Hname in E at 1. unfold numbered_name in E.
  rewrite !length_app_s in E. simpl in E. lia.
Qed.

(** C9, as amended.  [download_attachment] settles on the first path
    that does not exist among the plain path and then the paths numbered
    1, 2, 3, ... (the loop always reaches it); for a file name, a numbered
    path is the directory, the stem, an underscore, the number in decimal
    and the suffix, where stem and suffix make up the name.  Downloading
    twice under the same file name into the same existing directory yields
    two different paths; when neither the plain path nor the path
    numbered 1 exists beforehand, the first is the plain path and the
    second the one numbered 1. *)
Theorem download_attachment_resolves_collisions :
  (forall fs output_dir filename,
      exists k,
        free_path fs output_dir filename = candidate output_dir filename k
        /\ exists_ fs (candidate output_dir filename k) = false
        /\ forall j, (j < k)%nat ->
                     exists_ fs (candidate output_dir filename j) = true)
  /\ (forall output_dir filename,
      file_name filename ->
      stem (Path filename) +:+ suffix (Path filename) = filename
      /\ str (candidate output_dir filename 0)
         = dir_prefix (Path output_dir) +:+ filename
      /\ forall k,
          str (candidate output_dir filename (S k))
          = dir_prefix (Path output_dir) +:+ stem (Path filename) +:+ "_"
              +:+ pretty (N.of_nat (S k)) +:+ suffix (Path filename))
  /\ (forall env msg_id attachment_id filename output_dir data bytes w,
      file_name filename ->
      is_dir (files w) (Path output_dir) = true ->
      attachments_get env msg_id attachment_id = Ok (Some data) ->
      Base64.urlsafe_b64decode data = Ok bytes ->
      let p1 := str (free_path (files w) output_dir filename) in
      let w1 := after_download msg_id attachment_id p1 bytes w in
      let p2 := str (free_path (files w1) output_dir filename) in
      download_attachment env msg_id attachment_id filename output_dir w = (Ok p1, w1)
      /\ download_attachment env msg_id attachment_id filename output_dir w1
         = (Ok p2, after_download msg_id attachment_id p2 bytes w1)
      /\ p1 <> p2
      /\ (exists_ (files w) (candidate output_dir filename 0) = false ->
          exists_ (files w) (candidate output_dir filename 1) = false ->
          p1 = str (candidate output_dir filename 0)
          /\ p2 = str (candidate output_dir filename 1))).
Proof.
  split; [apply free_path_spec|]. split.
  - intros output_dir filename Hf. split; [|split].
    + rewrite stem_suffix, (Path_file_name filename Hf). reflexivity.
    + unfold candidate. rewrite (truediv_file_name _ _ Hf). apply str_below.
    + intros k. unfold candidate. apply str_numbered.
  - intros env msg_id attachment_id filename output_dir data bytes w Hf Hd Hget Hdec
           p1 w1 p2.
    destruct (free_path_spec (files w) output_dir filename) as (k & Hk & Hfree & Hbefore).
    destruct (candidate_below output_dir filename k Hf) as (n & Hn & Hcand & _).
    assert (Hfiles : files w1 = <[p1 := File bytes]> (files w)) by reflexivity.
    assert (Hd1 : is_dir (files w1) (Path output_dir) = true).
    { rewrite Hfiles. subst p1. rewrite Hk, Hcand. now apply is_dir_after_write. }
    destruct (free_path_spec (files w1) output_dir filename)
      as (k' & Hk' & Hfree' & Hbefore').
    split; [now apply (download_attachment_run env _ _ _ _ data)|].
    split; [now apply (download_attachment_run env _ _ _ _ data)|].
    assert (Hne : p1 <> p2).
    { intros E. subst p2. rewrite Hk' in E.
      apply not_true_iff_false in Hfree'. apply Hfree'.
      rewrite exists_lookup, <- E, Hfiles, lookup_insert_eq. eauto. }
    split; [exact Hne|].
    intros H0 H1.
    assert (k = 0%nat) as ->.
    { apply (first_free_unique (files w) output_dir filename k 0); auto. intros j Hj. lia. }
    assert (Hp1 : p1 = str (candidate output_dir filename 0)).
    { subst p1. now rewrite Hk. }
    split; [exact Hp1|].
    assert (k' = 1%nat) as ->.
    { apply (first_free_unique (files w1) output_dir filename k' 1); auto.
      - apply not_true_iff_false. rewrite exists_lookup, Hfiles, Hp1.
        rewrite lookup_insert_ne by (now apply str_plain_not_numbered).
        rewrite <- exists_lookup. now rewrite H1.
      - intros j Hj. assert (j = 0%nat) as -> by lia.
        rewrite exists_lookup, Hfiles, Hp1, lookup_insert_eq. eauto. }
    subst p2. now rewrite Hk'.
Qed.

Example download_twice_into_empty_directory :
  let env := CredentialSpec.collaborators (Raise EOFError) (Raise EOFError)
                                          CredentialSpec.empty_message in
  let first := download_attachment env "m-1" "att-1" "report.pdf" downloads
                                   (world_with_files empty_downloads) in
  let second := download_attachment env "m-1" "att-1" "report.pdf" downloads first.2 in
  first.1 = Ok "/home/u/Downloads/report.pdf"
  /\ second.1 = Ok "/home/u/Downloads/report_1.pdf"
  /\ files second.2 !! "/home/u/Downloads/report_1.pdf" = Some (File "hello").
Proof. vm_compute. repeat split. Qed.

(** C9 as the specification words it fails: in a directory that already
    holds the file name, the first of two downloads is numbered 1 and the
    second is numbered 2. *)
Lemma second_download_numbered_2 :
  let env := CredentialSpec.collaborators (Raise EOFError) (Raise EOFError)
                                          CredentialSpec.empty_message in
  let first := download_attachment env "m-1" "att-1" "report.pdf" downloads
                                   (world_with_files downloads_with_report) in
  let second := download_attachment env "m-1" "att-1" "report.pdf" downloads first.2 in
  is_dir downloads_with_report (Path downloads) = true
  /\ first.1 = Ok "/home/u/Downloads/report_1.pdf"
  /\ second.1 = Ok "/home/u/Downloads/report_2.pdf".
Proof. vm_compute. repeat split. Qed.

End DownloadProofs.

(** ** What the credential manager leaves of the persisted state *)

Section Persisted.

(** As [Frame], for relations that need not admit every change of the
    credentials directory: only a change of the token file, and the
    making of the empty directory. *)
Variable R : World -> World -> Prop.
Hypothesis R_refl : forall w, R w w.
Hypothesis R_trans : forall w1 w2 w3, R w1 w2 -> R w2 w3 -> R w1 w3.
Hypothesis R_print : forall f w, R w (set_stdout f w).
Hypothesis R_event : forall e w, R w (set_auth_events (fun l => l ++ [e])%list w).
Hypothesis R_token : forall w d o,
  credentials_dir w = Some d ->
  R w (set_credentials_dir (Some (Credential.with_token o d)) w).
Hypothesis R_mkdir : forall w,
  credentials_dir w = None ->
  R w (set_credentials_dir (Some (mkCredentialsDir None None false)) w).

Lemma kept_persist c : steps_in R (Credential.persist c).
Proof.
  unfold Credential.persist.
  apply (steps_bind R R_trans).
  { intros w. unfold Credential.mkdir_credentials_dir, modify. simpl.
    destruct (credentials_dir w) eqn:E; [apply R_refl | now apply R_mkdir]. }
  intros _. apply (steps_bind R R_trans); [|intros _; apply (steps_ret R R_refl)].
  intros w. unfold Credential.write_in_dir.
  destruct (credentials_dir w) eqn:E; simpl; [now apply R_token | apply R_refl].
Qed.

Lemma kept_exchange {A} e (r : res A) : steps_in R (exchange e r).
Proof.
  apply (steps_exchange R (fun _ => True) R_refl R_trans); [|exact I].
  intros e' w _. apply R_event.
Qed.

Lemma kept_manual_flow env scopes : steps_in R (Credential.manual_flow env scopes).
Proof.
  apply (steps_manual_flow R (fun _ => True) R_refl R_trans R_print); [|intros; exact I].
  intros e w _. apply R_event.
Qed.

Lemma kept_authorize env manual scopes :
  steps_in R (Credential.authorize env manual scopes).
Proof.
  unfold Credential.authorize.
  apply (steps_bind R R_trans); [apply (steps_gets R R_refl)|]. intros configured.
  destruct (negb configured); [apply (steps_ret R R_refl)|].
  apply (steps_bind R R_trans).
  - destruct manual; [apply kept_manual_flow|].
    apply (steps_bind R R_trans); [apply kept_exchange|].
    intros c. apply (steps_ret R R_refl).
  - intros [c|]; [apply kept_persist | apply (steps_ret R R_refl)].
Qed.

Lemma kept_get_credentials env manual :
  steps_in R (Credential.get_credentials env manual).
Proof.
  unfold Credential.get_credentials, Credential.get_current_scope.
  apply (steps_bind R R_trans).
  { apply (steps_bind R R_trans); [apply (steps_gets R R_refl)|].
    intros [t|]; apply (steps_ret R R_refl). }
  intros scope. apply (steps_bind R R_trans).
  { destruct (Credential.SCOPES_MAP !! scope);
      [apply (steps_ret R R_refl) | apply (steps_raise R R_refl)]. }
  intros scopes. apply (steps_bind R R_trans); [apply (steps_gets R R_refl)|].
  intros tok. apply (steps_bind R R_trans).
  { destruct tok as [[c|]|];
      [apply (steps_ret R R_refl) | apply (steps_raise R R_refl)
       | apply (steps_ret R R_refl)]. }
  intros [c|]; [|apply kept_authorize].
  destruct (valid c); [apply (steps_ret R R_refl)|].
  destruct (expired c && truthy (refresh_token c)); [|apply kept_authorize].
  apply (steps_bind R R_trans); [apply kept_exchange|].
  intros c'. apply kept_persist.
Qed.

End Persisted.

Module CredentialFactsProofs.
Import Credential CredentialSpec CredentialFacts.

Lemma bind_run {X Y} (m : M X) (k : X -> M Y) w :
  bind m k w = match m w with
               | (Ok a, w') => k a w'
               | (Raise e, w') => (Raise e, w')
               end.
Proof. reflexivity. Qed.

Lemma keeps_configuration_get_credentials env manual w :
  keeps_configuration w (get_credentials env manual w).2.
Proof.
  revert w. apply (kept_get_credentials keeps_configuration).
  - intros w. repeat split.
  - intros w1 w2 w3 (a1 & b1 & c1 & d1) (a2 & b2 & c2 & d2).
    unfold keeps_configuration. repeat split; congruence.
  - intros f w. repeat split.
  - intros e w. repeat split.
  - intros w d o Hd. unfold keeps_configuration, scope_text, client_secrets_exists.
    simpl. rewrite Hd. repeat split.
  - intros w Hd. unfold keeps_configuration, scope_text, client_secrets_exists.
    simpl. rewrite Hd. repeat split.
Qed.

Lemma events_grow_get_credentials env manual w :
  events_grow w (get_credentials env manual w).2.
Proof.
  revert w. apply (steps_get_credentials events_grow (fun _ => True)).
  - intros w. exists []. now rewrite app_nil_r.
  - intros w1 w2 w3 [e1 G1] [e2 G2].
    exists (e1 ++ e2)%list. now rewrite G2, G1, app_assoc.
  - intros f w. exists []. simpl. now rewrite app_nil_r.
  - intros d w. exists []. simpl. now rewrite app_nil_r.
  - intros e w _. exists [e]. reflexivity.
  - intros e. exact I.
Qed.

Lemma after_print_nil w : after_print [] w = w.
Proof. destruct w. unfold after_print, set_stdout. simpl. now rewrite app_nil_r. Qed.

Lemma after_print_app l1 l2 w :
  after_print l2 (after_print l1 w) = after_print (l1 ++ l2) w.
Proof. unfold after_print, set_stdout. simpl. now rewrite app_assoc. Qed.

Lemma print_all_run l w : print_all l w = (Ok tt, after_print l w).
Proof.
  revert w. induction l as [|s l IH]; intros w.
  - now rewrite after_print_nil.
  - simpl. rewrite bind_run. unfold print at 1, modify.
    rewrite IH. f_equal. apply (after_print_app [s] l w).
Qed.

Lemma persist_run c w : persist c w = (Ok (Some c), persisted c w).
Proof.
  unfold persist, persisted, bind, mkdir_credentials_dir, modify, write_in_dir, ret.
  destruct (credentials_dir w) as [d|] eqn:E; simpl; rewrite ?E; reflexivity.
Qed.

Lemma token_persisted c w : token_content (persisted c w) = Some (Pickled c).
Proof. unfold persisted. now destruct (credentials_dir w). Qed.

(** Every case of the manual flow. *)
Lemma manual_flow_run env scopes w :
  manual_flow env scopes w
  = match stdin env with
    | None => (Raise EOFError, prompted env scopes w)
    | Some line =>
        let url := PyStr.strip line in
        if negb (truthy (Some url))
        then (Ok None,
              after_print [PyStr.NL +:+ "❌ Error: No URL provided."]
                          (prompted env scopes w))
        else if negb (PyStr.contains url "code=")
        then (Ok None,
              after_print ["Make sure you copied the FULL URL after clicking Allow."]
                (after_print [PyStr.NL +:+ "❌ Error: URL doesn't contain authorization code."]
                   (prompted env scopes w)))
        else
          match fetch_token env scopes url with
          | Ok c =>
              (Ok (Some c),
               after_print [PyStr.NL +:+ "✓ Authentication successful!"]
                 (after_exchange (ManualFlow scopes url) (prompted env scopes w)))
          | Raise e =>
              if is_Exception e
              then (Ok None,
                    after_print
                      [PyStr.NL +:+ "❌ Error processing authorization: " +:+ exn_str e;
                       PyStr.NL +:+ "Make sure you:";
                       "1. Copied the COMPLETE URL (including http://)";
                       "2. Didn't modify the URL";
                       "3. Completed the OAuth flow successfully"]
                      (after_exchange (ManualFlow scopes url) (prompted env scopes w)))
              else (Raise e, after_exchange (ManualFlow scopes url) (prompted env scopes w))
          end
    end.
Proof.
  unfold manual_flow. rewrite bind_run, print_all_run.
  unfold input. rewrite !bind_run. unfold print at 1, modify.
  fold (after_print ["Paste the full URL here: "]
          (after_print (manual_instructions (authorization_url env scopes)) w)).
  fold (prompted env scopes w).
  destruct (stdin env) as [line|]; [|reflexivity].
  unfold ret at 1. cbv zeta.
  destruct (negb (truthy (Some (PyStr.strip line)))); [reflexivity|].
  destruct (negb (PyStr.contains (PyStr.strip line) "code=")); [reflexivity|].
  unfold try_except. rewrite bind_run. unfold exchange. rewrite bind_run.
  unfold modify, lift.
  destruct (fetch_token env scopes (PyStr.strip line)) as [c|e]; [reflexivity|].
  destruct (is_Exception e); [|reflexivity].
  unfold bind, print, modify, ret, after_print, after_exchange, set_stdout,
    set_auth_events. simpl. do 2 f_equal. now rewrite <- !app_assoc.
Qed.

Lemma authorize_some env manual scopes w c w' :
  authorize env manual scopes w = (Ok (Some c), w') ->
  token_content w' = Some (Pickled c).
Proof.
  unfold authorize. rewrite bind_run. unfold gets.
  destruct (negb (client_secrets_exists w)); [discriminate|].
  rewrite bind_run.
  destruct ((if manual then manual_flow env scopes
             else bind (exchange (LocalServerFlow scopes) (run_local_server env scopes))
                       (fun creds => ret (Some creds))) w) as [[[c1|]|e] w1];
    [|discriminate..].
  rewrite persist_run. intros [= <- <-]. apply token_persisted.
Qed.

(** X1.  A persisted handle that is valid is returned as it is: nothing
    is exchanged, written or printed. *)
Theorem valid_handle_is_reused env manual w d c scopes :
  credentials_dir w = Some d ->
  token_file d = Some (Pickled c) ->
  valid c = true ->
  SCOPES_MAP !! current_scope w = Some scopes ->
  get_credentials env manual w = (Ok (Some c), w).
Proof.
  intros Hd Ht Hv Hs.
  rewrite (CredentialProofs.get_credentials_loaded env manual w scopes Hs).
  unfold token_content. rewrite Hd. simpl. rewrite Ht. now rewrite Hv.
Qed.

Lemma valid_handle_is_reused_witness :
  get_credentials (operator None (Raise (FlowError "down"))) true CliSpec.signed_in
  = (Ok (Some renewed), CliSpec.signed_in).
Proof.
  exact (valid_handle_is_reused (operator None (Raise (FlowError "down"))) true
           CliSpec.signed_in
           (mkCredentialsDir (Some "modify") (Some (Pickled renewed)) true) renewed
           ["https://www.googleapis.com/auth/gmail.readonly";
            "https://www.googleapis.com/auth/gmail.modify"]
           eq_refl eq_refl eq_refl eq_refl).
Defined.

Lemma get_credentials_persists env manual w c w' :
  get_credentials env manual w = (Ok (Some c), w') ->
  token_content w' = Some (Pickled c).
Proof.
  unfold get_credentials. rewrite bind_run, CredentialProofs.get_current_scope_eq.
  rewrite bind_run.
  destruct (SCOPES_MAP !! current_scope w) as [scopes|]; [|discriminate].
  unfold ret at 1. rewrite bind_run. unfold gets at 1. rewrite bind_run.
  destruct (token_content w) as [[c0|]|] eqn:Htok;
    [unfold ret at 1
    |unfold raise at 1; discriminate
    |unfold ret at 1; apply authorize_some].
  destruct (valid c0).
  { intros [= <- <-]. exact Htok. }
  destruct (expired c0 && truthy (refresh_token c0)); [|apply authorize_some].
  rewrite bind_run. unfold exchange. rewrite bind_run. unfold modify, lift.
  destruct (refresh env c0) as [c1|e]; [|discriminate].
  rewrite persist_run. intros [= <- <-]. apply token_persisted.
Qed.

(** X2.  Whatever the way a handle was obtained (reuse, refresh, either
    flow), when [get_credentials] returns it the token file holds it. *)
Theorem returned_handle_is_persisted env manual w c w' :
  get_credentials env manual w = (Ok (Some c), w') ->
  token_content w' = Some (Pickled c).
Proof. apply get_credentials_persists. Qed.

Lemma returned_handle_is_persisted_witness :
  token_content
    (mkWorld (Some (mkCredentialsDir (Some "readonly") (Some (Pickled granted)) true))
             ∅ [] [] [LocalServerFlow ["https://www.googleapis.com/auth/gmail.readonly"]])
  = Some (Pickled granted).
Proof.
  exact (returned_handle_is_persisted
           (collaborators (Ok renewed) (Ok granted) empty_message) false
           signed_out granted _ eq_refl).
Defined.

(** X3.  [get_credentials] changes nothing of the configuration: the
    scope file, the client secrets, the files outside the credentials
    directory and the calls to the mail service are as before; and it only
    adds to the exchanges with the authorization server. *)
Theorem get_credentials_keeps_configuration env manual w :
  keeps_configuration w (get_credentials env manual w).2
  /\ events_grow w (get_credentials env manual w).2.
Proof.
  split.
  - apply keeps_configuration_get_credentials.
  - apply events_grow_get_credentials.
Qed.

Lemma acquire_without_token env manual w scopes :
  SCOPES_MAP !! current_scope w = Some scopes ->
  token_content w = None ->
  client_secrets_exists w = true ->
  get_credentials env manual w
  = match (if manual then manual_flow env scopes
           else bind (exchange (LocalServerFlow scopes) (run_local_server env scopes))
                     (fun creds => ret (Some creds))) w with
    | (Ok (Some c), w1) => persist c w1
    | (Ok None, w1) => (Ok None, w1)
    | (Raise e, w1) => (Raise e, w1)
    end.
Proof.
  intros Hs Ht Hc.
  rewrite (CredentialProofs.get_credentials_loaded env manual w scopes Hs), Ht.
  unfold authorize. rewrite bind_run. unfold gets. rewrite Hc. simpl.
  rewrite bind_run.
  destruct ((if manual then manual_flow env scopes
             else bind (exchange (LocalServerFlow scopes) (run_local_server env scopes))
                       (fun creds => ret (Some creds))) w) as [[[c|]|e] w1]; reflexivity.
Qed.

(** X4.  In the manual flow, a pasted line that is empty once stripped,
    or that holds no "code=", ends [get_credentials] with no handle after
    the error was printed: nothing is exchanged with the authorization
    server and nothing is persisted.  At the end of the input the call
    raises EOFError. *)
Theorem manual_flow_aborts_on_bad_input env w scopes :
  SCOPES_MAP !! current_scope w = Some scopes ->
  token_content w = None ->
  client_secrets_exists w = true ->
  (forall line,
      stdin env = Some line ->
      truthy (Some (PyStr.strip line)) = false
      \/ PyStr.contains (PyStr.strip line) "code=" = false ->
      exists lines,
        get_credentials env true w
        = (Ok None, after_print lines (prompted env scopes w)))
  /\ (stdin env = None ->
      get_credentials env true w = (Raise EOFError, prompted env scopes w)).
Proof.
  intros Hs Ht Hc.
  rewrite (acquire_without_token env true w scopes Hs Ht Hc), manual_flow_run.
  split.
  - intros line Hin Hbad. rewrite Hin. cbv zeta.
    destruct (truthy (Some (PyStr.strip line))) eqn:E; simpl.
    + destruct Hbad as [Hbad|Hbad]; [discriminate|]. rewrite Hbad. simpl.
      rewrite after_print_app. eauto.
    + eauto.
  - intros Hin. now rewrite Hin.
Qed.

Lemma manual_flow_aborts_on_bad_input_witness :
  (exists lines,
      get_credentials (operator (Some "  ") (Ok granted)) true signed_out
      = (Ok None,
         after_print lines
           (prompted (operator (Some "  ") (Ok granted))
                     ["https://www.googleapis.com/auth/gmail.readonly"] signed_out)))
  /\ get_credentials (operator None (Ok granted)) true signed_out
     = (Raise EOFError,
        prompted (operator None (Ok granted))
                 ["https://www.googleapis.com/auth/gmail.readonly"] signed_out).
Proof.
  split.
  - exact (proj1 (manual_flow_aborts_on_bad_input (operator (Some "  ") (Ok granted))
                    signed_out ["https://www.googleapis.com/auth/gmail.readonly"]
                    eq_refl eq_refl eq_refl)
                 "  " eq_refl (or_introl eq_refl)).
  - exact (proj2 (manual_flow_aborts_on_bad_input (operator None (Ok granted))
                    signed_out ["https://www.googleapis.com/auth/gmail.readonly"]
                    eq_refl eq_refl eq_refl)
                 eq_refl).
Defined.

(** X5.  A failure of the code exchange is handled differently by the two
    flows: the manual flow reports it and [get_credentials] returns no
    handle, the local-server flow lets it reach the caller.  Neither
    persists anything. *)
Theorem flow_failure_manual_and_local env w scopes :
  SCOPES_MAP !! current_scope w = Some scopes ->
  token_content w = None ->
  client_secrets_exists w = true ->
  (forall line e,
      stdin env = Some line ->
      truthy (Some (PyStr.strip line)) = true ->
      PyStr.contains (PyStr.strip line) "code=" = true ->
      fetch_token env scopes (PyStr.strip line) = Raise e ->
      is_Exception e = true ->
      exists lines,
        get_credentials env true w
        = (Ok None,
           after_print lines
             (after_exchange (ManualFlow scopes (PyStr.strip line))
                             (prompted env scopes w))))
  /\ (forall e,
      run_local_server env scopes = Raise e ->
      get_credentials env false w
      = (Raise e, after_exchange (LocalServerFlow scopes) w)).
Proof.
  intros Hs Ht Hc. split.
  - intros line e Hin Hne Hcode Hfetch He.
    rewrite (acquire_without_token env true w scopes Hs Ht Hc), manual_flow_run.
    rewrite Hin. cbv zeta. rewrite Hne, Hcode, Hfetch, He. simpl. eauto.
  - intros e Hrun.
    rewrite (acquire_without_token env false w scopes Hs Ht Hc).
    rewrite bind_run. unfold exchange. rewrite bind_run. unfold modify, lift.
    now rewrite Hrun.
Qed.

Lemma flow_failure_manual_and_local_witness :
  let env := operator (Some "http://localhost:8080/?state=s&code=4/0abc")
                      (Raise (FlowError "invalid_grant")) in
  (exists lines,
      get_credentials env true signed_out
      = (Ok None,
         after_print lines
           (after_exchange
              (ManualFlow ["https://www.googleapis.com/auth/gmail.readonly"]
                          "http://localhost:8080/?state=s&code=4/0abc")
              (prompted env ["https://www.googleapis.com/auth/gmail.readonly"]
                        signed_out))))
  /\ get_credentials env false signed_out
     = (Raise (FlowError "unused"),
        after_exchange
          (LocalServerFlow ["https://www.googleapis.com/auth/gmail.readonly"])
          signed_out).
Proof.
  intros env.
  pose proof (flow_failure_manual_and_local env signed_out
                ["https://www.googleapis.com/auth/gmail.readonly"]
                eq_refl eq_refl eq_refl) as [Hm Hl].
  split.
  - exact (Hm "http://localhost:8080/?state=s&code=4/0abc" (FlowError "invalid_grant")
              eq_refl eq_refl eq_refl eq_refl eq_refl).
  - exact (Hl (FlowError "unused") eq_refl).
Defined.

Lemma set_scope_ok_inv s w0 w :
  set_scope s w0 = (Ok tt, w) ->
  exists scopes d,
    SCOPES_MAP !! s = Some scopes /\ credentials_dir w0 = Some d
    /\ w = set_credentials_dir
             (Some (mkCredentialsDir (Some s) None (client_secrets_file d))) w0.
Proof.
  intros H. destruct (SCOPES_MAP !! s) as [scopes|] eqn:Hs.
  - destruct (credentials_dir w0) as [d|] eqn:Hd.
    + rewrite (CredentialProofs.set_scope_valid s scopes w0 d Hs Hd) in H.
      injection H as <-. eauto.
    + unfold set_scope in H. rewrite Hs in H.
      unfold bind, write_in_dir in H. rewrite Hd in H. discriminate.
  - unfold set_scope in H. rewrite Hs in H. discriminate.
Qed.

(** X6.  Writing and reading the scope agree: [set_scope] succeeds exactly
    for an enumerated scope in an existing credentials directory, and the
    scope it wrote is the one [get_current_scope] returns afterwards, also
    after any [get_credentials] in between. *)
Theorem scope_round_trip :
  (forall s w0,
      (set_scope s w0).1 = Ok tt
      <-> is_Some (SCOPES_MAP !! s) /\ is_Some (credentials_dir w0))
  /\ (forall s w0 w,
      set_scope s w0 = (Ok tt, w) ->
      get_current_scope w = (Ok s, w)
      /\ forall env manual,
          get_current_scope (get_credentials env manual w).2
          = (Ok s, (get_credentials env manual w).2)).
Proof.
  split.
  - intros s w0. split.
    + intros H. destruct (set_scope s w0) as [r w] eqn:E. simpl in H. subst r.
      destruct (set_scope_ok_inv s w0 w E) as (scopes & d & Hs & Hd & _).
      rewrite Hs, Hd. eauto.
    + intros [[scopes Hs] [d Hd]].
      now rewrite (CredentialProofs.set_scope_valid s scopes w0 d Hs Hd).
  - intros s w0 w H.
    destruct (set_scope_ok_inv s w0 w H) as (scopes & d & Hs & Hd & ->).
    assert (Hcur : current_scope
                     (set_credentials_dir
                        (Some (mkCredentialsDir (Some s) None (client_secrets_file d))) w0)
                   = s).
    { unfold current_scope, scope_text. simpl.
      apply (CredentialProofs.strip_valid_scope s scopes Hs). }
    split.
    + rewrite CredentialProofs.get_current_scope_eq. now rewrite Hcur.
    + intros env manual. rewrite CredentialProofs.get_current_scope_eq.
      f_equal. f_equal.
      destruct (keeps_configuration_get_credentials env manual
                  (set_credentials_dir
                     (Some (mkCredentialsDir (Some s) None (client_secrets_file d))) w0))
        as (Hscope & _).
      unfold current_scope in *. rewrite Hscope. exact Hcur.
Qed.


Example unusable_state_examples :
  let env := collaborators (Ok renewed) (Ok granted) empty_message in
  get_credentials env false
    (world_of (Some (mkCredentialsDir (Some "admin") (Some (Pickled renewed)) true)))
  = (Raise (KeyError "admin"),
     world_of (Some (mkCredentialsDir (Some "admin") (Some (Pickled renewed)) true)))
  /\ get_credentials env false
       (world_of (Some (mkCredentialsDir (Some " full ") (Some Unreadable) true)))
     = (Raise UnpicklingError,
        world_of (Some (mkCredentialsDir (Some " full ") (Some Unreadable) true))).
Proof. split; reflexivity. Qed.

End CredentialFactsProofs.

Module CommandsProofs.
Import Credential CredentialSpec CredentialFacts Commands CredentialFactsProofs.

Lemma unlink_token_run w :
  unlink_token w
  = (Ok tt, match credentials_dir w with
            | Some d => match token_file d with
                        | Some _ => set_credentials_dir (Some (with_token None d)) w
                        | None => w
                        end
            | None => w
            end).
Proof.
  unfold unlink_token. rewrite bind_run. unfold gets, token_content.
  destruct (credentials_dir w) as [d|] eqn:Hd; simpl; [|reflexivity].
  destruct (token_file d); [|reflexivity].
  unfold write_in_dir. now rewrite Hd.
Qed.

Lemma unlink_token_gone w : token_content (unlink_token w).2 = None.
Proof.
  rewrite unlink_token_run. simpl. unfold token_content.
  destruct (credentials_dir w) as [d|] eqn:Hd; simpl; [|now rewrite Hd].
  destruct (token_file d) eqn:Ht; simpl; [reflexivity|]. now rewrite Hd.
Qed.

Lemma unlink_token_same_events w : auth_events (unlink_token w).2 = auth_events w.
Proof.
  rewrite unlink_token_run. simpl.
  destruct (credentials_dir w) as [d|]; [|reflexivity]. now destruct (token_file d).
Qed.

(** Without a token, [get_credentials] adds no refresh. *)
Lemma no_refresh_without_token env manual w :
  token_content w = None ->
  no_new_refresh w (get_credentials env manual w).2.
Proof.
  intros Ht. unfold get_credentials.
  rewrite bind_run, CredentialProofs.get_current_scope_eq, bind_run.
  destruct (SCOPES_MAP !! current_scope w) as [scopes|]; [|intros c H; exact H].
  unfold ret at 1. rewrite bind_run. unfold gets at 1. rewrite bind_run, Ht.
  unfold ret at 1. apply CredentialProofs.authorize_no_refresh.
Qed.

Lemma print_same_events s w : auth_events (print s w).2 = auth_events w.
Proof. reflexivity. Qed.

Lemma cmd_auth_run env manual w :
  cmd_auth env manual w
  = if client_secrets_exists w then
      match get_credentials env manual (unlink_token w).2 with
      | (Ok creds, w2) =>
          if match creds with
             | Some c => valid c
             | None => false
             end
          then (Ok tt,
                after_print ["Scope: " +:+ current_scope w2]
                            (after_print ["Authentication successful!"] w2))
          else (Raise (SystemExit 1), after_print ["Authentication failed."] w2)
      | (Raise e, w2) => (Raise e, w2)
      end
    else (Raise (SystemExit 1),
          after_print ["Error: ~/.gmail_credentials/credentials.json not found. Run 'setup' for instructions."] w).
Proof.
  unfold cmd_auth. rewrite bind_run. unfold gets at 1. rewrite bind_run.
  rewrite CliProofs.require_eq.
  destruct (client_secrets_exists w); [|reflexivity].
  rewrite bind_run, unlink_token_run. cbn [snd]. rewrite bind_run.
  destruct (get_credentials env manual _) as [[creds|e] w2]; [|reflexivity].
  destruct (match creds with Some c => valid c | None => false end); [|reflexivity].
  rewrite bind_run. unfold print at 1, modify. rewrite bind_run.
  now rewrite CredentialProofs.get_current_scope_eq.
Qed.

(** X8.  [cmd_auth] always asks for a new authorization.  Without the
    client secrets it exits with status 1 and leaves the persisted token
    alone.  Otherwise the token file is deleted first, so that no refresh
    exchange is ever made; and the command returns normally only when the
    token file holds a valid handle. *)
Theorem cmd_auth_reauthorizes env manual w :
  (client_secrets_exists w = false ->
   cmd_auth env manual w
   = (Raise (SystemExit 1),
      after_print ["Error: ~/.gmail_credentials/credentials.json not found. Run 'setup' for instructions."] w))
  /\ no_new_refresh w (cmd_auth env manual w).2
  /\ (forall w', cmd_auth env manual w = (Ok tt, w') ->
                 exists c, token_content w' = Some (Pickled c) /\ valid c = true).
Proof.
  rewrite cmd_auth_run.
  destruct (client_secrets_exists w) eqn:Hc.
  2:{ split; [reflexivity|]. split; [intros c H; exact H | discriminate]. }
  split; [discriminate|].
  pose proof (unlink_token_gone w) as Hgone.
  pose proof (unlink_token_same_events w) as Hev.
  pose proof (no_refresh_without_token env manual _ Hgone) as Hno.
  pose proof (get_credentials_persists env manual (unlink_token w).2) as Hper.
  assert (Hnone : forall w2, no_new_refresh (unlink_token w).2 w2 ->
                             forall l, no_new_refresh w (after_print l w2)).
  { intros w2 H l c Hin. simpl in Hin. apply H in Hin. now rewrite Hev in Hin. }
  destruct (get_credentials env manual (unlink_token w).2) as [[[c|]|e] w2];
    simpl in Hno.
  - specialize (Hper c w2 eq_refl). destruct (valid c) eqn:Hv.
    + split.
      * intros c0 Hin. apply (Hnone w2 Hno ["Authentication successful!"] c0).
        exact Hin.
      * intros w' [= <-]. exists c. split; [exact Hper | exact Hv].
    + split; [now apply Hnone | discriminate].
  - split; [now apply Hnone | discriminate].
  - split; [|discriminate]. intros c0 Hin. apply Hno in Hin. now rewrite Hev in Hin.
Qed.

Example cmd_auth_replaces_valid_token :
  let env := collaborators (Ok renewed) (Ok granted) empty_message in
  let r := cmd_auth env false CliSpec.signed_in in
  r.1 = Ok tt
  /\ token_content r.2 = Some (Pickled granted)
  /\ auth_events r.2
     = [LocalServerFlow ["https://www.googleapis.com/auth/gmail.readonly";
                         "https://www.googleapis.com/auth/gmail.modify"]]
  /\ stdout r.2 = ["Authentication successful!"; "Scope: modify"].
Proof. repeat split. Qed.

(** X9.  [cmd_scope --set]: an unknown scope is reported and the command
    exits with status 1 without changing anything persisted; a known one
    is persisted, the token is cleared and three lines are printed; and
    when the credentials directory does not exist the error of the write
    is not caught: it reaches the caller as it is. *)
Theorem cmd_scope_set_outcomes a s w :
  let scope := String a s in
  (SCOPES_MAP !! scope = None ->
   cmd_scope (Some scope) w
   = (Raise (SystemExit 1),
      after_print ["Error: " +:+ invalid_scope_message scope] w))
  /\ (forall scopes d,
      SCOPES_MAP !! scope = Some scopes ->
      credentials_dir w = Some d ->
      cmd_scope (Some scope) w
      = (Ok tt,
         after_print ["Scope set to: " +:+ scope;
                      "Token cleared - re-authentication required.";
                      "Run: python3 gmail_search.py auth"]
           (set_credentials_dir
              (Some (mkCredentialsDir (Some scope) None (client_secrets_file d))) w)))
  /\ (forall scopes,
      SCOPES_MAP !! scope = Some scopes ->
      credentials_dir w = None ->
      cmd_scope (Some scope) w = (Raise (FileNotFoundError SCOPE_FILE), w)).
Proof.
  intros scope. unfold cmd_scope. cbv zeta.
  change (truthy (Some scope)) with true. cbn [default from_option id].
  unfold try_except. rewrite bind_run. split; [|split].
  - intros Hs. unfold set_scope. now rewrite Hs.
  - intros scopes d Hs Hd.
    rewrite (CredentialProofs.set_scope_valid scope scopes w d Hs Hd).
    unfold bind, print, modify, after_print, set_stdout. simpl.
    do 2 f_equal. now rewrite <- !app_assoc.
  - intros scopes Hs Hd. unfold set_scope. rewrite Hs.
    rewrite bind_run. unfold write_in_dir. now rewrite Hd.
Qed.

Example cmd_scope_examples :
  cmd_scope (Some "admin") CliSpec.signed_in
  = (Raise (SystemExit 1),
     after_print
       ["Error: Invalid scope: admin. Choose from: ['readonly', 'modify', 'full']"]
       CliSpec.signed_in)
  /\ (cmd_scope (Some "full") CliSpec.signed_in).1 = Ok tt
  /\ token_content (cmd_scope (Some "full") CliSpec.signed_in).2 = None
  /\ stdout (cmd_scope None CliSpec.signed_in).2
     = ["Current scope: modify";
        PyStr.NL +:+ "Available scopes:";
        "  readonly: https://www.googleapis.com/auth/gmail.readonly";
        "  modify (current): https://www.googleapis.com/auth/gmail.readonly";
        "  full: https://mail.google.com/"].
Proof. repeat split. Qed.

Lemma SCOPES_ITEMS_agree : list_to_map SCOPES_ITEMS = SCOPES_MAP.
Proof. reflexivity. Qed.

Lemma directory_stays_get_credentials env manual w :
  directory_stays w (get_credentials env manual w).2.
Proof.
  revert w. apply (kept_get_credentials directory_stays).
  - intros w H. exact H.
  - intros w1 w2 w3 H12 H23 H. apply H23, H12, H.
  - intros f w H. exact H.
  - intros e w H. exact H.
  - intros w d o _ _. simpl. eauto.
  - intros w _ _. simpl. eauto.
Qed.

Lemma mkdir_run w :
  mkdir_credentials_dir w
  = (Ok tt, match credentials_dir w with
            | Some _ => w
            | None => set_credentials_dir (Some (mkCredentialsDir None None false)) w
            end).
Proof. reflexivity. Qed.

(** X10.  [cmd_setup] makes the credentials directory before anything
    else, so that it exists afterwards however the command ends.  When
    the client secrets are missing, the command only reports: it prints
    the instructions (or the status as JSON), exchanges nothing and
    persists nothing. *)
Theorem cmd_setup_prepares_directory env json_dumps json w :
  is_Some (credentials_dir (cmd_setup env json_dumps json w).2)
  /\ (client_secrets_exists w = false ->
      let w0 := (mkdir_credentials_dir w).2 in
      cmd_setup env json_dumps json w
      = (Ok tt,
         after_print
           [if json then json_dumps (unconfigured_status (current_scope w))
            else setup_instructions (current_scope w)] w0)).
Proof.
  unfold cmd_setup. rewrite bind_run, mkdir_run.
  set (w0 := match credentials_dir w with
             | Some _ => w
             | None => set_credentials_dir (Some (mkCredentialsDir None None false)) w
             end).
  assert (Hdir : is_Some (credentials_dir w0)).
  { subst w0. destruct (credentials_dir w) eqn:E; [rewrite E|simpl]; eauto. }
  assert (Hscope : current_scope w0 = current_scope w).
  { subst w0. unfold current_scope, scope_text.
    destruct (credentials_dir w) eqn:E; simpl; rewrite ?E; reflexivity. }
  assert (Hsecrets : client_secrets_exists w0 = client_secrets_exists w).
  { subst w0. unfold client_secrets_exists.
    destruct (credentials_dir w) eqn:E; simpl; rewrite ?E; reflexivity. }
  rewrite bind_run, CredentialProofs.get_current_scope_eq, bind_run. unfold gets.
  rewrite bind_run, Hscope, Hsecrets. cbn [snd]. split.
  - destruct (client_secrets_exists w); cbn [negb].
    + rewrite bind_run.
      pose proof (directory_stays_get_credentials env false w0 Hdir) as Hstay.
      destruct (get_credentials env false w0) as [[creds|e] w1]; [|exact Hstay].
      cbn [snd] in Hstay.
      destruct (match creds with Some c => valid c | None => false end);
        unfold ret at 1; destruct json; exact Hstay.
    + unfold ret at 1. destruct json; exact Hdir.
  - intros Hc. rewrite Hc. cbn [negb]. unfold ret at 1.
    destruct json; reflexivity.
Qed.

Example cmd_setup_on_a_fresh_machine :
  let env := collaborators (Ok renewed) (Ok granted) empty_message in
  let r := cmd_setup env (fun st => status_scope st) false (world_of None) in
  r.1 = Ok tt
  /\ credentials_dir r.2 = Some (mkCredentialsDir None None false)
  /\ auth_events r.2 = []
  /\ stdout r.2 = [setup_instructions "modify"].
Proof. repeat split. Qed.

End CommandsProofs.

Module ComposeFactsProofs.
Import Credential Compose Cli CliSpec ComposeFacts ReplySpec CredentialFacts CredentialFactsProofs.

(** *** The address a reply goes to *)

Lemma search_angle_none s :
  ~ In "<"%char (DownloadSpec.chars s) -> Re.search_angle_group s = None.
Proof.
  induction s as [|c r IH]; intros H; [reflexivity|].
  cbn [Re.search_angle_group].
  destruct (Ascii.eqb_spec c "<"%char) as [->|Hne].
  - exfalso. apply H. now left.
  - apply IH. intros Hin. apply H. now right.
Qed.

Lemma lazy_until_gt_found t rest :
  ~ In ">"%char (DownloadSpec.chars t) ->
  ~ In (PyStr.byte 10) (DownloadSpec.chars t) ->
  Re.lazy_until_gt (t +:+ ">" +:+ rest) = Some t.
Proof.
  induction t as [|c r IH]; intros Hgt Hnl; [reflexivity|].
  change (String c r +:+ ">" +:+ rest) with (String c (r +:+ ">" +:+ rest)).
  cbn [Re.lazy_until_gt].
  destruct (Ascii.eqb_spec c ">"%char) as [->|_].
  { exfalso. apply Hgt. now left. }
  destruct (Ascii.eqb_spec c (PyStr.byte 10)) as [->|_].
  { exfalso. apply Hnl. now left. }
  rewrite IH; [reflexivity | |]; intros Hin; [apply Hgt | apply Hnl]; now right.
Qed.

Lemma search_angle_found name a t rest :
  ~ In "<"%char (DownloadSpec.chars name) ->
  a <> PyStr.byte 10 ->
  ~ In ">"%char (DownloadSpec.chars t) ->
  ~ In (PyStr.byte 10) (DownloadSpec.chars t) ->
  Re.search_angle_group (name +:+ "<" +:+ String a t +:+ ">" +:+ rest)
  = Some (String a t).
Proof.
  intros Hname Ha Hgt Hnl.
  induction name as [|c r IH].
  - change (Re.search_angle_group ("" +:+ "<" +:+ String a t +:+ ">" +:+ rest))
      with (match Re.angle_group_here (String a (t +:+ ">" +:+ rest)) with
            | Some g => Some g
            | None => Re.search_angle_group (String a (t +:+ ">" +:+ rest))
            end).
    cbn [Re.angle_group_here].
    destruct (Ascii.eqb_spec a (PyStr.byte 10)) as [->|_]; [congruence|].
    now rewrite lazy_until_gt_found.
  - change (String c r +:+ "<" +:+ String a t +:+ ">" +:+ rest)
      with (String c (r +:+ "<" +:+ String a t +:+ ">" +:+ rest)).
    cbn [Re.search_angle_group].
    destruct (Ascii.eqb_spec c "<"%char) as [->|_].
    { exfalso. apply Hname. now left. }
    apply IH. intros Hin. apply Hname. now right.
Qed.

Lemma reply_to_eq msg :
  reply_to (reply_context msg)
  = let original_from :=
        default EmptyString (last_header (message_headers msg) "From") in
    default original_from (Re.search_angle_group original_from).
Proof.
  unfold reply_context, message_headers; cbn [reply_to].
  now rewrite ReplyProofs.get_header.
Qed.

(** X11.  The address a reply goes to: for a From header of the form
    [name <address> rest], with no ['<'] in the name and an address of at
    least one character without ['>'] or newline, it is the address
    between the brackets; for a From header without ['<'] it is the
    header as it stands; for a message without From header it is empty. *)
Theorem reply_goes_to_bracketed_address msg :
  (forall name a t rest,
      last_header (message_headers msg) "From"
      = Some (name +:+ "<" +:+ String a t +:+ ">" +:+ rest) ->
      ~ In "<"%char (DownloadSpec.chars name) ->
      ~ In ">"%char (DownloadSpec.chars (String a t)) ->
      ~ In (PyStr.byte 10) (DownloadSpec.chars (String a t)) ->
      reply_to (reply_context msg) = String a t)
  /\ (forall original_from,
      last_header (message_headers msg) "From" = Some original_from ->
      ~ In "<"%char (DownloadSpec.chars original_from) ->
      reply_to (reply_context msg) = original_from)
  /\ (last_header (message_headers msg) "From" = None ->
      reply_to (reply_context msg) = EmptyString).
Proof.
  rewrite reply_to_eq. split; [|split].
  - intros name a t rest Hfrom Hname Hgt Hnl. rewrite Hfrom. cbv zeta.
    unfold default. cbn [from_option id].
    rewrite search_angle_found; [reflexivity | exact Hname | | |].
    + intros ->. apply Hnl. now left.
    + intros H. apply Hgt. now right.
    + intros H. apply Hnl. now right.
  - intros original_from Hfrom Hno. rewrite Hfrom. cbv zeta.
    unfold default. cbn [from_option id].
    now rewrite search_angle_none.
  - intros Hfrom. now rewrite Hfrom.
Qed.

Example reply_goes_to_alice :
  reply_to (reply_context from_alice) = "alice@example.org"
  /\ reply_to (reply_context (message_with [("From", "alice@example.org")]))
     = "alice@example.org".
Proof. split; reflexivity. Qed.

(** *** What the send and draft commands do with the mail service *)

Lemma print_run s w : print s w = (Ok tt, after_print [s] w).
Proof. reflexivity. Qed.

Lemma call_run {A} r (answer : res A) w : call r answer w = (answer, after_call r w).
Proof. reflexivity. Qed.

Lemma after_call_print r l w :
  after_call r (after_print l w) = after_print l (after_call r w).
Proof. reflexivity. Qed.


Lemma requests_after_call r w : requests (after_call r w) = (requests w ++ [r])%list.
Proof. reflexivity. Qed.

Lemma check_each_pass label emails w :
  forallb validate_email emails = true -> check_each label emails w = (Ok tt, w).
Proof.
  induction emails as [|x l IH]; intros H; [reflexivity|].
  cbn [forallb] in H. apply andb_prop in H as [Hx Hl].
  cbn [check_each]. rewrite bind_run, CliProofs.require_eq, Hx. now apply IH.
Qed.

Lemma check_list_pass label field w :
  forallb validate_email (listed field) = true -> check_list label field w = (Ok tt, w).
Proof.
  unfold check_list, listed. destruct (truthy field); [apply check_each_pass | reflexivity].
Qed.

Lemma validate_email_nonempty s : validate_email s = true -> truthy (Some s) = true.
Proof. destruct s; [discriminate | reflexivity]. Qed.

Lemma validate_fields_pass_recipients args w :
  recipients_ok args = true ->
  validate_fields args w
  = bind (require (truthy (Some (arg_subject args))) "Error: --subject is required")
         (fun _ => require (truthy (Some (arg_body args))) "Error: --body is required") w.
Proof.
  unfold recipients_ok. intros H.
  apply andb_prop in H as [H Hbcc]. apply andb_prop in H as [Hto Hcc].
  unfold validate_fields.
  rewrite bind_run, CliProofs.require_eq, (validate_email_nonempty _ Hto).
  rewrite bind_run, CliProofs.require_eq, Hto.
  rewrite bind_run, (check_list_pass _ _ _ Hcc).
  now rewrite bind_run, (check_list_pass _ _ _ Hbcc).
Qed.

Lemma validate_fields_pass args w :
  fields_ok args = true -> validate_fields args w = (Ok tt, w).
Proof.
  unfold fields_ok. intros H.
  apply andb_prop in H as [H Hbody]. apply andb_prop in H as [Hr Hsubject].
  rewrite (validate_fields_pass_recipients _ _ Hr).
  rewrite bind_run, CliProofs.require_eq, Hsubject.
  now rewrite CliProofs.require_eq, Hbody.
Qed.

Lemma validate_fields_ok args w :
  (validate_fields args w).1 = Ok tt -> fields_ok args = true.
Proof.
  unfold fields_ok. intros H.
  destruct (CliProofs.validate_fields_outcome args w) as (_ & Hbad & _).
  destruct (recipients_ok args) eqn:Hr.
  2:{ specialize (Hbad eq_refl). rewrite H in Hbad. destruct Hbad. }
  rewrite (validate_fields_pass_recipients args w Hr) in H.
  revert H. rewrite bind_run, CliProofs.require_eq.
  destruct (truthy (Some (arg_subject args))); [|discriminate].
  rewrite CliProofs.require_eq.
  destruct (truthy (Some (arg_body args))); [reflexivity | discriminate].
Qed.

Lemma authenticated_run env w c w1 :
  get_credentials env false w = (Ok (Some c), w1) -> authenticated env w = (Ok c, w1).
Proof. intros H. unfold authenticated. now rewrite bind_run, H. Qed.

Lemma guarded_run {A} env args (rest : M A) w c w1 :
  get_credentials env false w = (Ok (Some c), w1) ->
  fields_ok args = true ->
  bind (authenticated env) (fun _ => bind (validate_fields args) (fun _ => rest)) w
  = rest w1.
Proof.
  intros Hc Hok.
  now rewrite bind_run, (authenticated_run _ _ _ _ Hc), bind_run, validate_fields_pass.
Qed.

Lemma except_http_call {A} r (answer : res A) (k : A -> M unit) lines w :
  (forall a w0, k a w0 = (Ok tt, after_print (lines a) w0)) ->
  except_http (bind (call r answer) k) w = served r answer lines w.
Proof.
  intros Hk. unfold except_http, try_except, served.
  rewrite bind_run, call_run.
  destruct answer as [a|e]; [now rewrite Hk|].
  destruct (is_HttpError e); reflexivity.
Qed.

Lemma print_recipients_run args w :
  print_recipients args w = (Ok tt, after_print (recipient_lines args) w).
Proof.
  unfold print_recipients, recipient_lines.
  rewrite bind_run, print_run, bind_run.
  assert (Hif : forall (b : bool) s w0,
             (if b then print s else ret tt) w0
             = (Ok tt, after_print (if b then [s] else []) w0)).
  { intros [] s w0; [reflexivity | now rewrite after_print_nil]. }
  rewrite Hif, bind_run, Hif, print_run, !after_print_app. reflexivity.
Qed.

Lemma send_report_run env args result w :
  (if arg_json args then print (json_dumps_send env result)
   else bind (print "✓ Email sent successfully!")
          (fun _ => bind (print ("Message ID: " +:+ sent_id result))
          (fun _ => bind (print ("Thread ID: " +:+ sent_threadId result))
          (fun _ => print_recipients args)))) w
  = (Ok tt, after_print (sent_lines env args result) w).
Proof.
  unfold sent_lines. destruct (arg_json args); [reflexivity|].
  do 3 (rewrite bind_run, print_run; cbv beta iota).
  now rewrite print_recipients_run, !after_print_app.
Qed.

Lemma draft_report_run env args result w :
  (if arg_json args then print (json_dumps_draft env result)
   else bind (print "✓ Draft created successfully!")
          (fun _ => bind (print ("Draft ID: " +:+ draft_id result))
          (fun _ => bind (print ("Message ID: " +:+ draft_message_id result))
          (fun _ => print_recipients args)))) w
  = (Ok tt, after_print (draft_lines env args result) w).
Proof.
  unfold draft_lines. destruct (arg_json args); [reflexivity|].
  do 3 (rewrite bind_run, print_run; cbv beta iota).
  now rewrite print_recipients_run, !after_print_app.
Qed.

Lemma requests_served {A} r (answer : res A) lines w :
  requests (served r answer lines w).2 = (requests w ++ [r])%list.
Proof.
  unfold served. destruct answer as [a|e]; [reflexivity|].
  destruct (is_HttpError e); reflexivity.
Qed.





Lemma guarded_stops {A} env args (rest : M A) w :
  (forall c w1, get_credentials env false w = (Ok (Some c), w1) -> fields_ok args = false) ->
  requests (bind (authenticated env)
              (fun _ => bind (validate_fields args) (fun _ => rest)) w).2
  = requests w.
Proof.
  intros Hstop. rewrite bind_run.
  pose proof (CliProofs.same_requests_authenticated env w) as Ha.
  unfold authenticated in *. rewrite bind_run in *.
  destruct (get_credentials env false w) as [[[c|]|e] w1] eqn:Hc; try exact Ha.
  specialize (Hstop c w1 eq_refl).
  unfold ret in *. cbn [fst snd] in *. rewrite bind_run.
  destruct (CliProofs.validate_fields_outcome args w1) as (Hv & _).
  pose proof (validate_fields_ok args w1) as Hok.
  destruct (validate_fields args w1) as [[[]|e] w2]; cbn [fst snd] in *.
  - rewrite Hok in Hstop by reflexivity. discriminate.
  - unfold same_requests in *. congruence.
Qed.

(** X14.  Whatever the state and the answers of the collaborators,
    [cmd_send] makes at most one call to the mail service, the send of
    the composed message, and [cmd_draft] at most one, the creation of
    its draft; either makes its call only when every field is in order. *)
Theorem send_and_draft_call_at_most_once env args w :
  (exists l, requests (cmd_send env args w).2 = (requests w ++ l)%list
             /\ (l = [] \/ fields_ok args = true /\ l = [MessagesSend (message_of args)]))
  /\ (exists l, requests (cmd_draft env args w).2 = (requests w ++ l)%list
                /\ (l = [] \/ fields_ok args = true
                               /\ l = [DraftsCreate (message_of args)])).
Proof.
  pose proof (CliProofs.same_requests_get_credentials env false w) as Hsame.
  destruct (fields_ok args) eqn:Hok.
  - destruct (get_credentials env false w) as [[[c|]|e] w1] eqn:Hc.
    + unfold cmd_send, cmd_draft.
      rewrite !(guarded_run _ _ _ _ _ _ Hc Hok). cbv zeta.
      rewrite (except_http_call _ _ _ (sent_lines env args))
        by (intros; apply send_report_run).
      rewrite (except_http_call _ _ _ (draft_lines env args))
        by (intros; apply draft_report_run).
      rewrite !requests_served. cbn [snd] in Hsame. rewrite Hsame.
      split; eexists; (split; [reflexivity|]); right; split; reflexivity.
    + split; exists []; rewrite app_nil_r; (split; [|now left]);
        apply guarded_stops; intros c0 w0 H; rewrite Hc in H; discriminate.
    + split; exists []; rewrite app_nil_r; (split; [|now left]);
        apply guarded_stops; intros c0 w0 H; rewrite Hc in H; discriminate.
  - split; exists []; rewrite app_nil_r; (split; [|now left]);
      apply guarded_stops; intros c w1 H; exact Hok.
Qed.

(** *** What the reply command does with the mail service *)






(** *** The reply that is composed *)

(** X17.  The reply composed for a fetched original is threaded: it is
    filed in the thread of the original when that has an identifier; it
    is addressed to the reply address, from [me], under the reply
    subject, with no copy; its In-Reply-To header is the Message-ID of
    the original, and its References header the earlier references
    followed by that Message-ID; without a Message-ID it has neither. *)
Theorem reply_is_threaded args msg :
  let out := reply_message args msg in
  out_threadId out = thread_of msg
  /\ header out "To" = Some (reply_to (reply_context msg))
  /\ header out "From" = Some "me"
  /\ header out "Subject" = Some (reply_subject (reply_context msg))
  /\ header out "Cc" = None
  /\ header out "Bcc" = None
  /\ header out "In-Reply-To" = existing msg "Message-ID"
  /\ header out "References"
     = match existing msg "Message-ID" with
       | Some message_id =>
           Some match existing msg "References" with
                | Some prior => prior +:+ " " +:+ message_id
                | None => message_id
                end
       | None => None
       end
  /\ mime_text (raw out) = reply_arg_body args.
Proof.
  intros out. subst out.
  split.
  { unfold reply_message, create_message, thread_of, reply_context.
    cbn [out_threadId reply_thread_id]. now destruct (threadId msg) as [[|a t]|]. }
  do 3 (split; [reflexivity|]).
  unfold reply_message, create_message, header, existing, reply_context, message_headers.
  cbn [reply_to reply_subject reply_message_id reply_references reply_thread_id
       raw mime_headers mime_text].
  rewrite !ReplyProofs.get_header.
  destruct (last_header (default [] (payload msg ≫= headers)) "Message-ID")
    as [[|a m]|];
    destruct (last_header (default [] (payload msg ≫= headers)) "References")
      as [[|b r]|];
    repeat split; reflexivity.
Qed.

End ComposeFactsProofs.

(** ** The addresses [validate_email] accepts *)

Module EmailProofs.
Import Compose EmailSpec.

Lemma append_empty_r s : s +:+ "" = s.
Proof.
  induction s as [|c s IH]; [reflexivity|].
  change (String c (s +:+ "") = String c s). now rewrite IH.
Qed.

Lemma append_empty a b : a +:+ b = "" -> a = "" /\ b = "".
Proof.
  destruct a as [|c a]; intros H.
  - split; [reflexivity | exact H].
  - change (String c (a +:+ b) = "") in H. discriminate.
Qed.

Lemma nullable_matches r : Re.nullable r = true <-> matches r "".
Proof.
  split.
  - induction r as [| |cls|r1 IH1 r2 IH2|r1 IH1 r2 IH2|r IH]; cbn [Re.nullable]; intros H;
      try discriminate.
    + constructor.
    + apply andb_prop in H as [H1 H2].
      exact (matches_cat r1 r2 "" "" (IH1 H1) (IH2 H2)).
    + apply orb_prop in H as [H|H]; [apply matches_alt_l | apply matches_alt_r]; auto.
    + constructor.
  - intros H. remember "" as s eqn:Hs.
    induction H as [|cls c Hc|r1 r2 s1 s2 H1 IH1 H2 IH2|r1 r2 s H IH|r1 r2 s H IH
                    |r|r s1 s2 H1 IH1 H2 IH2]; cbn [Re.nullable]; try reflexivity.
    + discriminate.
    + apply append_empty in Hs as [-> ->]. now rewrite IH1, IH2.
    + now rewrite IH.
    + rewrite IH by assumption. apply orb_true_r.
Qed.

Lemma matches_eps_inv s : matches Re.Eps s -> s = "".
Proof. intros H. now inversion H. Qed.

Lemma matches_void_inv s : matches Re.Void s -> False.
Proof. intros H. inversion H. Qed.

Lemma matches_chr_inv cls s :
  matches (Re.Chr cls) s -> exists c, s = String c "" /\ cls c = true.
Proof. intros H. inversion H; subst. eauto. Qed.

Lemma matches_cat_inv r1 r2 s :
  matches (Re.Cat r1 r2) s ->
  exists s1 s2, s = s1 +:+ s2 /\ matches r1 s1 /\ matches r2 s2.
Proof. intros H. inversion H; subst. eauto. Qed.

Lemma matches_alt_inv r1 r2 s :
  matches (Re.Alt r1 r2) s -> matches r1 s \/ matches r2 s.
Proof. intros H. inversion H; subst; auto. Qed.

Lemma matches_deriv c r s : matches r (String c s) -> matches (Re.deriv c r) s.
Proof.
  revert s. induction r as [| |cls|r1 IH1 r2 IH2|r1 IH1 r2 IH2|r IH]; intros s H;
    cbn [Re.deriv].
  - inversion H.
  - inversion H.
  - apply matches_chr_inv in H as (c' & Heq & Hc). injection Heq as -> ->.
    rewrite Hc. constructor.
  - apply matches_cat_inv in H as (s1 & s2 & Heq & H1 & H2).
    destruct s1 as [|c1 s1].
    + change (String c s = s2) in Heq. subst s2.
      apply nullable_matches in H1. rewrite H1. apply matches_alt_r. now apply IH2.
    + change (String c s = String c1 (s1 +:+ s2)) in Heq. injection Heq as <- ->.
      assert (Hcat : matches (Re.Cat (Re.deriv c r1) r2) (s1 +:+ s2))
        by (constructor; [now apply IH1 | assumption]).
      destruct (Re.nullable r1); [now apply matches_alt_l | exact Hcat].
  - apply matches_alt_inv in H as [H|H]; [apply matches_alt_l | apply matches_alt_r]; auto.
  - remember (Re.Star r) as sr eqn:Hsr. remember (String c s) as cs eqn:Hcs.
    revert s Hcs.
    induction H as [| | | | | |r' s1 s2 H1 _ H2 IHstar]; intros s0 Hcs; try discriminate.
    injection Hsr as ->.
    destruct s1 as [|c1 s1].
    + change (s2 = String c s0) in Hcs. now apply IHstar.
    + change (String c1 (s1 +:+ s2) = String c s0) in Hcs. injection Hcs as -> <-.
      constructor; [now apply IH | assumption].
Qed.

Lemma deriv_matches c r s : matches (Re.deriv c r) s -> matches r (String c s).
Proof.
  revert s. induction r as [| |cls|r1 IH1 r2 IH2|r1 IH1 r2 IH2|r IH]; intros s H;
    cbn [Re.deriv] in H.
  - inversion H.
  - inversion H.
  - destruct (cls c) eqn:Hc; [|inversion H].
    apply matches_eps_inv in H as ->. now constructor.
  - assert (Hleft : forall s0, matches (Re.Cat (Re.deriv c r1) r2) s0 ->
                               matches (Re.Cat r1 r2) (String c s0)).
    { intros s0 H0. apply matches_cat_inv in H0 as (s1 & s2 & -> & H1 & H2).
      exact (matches_cat r1 r2 (String c s1) s2 (IH1 _ H1) H2). }
    destruct (Re.nullable r1) eqn:Hn; [|now apply Hleft].
    apply matches_alt_inv in H as [H|H]; [now apply Hleft|].
    apply nullable_matches in Hn.
    exact (matches_cat r1 r2 "" (String c s) Hn (IH2 _ H)).
  - apply matches_alt_inv in H as [H|H]; [apply matches_alt_l | apply matches_alt_r]; auto.
  - apply matches_cat_inv in H as (s1 & s2 & -> & H1 & H2).
    exact (matches_star_cons r (String c s1) s2 (IH _ H1) H2).
Qed.

Lemma fullmatch_matches r s : Re.fullmatch r s = true <-> matches r s.
Proof.
  revert r. induction s as [|c s IH]; intros r; cbn [Re.fullmatch].
  - apply nullable_matches.
  - rewrite IH. split; [apply deriv_matches | apply matches_deriv].
Qed.

Lemma star_class cls s : matches (Re.Star (Re.Chr cls)) s <-> all_in cls s = true.
Proof.
  split.
  - intros H. remember (Re.Star (Re.Chr cls)) as r eqn:Hr.
    induction H as [| | | | | |r' s1 s2 H1 _ H2 IH]; try discriminate; [reflexivity|].
    injection Hr as ->.
    apply matches_chr_inv in H1 as (c & -> & Hc).
    change (cls c && all_in cls s2 = true). now rewrite Hc, IH.
  - induction s as [|c s IH]; intros H; [constructor|].
    change (cls c && all_in cls s = true) in H. apply andb_prop in H as [Hc Hs].
    exact (matches_star_cons _ (String c "") s (matches_chr cls c Hc) (IH Hs)).
Qed.

Lemma plus_class cls s :
  matches (Re.Plus (Re.Chr cls)) s <-> s <> "" /\ all_in cls s = true.
Proof.
  unfold Re.Plus. split.
  - intros H. apply matches_cat_inv in H as (s1 & s2 & -> & H1 & H2).
    apply matches_chr_inv in H1 as (c & -> & Hc). apply star_class in H2.
    split; [discriminate|]. change (cls c && all_in cls s2 = true). now rewrite Hc, H2.
  - intros [Hne H]. destruct s as [|c s]; [congruence|].
    change (cls c && all_in cls s = true) in H. apply andb_prop in H as [Hc Hs].
    apply star_class in Hs.
    exact (matches_cat _ _ (String c "") s (matches_chr cls c Hc) Hs).
Qed.

Lemma literal_matches a s : matches (Re.Chr (Ascii.eqb a)) s <-> s = String a "".
Proof.
  split.
  - intros H. apply matches_chr_inv in H as (c & -> & Hc).
    apply Ascii.eqb_eq in Hc. now subst.
  - intros ->. constructor. apply Ascii.eqb_refl.
Qed.

Lemma dollar_matches s : matches Re.Dollar s <-> s = "" \/ s = PyStr.NL.
Proof.
  unfold Re.Dollar. split.
  - intros H. apply matches_alt_inv in H as [H|H].
    + left. now apply matches_eps_inv.
    + right. now apply literal_matches.
  - intros [-> | ->]; [apply matches_alt_l; constructor|].
    apply matches_alt_r. now apply literal_matches.
Qed.

Lemma email_pattern_matches s :
  matches email_pattern s
  <-> exists l d t e,
        s = l +:+ "@" +:+ d +:+ "." +:+ t +:+ e
        /\ l <> "" /\ all_in local_class l = true
        /\ d <> "" /\ all_in domain_class d = true
        /\ (2 <= String.length t)%nat /\ all_in Re.alpha t = true
        /\ (e = "" \/ e = PyStr.NL).
Proof.
  unfold email_pattern. split.
  - intros H.
    apply matches_cat_inv in H as (l & s2 & -> & Hl & H).
    apply matches_cat_inv in H as (at_ & s3 & -> & Hat & H).
    apply matches_cat_inv in H as (d & s4 & -> & Hd & H).
    apply matches_cat_inv in H as (dot & s5 & -> & Hdot & H).
    apply matches_cat_inv in H as (a1 & s6 & -> & H1 & H).
    apply matches_cat_inv in H as (a2 & s7 & -> & H2 & H).
    apply matches_cat_inv in H as (tl & e & -> & Htl & He).
    apply plus_class in Hl as [Hl1 Hl2]. apply plus_class in Hd as [Hd1 Hd2].
    apply literal_matches in Hat as ->. apply literal_matches in Hdot as ->.
    apply matches_chr_inv in H1 as (c1 & -> & Hc1).
    apply matches_chr_inv in H2 as (c2 & -> & Hc2).
    apply star_class in Htl. apply dollar_matches in He.
    exists l, d, (String c1 (String c2 tl)), e.
    split; [reflexivity|]. do 4 (split; [assumption|]).
    split; [cbn; lia|]. split; [|assumption].
    change (Re.alpha c1 && (Re.alpha c2 && all_in Re.alpha tl) = true).
    now rewrite Hc1, Hc2, Htl.
  - intros (l & d & t & e & -> & Hl1 & Hl2 & Hd1 & Hd2 & Hlen & Ht & He).
    destruct t as [|c1 [|c2 tl]]; [cbn in Hlen; lia | cbn in Hlen; lia |].
    change (Re.alpha c1 && (Re.alpha c2 && all_in Re.alpha tl) = true) in Ht.
    apply andb_prop in Ht as [Hc1 Ht]. apply andb_prop in Ht as [Hc2 Htl].
    change (l +:+ "@" +:+ d +:+ "." +:+ String c1 (String c2 tl) +:+ e)
      with (l +:+ "@" +:+ d +:+ "." +:+ String c1 "" +:+ String c2 "" +:+ tl +:+ e).
    constructor; [now apply plus_class|].
    constructor; [now apply literal_matches|].
    constructor; [now apply plus_class|].
    constructor; [now apply literal_matches|].
    constructor; [now constructor|].
    constructor; [now constructor|].
    constructor; [now apply star_class | now apply dollar_matches].
Qed.

(** *** What [strip] leaves at the end *)

Lemma rstrip_rev_head l a r :
  PyStr.rstrip_rev l = a :: r -> PyStr.ascii_space a = false.
Proof.
  remember (length l) as n eqn:Hn. revert l Hn a r.
  induction n as [n IH] using lt_wf_ind. intros l Hn a r H.
  destruct l as [|x l1]; [discriminate|].
  cbn [PyStr.rstrip_rev] in H. cbn [length] in Hn.
  destruct (PyStr.ascii_space x) eqn:Hx.
  { apply (IH (length l1)) with (l := l1) (r := r); [lia | reflexivity | exact H]. }
  destruct l1 as [|y l2]; [injection H as <- _; exact Hx|].
  cbn [length] in Hn.
  destruct (PyStr.space2 (N_of_ascii y) (N_of_ascii x)).
  { apply (IH (length l2)) with (l := l2) (r := r); [lia | reflexivity | exact H]. }
  destruct l2 as [|z l3]; [injection H as <- _; exact Hx|].
  cbn [length] in Hn.
  destruct (PyStr.space3 (N_of_ascii z) (N_of_ascii y) (N_of_ascii x)).
  { apply (IH (length l3)) with (l := l3) (r := r); [lia | reflexivity | exact H]. }
  injection H as <- _; exact Hx.
Qed.

Lemma strip_last s x c : PyStr.strip s = x +:+ String c "" -> PyStr.ascii_space c = false.
Proof.
  unfold PyStr.strip, PyStr.rstrip. intros H.
  apply (f_equal list_ascii_of_string) in H.
  rewrite list_ascii_of_string_of_list_ascii in H.
  change (list_ascii_of_string (x +:+ String c ""))
    with (DownloadSpec.chars (x +:+ String c "")) in H.
  rewrite DownloadProofs.chars_app in H. cbn [DownloadSpec.chars list_ascii_of_string] in H.
  apply (f_equal (@rev ascii)) in H. rewrite rev_involutive, rev_unit in H.
  exact (rstrip_rev_head _ _ _ H).
Qed.

(** X18.  [validate_email] accepts exactly the strings that, once the
    white space around them is stripped, read [local@domain.tld]: a local
    part of at least one character among the letters, digits and
    [._%+-], an [@], a domain of at least one character among the
    letters, digits and [.-], a dot, and at least two letters. *)
Theorem validate_email_accepts_well_formed email :
  validate_email email = true <-> well_formed (PyStr.strip email).
Proof.
  unfold validate_email, well_formed.
  rewrite fullmatch_matches, email_pattern_matches. split.
  - intros (l & d & t & e & Hs & Hl1 & Hl2 & Hd1 & Hd2 & Hlen & Ht & [-> | ->]).
    + rewrite append_empty_r in Hs. exists l, d, t. tauto.
    + exfalso.
      assert (Hend : PyStr.strip email
                     = (l +:+ "@" +:+ d +:+ "." +:+ t) +:+ String (PyStr.byte 10) "").
      { rewrite Hs. now rewrite !DownloadProofs.app_assoc_s. }
      apply strip_last in Hend. discriminate.
  - intros (l & d & t & Hs & H). exists l, d, t, "".
    rewrite append_empty_r. tauto.
Qed.

Example validate_email_examples :
  validate_email "  alice.smith+tag@mail.example.org " = true
  /\ validate_email "a..b@-.co" = true
  /\ validate_email "alice@example" = false
  /\ validate_email "alice@example.c" = false
  /\ validate_email "alice@@example.org" = false
  /\ validate_email "Alice <alice@example.org>" = false
  /\ validate_email "" = false.
Proof. repeat split; reflexivity. Qed.

End EmailProofs.

(** ** The download command *)

Module DownloadCommandProofs.
Import Credential Pathlib Download Codec Cli CliSpec DownloadSpec DownloadCommand.
Import CredentialFacts CredentialFactsProofs ComposeFacts ComposeFactsProofs.

Lemma download_attachment_cases env msg_id attachment_id filename output_dir w :
  download_attachment env msg_id attachment_id filename output_dir w
  = let called := after_call (AttachmentsGet msg_id attachment_id) w in
    match attachments_get env msg_id attachment_id with
    | Raise e => (Raise e, called)
    | Ok None => (Raise (KeyError "data"), called)
    | Ok (Some d) =>
        match Base64.urlsafe_b64decode d with
        | Raise e => (Raise e, called)
        | Ok bytes =>
            let p := free_path (files w) output_dir filename in
            if is_dir (files w) (parent p)
            then (Ok (str p), after_download msg_id attachment_id (str p) bytes w)
            else (Raise (FileNotFoundError (str p)), called)
        end
    end.
Proof.
  unfold download_attachment. rewrite bind_run, call_run. cbv zeta.
  destruct (attachments_get env msg_id attachment_id) as [[d|]|e]; try reflexivity.
  rewrite bind_run. unfold ret at 1. rewrite bind_run. unfold lift at 1.
  destruct (Base64.urlsafe_b64decode d) as [bytes|e]; [|reflexivity].
  rewrite bind_run. unfold gets at 1. rewrite bind_run. unfold write_bytes.
  change (files (after_call (AttachmentsGet msg_id attachment_id) w)) with (files w).
  destruct (is_dir (files w) (parent (free_path (files w) output_dir filename)));
    reflexivity.
Qed.

Lemma free_path_is_free fs output_dir filename :
  fs !! str (free_path fs output_dir filename) = None.
Proof.
  destruct (DownloadProofs.free_path_spec fs output_dir filename) as (k & -> & Hfree & _).
  apply not_true_iff_false in Hfree. rewrite DownloadProofs.exists_lookup in Hfree.
  destruct (fs !! str (candidate output_dir filename k)); [|reflexivity].
  exfalso. apply Hfree. eauto.
Qed.

Lemma keeps_entries_refl w : keeps_entries w w.
Proof. intros p e H. exact H. Qed.

Lemma keeps_entries_trans w1 w2 w3 :
  keeps_entries w1 w2 -> keeps_entries w2 w3 -> keeps_entries w1 w3.
Proof. intros H12 H23 p e H. apply H23, H12, H. Qed.

Lemma keeps_entries_same w w' : files w' = files w -> keeps_entries w w'.
Proof. intros E p e H. now rewrite E. Qed.

Lemma download_attachment_outcome env msg_id attachment_id filename output_dir w :
  let r := download_attachment env msg_id attachment_id filename output_dir w in
  requests r.2 = (requests w ++ [AttachmentsGet msg_id attachment_id])%list
  /\ keeps_entries w r.2
  /\ (forall path, r.1 = Ok path ->
        files w !! path = None
        /\ exists bytes, files r.2 = <[path := File bytes]> (files w))
  /\ (raises r.1 -> files r.2 = files w).
Proof.
  cbv zeta. rewrite download_attachment_cases. cbv zeta.
  assert (Hfail : forall e,
             let r := (@Raise string e, after_call (AttachmentsGet msg_id attachment_id) w) in
             requests r.2 = (requests w ++ [AttachmentsGet msg_id attachment_id])%list
             /\ keeps_entries w r.2
             /\ (forall path, r.1 = Ok path ->
                   files w !! path = None
                   /\ exists bytes, files r.2 = <[path := File bytes]> (files w))
             /\ (raises r.1 -> files r.2 = files w)).
  { intros e. cbv zeta. cbn [fst snd].
    split; [reflexivity|]. split; [now apply keeps_entries_same|].
    split; [discriminate | reflexivity]. }
  destruct (attachments_get env msg_id attachment_id) as [[d|]|e]; try apply Hfail.
  destruct (Base64.urlsafe_b64decode d) as [bytes|e]; try apply Hfail.
  destruct (is_dir (files w) (parent (free_path (files w) output_dir filename)));
    try apply Hfail.
  cbn [fst snd]. pose proof (free_path_is_free (files w) output_dir filename) as Hfree.
  split; [reflexivity|]. split; [|split].
  - intros p e H. change (<[str (free_path (files w) output_dir filename) := File bytes]>
                            (files w) !! p = Some e).
    rewrite lookup_insert_ne; [exact H|]. intros E. rewrite E in Hfree. congruence.
  - intros path [= <-]. split; [exact Hfree|]. now exists bytes.
  - intros [].
Qed.

(** X19.  However it ends, [download_attachment] makes exactly one call,
    the fetch of the attachment, and changes or removes nothing that was
    in the file system: when it returns a path, nothing was at that path
    before and the file it wrote there is the only change; when it
    raises, the file system is as it was. *)
Theorem download_attachment_never_overwrites env msg_id attachment_id filename output_dir w :
  let r := download_attachment env msg_id attachment_id filename output_dir w in
  requests r.2 = (requests w ++ [AttachmentsGet msg_id attachment_id])%list
  /\ (forall p e, files w !! p = Some e -> files r.2 !! p = Some e)
  /\ (forall path, r.1 = Ok path ->
        files w !! path = None
        /\ exists bytes, files r.2 = <[path := File bytes]> (files w))
  /\ (raises r.1 -> files r.2 = files w).
Proof. apply download_attachment_outcome. Qed.

(** X20.  A file name that is an absolute path leaves the output
    directory: [download_attachment] writes the file at that path,
    whatever the output directory is, when nothing is there yet and the
    directory the path names exists. *)
Theorem anchored_filename_leaves_output_dir
        env msg_id attachment_id filename output_dir data bytes w :
  parse_anchor filename <> EmptyString ->
  exists_ (files w) (Path filename) = false ->
  is_dir (files w) (parent (Path filename)) = true ->
  attachments_get env msg_id attachment_id = Ok (Some data) ->
  Base64.urlsafe_b64decode data = Ok bytes ->
  download_attachment env msg_id attachment_id filename output_dir w
  = (Ok (str (Path filename)),
     after_download msg_id attachment_id (str (Path filename)) bytes w).
Proof.
  intros Ha Hfree Hdir Hget Hdec.
  rewrite download_attachment_cases, Hget, Hdec. cbv zeta.
  assert (Hp : free_path (files w) output_dir filename = Path filename).
  { unfold free_path. cbn [while_exists].
    assert (Ht : truediv (Path output_dir) filename = Path filename).
    { unfold truediv. change (anchor (Path filename)) with (parse_anchor filename).
      destruct (parse_anchor filename); [congruence | reflexivity]. }
    now rewrite Ht, Hfree. }
  now rewrite Hp, Hdir.
Qed.

Lemma anchored_filename_leaves_output_dir_witness :
  let env := CredentialSpec.collaborators (Raise EOFError) (Raise EOFError)
                                          CredentialSpec.empty_message in
  download_attachment env "m-1" "att-1" "/etc/cron.d/job" downloads
                      (world_with_files downloads_and_cron)
  = (Ok "/etc/cron.d/job",
     after_download "m-1" "att-1" "/etc/cron.d/job" "hello"
                    (world_with_files downloads_and_cron)).
Proof.
  intros env.
  refine (anchored_filename_leaves_output_dir env "m-1" "att-1" "/etc/cron.d/job" downloads
            "aGVsbG8=" "hello" (world_with_files downloads_and_cron) _ eq_refl eq_refl
            eq_refl eq_refl).
  discriminate.
Defined.

(** *** The loop over the attachments *)

Lemma attachment_ids_cons att rest :
  attachment_ids (att :: rest)
  = if truthy (att_attachment_id att)
    then default EmptyString (att_attachment_id att) :: attachment_ids rest
    else attachment_ids rest.
Proof.
  unfold attachment_ids. cbn [fmap list_fmap List.filter].
  now destruct (truthy (att_attachment_id att)).
Qed.

Lemma download_each_outcome env msg_id output_dir attachments :
  forall downloaded w,
    let r := download_each env msg_id output_dir attachments downloaded w in
    keeps_entries w r.2
    /\ exists l,
        l `prefix_of` attachment_ids attachments
        /\ requests r.2 = (requests w ++ (AttachmentsGet msg_id <$> l))%list
        /\ (forall d, r.1 = Ok d -> l = attachment_ids attachments).
Proof.
  induction attachments as [|att rest IH]; intros downloaded w; cbv zeta.
  - split; [apply keeps_entries_refl|]. exists []. cbn. rewrite app_nil_r. auto.
  - cbn [download_each]. rewrite attachment_ids_cons.
    destruct (truthy (att_attachment_id att)); [|apply IH].
    rewrite bind_run.
    destruct (download_attachment_outcome env msg_id
                (default EmptyString (att_attachment_id att)) (att_filename att)
                output_dir w) as (Hreq & Hkeep & _).
    destruct (download_attachment env msg_id (default EmptyString (att_attachment_id att))
                (att_filename att) output_dir w) as [[path|e] w1]; cbn [fst snd] in *.
    + destruct (IH (downloaded ++ [mkDownloaded (att_filename att) path (att_size att)])%list
                  w1) as (Hkeep' & l & Hl & Hreq' & Hok).
      split; [now apply (keeps_entries_trans w w1)|].
      exists (default EmptyString (att_attachment_id att) :: l).
      split; [now apply prefix_cons|]. split.
      * rewrite Hreq', Hreq, <- app_assoc. reflexivity.
      * intros d Hd. now rewrite (Hok d Hd).
    + split; [exact Hkeep|]. exists [default EmptyString (att_attachment_id att)].
      split; [apply prefix_cons, prefix_nil|]. split; [exact Hreq | discriminate].
Qed.

(** *** The command *)

Lemma authenticated_files env w : files (authenticated env w).2 = files w.
Proof.
  unfold authenticated. rewrite bind_run.
  destruct (keeps_configuration_get_credentials env false w) as (_ & _ & Hf & _).
  destruct (get_credentials env false w) as [[[c|]|e] w1]; exact Hf.
Qed.

Lemma download_report_keeps json_dumps (json : bool) output_dir downloaded w :
  let r := (if json then print (json_dumps downloaded)
            else bind (print ("Downloaded " +:+ pretty (N.of_nat (length downloaded))
                                +:+ " attachment(s) to " +:+ output_dir +:+ ":"))
                   (fun _ => print_all (downloaded_line <$> downloaded))) w in
  r.1 = Ok tt /\ files r.2 = files w /\ requests r.2 = requests w.
Proof.
  cbv zeta. destruct json; [now rewrite print_run|].
  now rewrite bind_run, print_run, print_all_run.
Qed.

Lemma download_body_outcome env json_dumps args output_dir w :
  let body :=
    bind (call (full_fetch (download_arg_message_id args))
               (messages_get env (download_arg_message_id args) "full" []))
      (fun msg =>
         match extract_attachment_info (payload_or_empty msg) with
         | [] => print "No attachments found in this message."
         | _ :: _ =>
             bind (download_each env (download_arg_message_id args) output_dir
                     (extract_attachment_info (payload_or_empty msg)) [])
               (fun downloaded =>
                  if download_arg_json args then print (json_dumps downloaded)
                  else bind (print ("Downloaded " +:+ pretty (N.of_nat (length downloaded))
                                      +:+ " attachment(s) to " +:+ output_dir +:+ ":"))
                         (fun _ => print_all (downloaded_line <$> downloaded)))
         end) in
  let r := except_http body w in
  keeps_entries w r.2
  /\ (forall e, r.1 = Raise e -> is_HttpError e = false)
  /\ match messages_get env (download_arg_message_id args) "full" [] with
     | Raise _ =>
         requests r.2 = (requests w ++ [full_fetch (download_arg_message_id args)])%list
     | Ok msg =>
         let attachments := extract_attachment_info (payload_or_empty msg) in
         (attachments = [] ->
          r = (Ok tt, after_print ["No attachments found in this message."]
                        (after_call (full_fetch (download_arg_message_id args)) w)))
         /\ exists l,
             l `prefix_of` attachment_ids attachments
             /\ requests r.2
                = (requests w ++ full_fetch (download_arg_message_id args)
                     :: (AttachmentsGet (download_arg_message_id args) <$> l))%list
             /\ (r.1 = Ok tt -> l = attachment_ids attachments)
     end.
Proof.
  cbv zeta. unfold except_http, try_except. rewrite bind_run, call_run.
  set (w1 := after_call (full_fetch (download_arg_message_id args)) w).
  assert (Hhandler : forall e w0,
             is_HttpError e = true ->
             (if is_HttpError e
              then @fail unit ("Gmail API error: " +:+ exn_str e) w0
              else (Raise e, w0))
             = (Raise (SystemExit 1), after_print ["Gmail API error: " +:+ exn_str e] w0)).
  { intros e w0 ->. reflexivity. }
  destruct (messages_get env (download_arg_message_id args) "full" []) as [msg|e].
  - destruct (extract_attachment_info (payload_or_empty msg)) as [|att rest] eqn:Hatt.
    + rewrite print_run. cbn [fst snd].
      split; [now apply keeps_entries_same|]. split; [discriminate|].
      split; [reflexivity|]. exists []. split; [reflexivity|]. split; [reflexivity|].
      reflexivity.
    + rewrite bind_run.
      destruct (download_each_outcome env (download_arg_message_id args) output_dir
                  (att :: rest) [] w1) as (Hkeep & l & Hl & Hreq & Hok).
      destruct (download_each env (download_arg_message_id args) output_dir
                  (att :: rest) [] w1) as [[downloaded|e] w2]; cbn [fst snd] in *.
      * destruct (download_report_keeps json_dumps (download_arg_json args) output_dir
                    downloaded w2) as (Hr1 & Hrf & Hrr).
        destruct ((if download_arg_json args then print (json_dumps downloaded)
                   else bind (print ("Downloaded " +:+ pretty (N.of_nat (length downloaded))
                                       +:+ " attachment(s) to " +:+ output_dir +:+ ":"))
                          (fun _ => print_all (downloaded_line <$> downloaded))) w2)
          as [[[]|e] w3]; cbn [fst snd] in *; [|discriminate].
        split.
        { apply (keeps_entries_trans w w2); [exact Hkeep | now apply keeps_entries_same]. }
        split; [discriminate|]. split; [discriminate|].
        exists l. split; [exact Hl|]. split.
        { rewrite Hrr, Hreq. unfold w1. rewrite requests_after_call, <- app_assoc.
          reflexivity. }
        intros _. now apply (Hok downloaded).
      * assert (Hreq2 : requests w2
                        = (requests w ++ full_fetch (download_arg_message_id args)
                             :: (AttachmentsGet (download_arg_message_id args) <$> l))%list).
        { rewrite Hreq. unfold w1. rewrite requests_after_call, <- app_assoc. reflexivity. }
        destruct (is_HttpError e) eqn:He.
        -- cbn [fst snd]. split; [exact Hkeep|]. split; [intros e0 [= <-]; reflexivity|].
           split; [discriminate|]. exists l. split; [exact Hl|]. split; [exact Hreq2|].
           discriminate.
        -- cbn [fst snd]. split; [exact Hkeep|]. split; [intros e0 [= <-]; exact He|].
           split; [discriminate|]. exists l. split; [exact Hl|]. split; [exact Hreq2|].
           discriminate.
  - destruct (is_HttpError e) eqn:He; cbn [fst snd].
    + split; [now apply keeps_entries_same|]. split; [intros e0 [= <-]; reflexivity|].
      reflexivity.
    + split; [now apply keeps_entries_same|]. split; [intros e0 [= <-]; exact He|].
      reflexivity.
Qed.

(** X21.  When [mkdir] changes or removes nothing that is in the file
    system, neither does [cmd_download], however it ends: every file it
    writes is written where nothing was. *)
Theorem cmd_download_keeps_entries env home mkdir json_dumps args w :
  (forall p w0, keeps_entries w0 (mkdir p w0).2) ->
  keeps_entries w (cmd_download env home mkdir json_dumps args w).2.
Proof.
  intros Hmk. unfold cmd_download. rewrite bind_run.
  pose proof (authenticated_files env w) as Ha.
  destruct (authenticated env w) as [[c|e] w1]; cbn [fst snd] in *;
    [|now apply keeps_entries_same].
  cbv zeta. rewrite bind_run.
  pose proof (Hmk (Path (output_dir_of home args)) w1) as Hm.
  destruct (mkdir (Path (output_dir_of home args)) w1) as [[[]|e] w2]; cbn [fst snd] in *.
  - apply (keeps_entries_trans w w1); [now apply keeps_entries_same|].
    apply (keeps_entries_trans w1 w2); [exact Hm|].
    apply (download_body_outcome env json_dumps args (output_dir_of home args) w2).
  - apply (keeps_entries_trans w w1); [now apply keeps_entries_same | exact Hm].
Qed.

Lemma cmd_download_keeps_entries_witness :
  let env := CredentialSpec.collaborators (Raise EOFError) (Raise EOFError) three_parts in
  let w := signed_in_with downloads_with_report in
  let r := cmd_download env (Path "/home/u") directory_exists (fun _ => "{}") download_m1 w in
  files r.2 !! "/home/u/Downloads/report.pdf" = Some (File "old").
Proof.
  intros env w r.
  apply (cmd_download_keeps_entries env (Path "/home/u") directory_exists (fun _ => "{}")
           download_m1 w).
  - intros p w0. apply keeps_entries_refl.
  - reflexivity.
Defined.

(** X22.  After the handle was obtained and the output directory made,
    [cmd_download] fetches the whole message and then the attachments
    that have an identifier, one call each, in the order of the
    descriptors: all of them when it returns, a first part of them when
    it does not.  A message without attachment is reported and nothing
    is fetched for it; and no [HttpError] leaves the command. *)
Theorem cmd_download_fetches_identified env home mkdir json_dumps args w c w1 w2 msg :
  get_credentials env false w = (Ok (Some c), w1) ->
  mkdir (Path (output_dir_of home args)) w1 = (Ok tt, w2) ->
  messages_get env (download_arg_message_id args) "full" [] = Ok msg ->
  let r := cmd_download env home mkdir json_dumps args w in
  let attachments := extract_attachment_info (payload_or_empty msg) in
  (attachments = [] ->
   r = (Ok tt, after_print ["No attachments found in this message."]
                 (after_call (full_fetch (download_arg_message_id args)) w2)))
  /\ (exists l,
        l `prefix_of` attachment_ids attachments
        /\ requests r.2
           = (requests w2 ++ full_fetch (download_arg_message_id args)
                :: (AttachmentsGet (download_arg_message_id args) <$> l))%list
        /\ (r.1 = Ok tt -> l = attachment_ids attachments))
  /\ (forall e, r.1 = Raise e -> is_HttpError e = false).
Proof.
  intros Hc Hm Hget. cbv zeta. unfold cmd_download.
  rewrite bind_run, (authenticated_run _ _ _ _ Hc). cbv zeta. rewrite bind_run, Hm.
  destruct (download_body_outcome env json_dumps args (output_dir_of home args) w2)
    as (_ & Hhttp & Hcalls).
  rewrite Hget in Hhttp, Hcalls |- *. cbv zeta in Hcalls. destruct Hcalls as [Hnone Hsome].
  split; [exact Hnone|]. split; [exact Hsome | exact Hhttp].
Qed.

Lemma cmd_download_fetches_identified_witness :
  let env := CredentialSpec.collaborators (Raise EOFError) (Raise EOFError) three_parts in
  let w := signed_in_with downloads_with_report in
  let r := cmd_download env (Path "/home/u") directory_exists (fun _ => "{}") download_m1 w in
  r.1 = Ok tt
  /\ requests r.2 = [full_fetch "m-1"; AttachmentsGet "m-1" "att-1"; AttachmentsGet "m-1" "att-3"]
  /\ exists l,
      l `prefix_of` ["att-1"; "att-3"]
      /\ requests r.2 = (full_fetch "m-1" :: (AttachmentsGet "m-1" <$> l))%list
      /\ (r.1 = Ok tt -> l = ["att-1"; "att-3"]).
Proof.
  intros env w r.
  split; [reflexivity|]. split; [reflexivity|].
  exact (proj1 (proj2 (cmd_download_fetches_identified env (Path "/home/u") directory_exists
                         (fun _ => "{}") download_m1 w CredentialSpec.renewed w w three_parts
                         eq_refl eq_refl eq_refl))).
Defined.

Example cmd_download_numbers_the_second_report :
  let env := CredentialSpec.collaborators (Raise EOFError) (Raise EOFError) three_parts in
  let r := cmd_download env (Path "/home/u") directory_exists (fun _ => "{}") download_m1
                        (signed_in_with downloads_with_report) in
  stdout r.2 = ["Downloaded 2 attachment(s) to /home/u/Downloads:";
                "  - report.pdf (5 bytes)"; "  - report.pdf (5 bytes)"]
  /\ files r.2 !! "/home/u/Downloads/report.pdf" = Some (File "old")
  /\ files r.2 !! "/home/u/Downloads/report_1.pdf" = Some (File "hello")
  /\ files r.2 !! "/home/u/Downloads/report_2.pdf" = Some (File "hello")
  /\ files r.2 !! "/home/u/Downloads/notes.txt" = None.
Proof. vm_compute. repeat split. Qed.

End DownloadCommandProofs.

(** ** Search *)

Module QueryProofs.
Import Credential Codec Compose Cli CliSpec Query.
Import CredentialFacts CredentialFactsProofs ComposeFacts ComposeFactsProofs.

(** *** The query *)

Lemma join_cons sep x y l :
  PyStr.join sep (x :: y :: l) = x +:+ sep +:+ PyStr.join sep (y :: l).
Proof. reflexivity. Qed.

Lemma join_empty sep l :
  Forall (fun x => x <> EmptyString) l -> PyStr.join sep l = EmptyString -> l = [].
Proof.
  intros Hl H. destruct l as [|x l]; [reflexivity|].
  exfalso. inversion Hl as [|? ? Hx _]; subst. apply Hx.
  destruct l as [|y l]; [exact H|].
  rewrite join_cons in H. now apply EmailProofs.append_empty in H.
Qed.

Lemma split_cons_free sep a b :
  ~ In sep (DownloadSpec.chars a) ->
  PyStr.split sep (a +:+ String sep b) = a :: PyStr.split sep b.
Proof.
  induction a as [|c a IH]; intros H.
  - change (PyStr.split sep (String sep b) = "" :: PyStr.split sep b).
    cbn [PyStr.split]. now rewrite Ascii.eqb_refl.
  - change (PyStr.split sep (String c (a +:+ String sep b))
            = String c a :: PyStr.split sep b).
    cbn [PyStr.split].
    destruct (Ascii.eqb_spec c sep) as [->|_]; [exfalso; apply H; now left|].
    rewrite IH; [reflexivity|]. intros Hin. apply H. now right.
Qed.

Lemma split_join sep l :
  l <> [] ->
  Forall (fun x => ~ In sep (DownloadSpec.chars x)) l ->
  PyStr.split sep (PyStr.join (String sep EmptyString) l) = l.
Proof.
  induction l as [|x l IH]; [congruence|]. intros _ Hl.
  inversion Hl as [|? ? Hx Hl']; subst.
  destruct l as [|y l]; [now apply DownloadProofs.split_whole|].
  rewrite join_cons.
  change (x +:+ String sep "" +:+ PyStr.join (String sep "") (y :: l))
    with (x +:+ String sep (PyStr.join (String sep "") (y :: l))).
  rewrite split_cons_free by exact Hx. f_equal. now apply IH.
Qed.

Lemma text_part_nil v s : text_part v s = [] <-> v = EmptyString.
Proof. unfold text_part, truthy. destruct v; split; congruence. Qed.

Lemma flag_part_nil b s : flag_part b s = [] <-> b = false.
Proof. destruct b; cbn; split; congruence. Qed.

Lemma text_part_prefixed (P : string -> Prop) pre v :
  P (pre +:+ v) -> Forall P (text_part v (pre +:+ v)).
Proof. intros H. unfold text_part. destruct (truthy (Some v)); constructor; auto. Qed.

Lemma flag_part_Forall (P : string -> Prop) b s : P s -> Forall P (flag_part b s).
Proof. intros H. destruct b; constructor; auto. Qed.

Lemma query_parts_Forall (P : string -> Prop)
      query from_addr to_addr subject label after before
      has_attachment is_unread is_starred :
  (query <> EmptyString -> P query) ->
  P ("from:" +:+ from_addr) -> P ("to:" +:+ to_addr) -> P ("subject:" +:+ subject) ->
  P ("label:" +:+ label) -> P ("after:" +:+ after) -> P ("before:" +:+ before) ->
  P "has:attachment" -> P "is:unread" -> P "is:starred" ->
  Forall P (query_parts query from_addr to_addr subject label after before
                        has_attachment is_unread is_starred).
Proof.
  intros Hq Hf Ht Hs Hl Ha Hb H1 H2 H3. unfold query_parts.
  repeat apply Forall_app_2;
    try (now apply text_part_prefixed); try (now apply flag_part_Forall).
  unfold text_part, truthy. destruct query; constructor; [|constructor].
  now apply Hq.
Qed.

Lemma build_query_empty query from_addr to_addr subject label after before
      has_attachment is_unread is_starred :
  build_query query from_addr to_addr subject label after before
              has_attachment is_unread is_starred = EmptyString
  <-> query = EmptyString /\ from_addr = EmptyString /\ to_addr = EmptyString
      /\ subject = EmptyString /\ label = EmptyString /\ after = EmptyString
      /\ before = EmptyString
      /\ has_attachment = false /\ is_unread = false /\ is_starred = false.
Proof.
  unfold build_query. split.
  - intros H. apply join_empty in H.
    + unfold query_parts in H.
      repeat (apply app_eq_nil in H as [?%text_part_nil H]).
      apply app_eq_nil in H as [?%flag_part_nil H].
      apply app_eq_nil in H as [?%flag_part_nil ?%flag_part_nil]. tauto.
    + apply query_parts_Forall; auto; discriminate.
  - intros (-> & -> & -> & -> & -> & -> & -> & -> & -> & ->). reflexivity.
Qed.

(** X23.  [build_query] returns the empty string exactly when no
    criterion is given.  When no text given holds a space, the words of
    the query are the criteria that are given, each once, in the order
    free text, from, to, subject, label, after, before, has:attachment,
    is:unread, is:starred. *)
Theorem build_query_lists_criteria
        query from_addr to_addr subject label after before
        has_attachment is_unread is_starred :
  let parts := query_parts query from_addr to_addr subject label after before
                           has_attachment is_unread is_starred in
  let built := build_query query from_addr to_addr subject label after before
                           has_attachment is_unread is_starred in
  (built = EmptyString
   <-> query = EmptyString /\ from_addr = EmptyString /\ to_addr = EmptyString
       /\ subject = EmptyString /\ label = EmptyString /\ after = EmptyString
       /\ before = EmptyString
       /\ has_attachment = false /\ is_unread = false /\ is_starred = false)
  /\ (built <> EmptyString ->
      Forall (fun v => ~ In " "%char (DownloadSpec.chars v))
             [query; from_addr; to_addr; subject; label; after; before] ->
      PyStr.split " " built = parts).
Proof.
  cbv zeta. split; [apply build_query_empty|].
  unfold build_query.
  - intros Hne Hfree.
    apply split_join.
    + intros E. apply Hne. now rewrite E.
    + repeat match goal with
             | H : Forall _ (_ :: _) |- _ =>
                 let Hx := fresh "Hx" in
                 apply Forall_cons_1 in H as [Hx H]
             end.
      assert (Hpre : forall pre v,
                 ~ In " "%char (DownloadSpec.chars pre) ->
                 ~ In " "%char (DownloadSpec.chars v) ->
                 ~ In " "%char (DownloadSpec.chars (pre +:+ v))).
      { intros pre v Hp Hv. rewrite DownloadProofs.chars_app. intros Hin.
        apply in_app_or in Hin. tauto. }
      assert (Hlit : forall s, negb (existsb (Ascii.eqb " ") (DownloadSpec.chars s)) = true ->
                               ~ In " "%char (DownloadSpec.chars s)).
      { intros s Hs Hin. apply negb_true_iff in Hs.
        assert (Hex : existsb (Ascii.eqb " ") (DownloadSpec.chars s) = true).
        { apply existsb_exists. exists " "%char. split; [exact Hin | reflexivity]. }
        congruence. }
      apply query_parts_Forall; auto; try (apply Hpre; [now apply Hlit | assumption]);
        now apply Hlit.
Qed.

Example build_query_examples :
  build_query "invoice" "alice@example.org" "" "" "" "2024/01/01" "" true false false
  = "invoice from:alice@example.org after:2024/01/01 has:attachment"
  /\ build_query "" "" "" "" "" "" "" false false false = ""
  /\ PyStr.split " " (build_query "" "" "" "quarterly report" "" "" "" false false false)
     = ["subject:quarterly"; "report"].
Proof. repeat split; reflexivity. Qed.

(** *** The details of a message *)

Lemma get_message_details_run service msg_id full_body :
  get_message_details service msg_id full_body
  = match details_fetch service msg_id full_body with
    | Raise e => Raise e
    | Ok msg =>
        match (if full_body
               then res_map Some (extract_body (payload_part (fetched_message msg)))
               else Ok None) with
        | Raise e => Raise e
        | Ok body =>
            Ok (mkDetails msg_id (threadId (fetched_message msg))
                  (default EmptyString
                     (ReplySpec.last_header (ReplySpec.message_headers (fetched_message msg))
                                            "From"))
                  (default EmptyString
                     (ReplySpec.last_header (ReplySpec.message_headers (fetched_message msg))
                                            "To"))
                  (default "(no subject)"
                     (ReplySpec.last_header (ReplySpec.message_headers (fetched_message msg))
                                            "Subject"))
                  (default EmptyString
                     (ReplySpec.last_header (ReplySpec.message_headers (fetched_message msg))
                                            "Date"))
                  (default EmptyString (snippet msg)) (default [] (labelIds msg))
                  body
                  (match extract_attachment_info (payload_part (fetched_message msg)) with
                   | [] => None
                   | l => Some l
                   end))
        end
    end.
Proof.
  unfold get_message_details, details_fetch, ReplySpec.message_headers.
  destruct (if full_body then _ else _) as [msg|e]; [|reflexivity].
  cbv zeta. rewrite !ReplyProofs.get_header.
  destruct (if full_body then _ else _) as [body|e]; [|reflexivity].
  do 2 f_equal. unfold payload_part.
  destruct (payload (fetched_message msg)) as [pl|]; [|reflexivity].
  now destruct (extract_attachment_info (root pl)).
Qed.

Lemma get_message_details_well_shaped service msg_id full_body d :
  get_message_details service msg_id full_body = Ok d ->
  det_id d = msg_id /\ well_shaped full_body d.
Proof.
  rewrite get_message_details_run.
  destruct (details_fetch service msg_id full_body) as [msg|e]; [|discriminate].
  destruct full_body.
  - destruct (extract_body (payload_part (fetched_message msg))) as [b|e];
      [|discriminate].
    cbn [res_map]. intros [= <-]. cbn. split; [reflexivity|]. split.
    + split; [reflexivity | eauto].
    + now destruct (extract_attachment_info (payload_part (fetched_message msg))).
  - intros [= <-]. cbn. split; [reflexivity|]. split.
    + split; [intros [? ?]; discriminate | discriminate].
    + now destruct (extract_attachment_info (payload_part (fetched_message msg))).
Qed.

(** X24.  [get_message_details] passes on the exception of a failed
    fetch; a fetch of metadata that answers always gives details, a full
    fetch gives them unless a payload cannot be decoded.  The details
    carry the identifier asked for, take the subject from the last
    Subject header ([(no subject)] without one), hold a body exactly
    when the full body was asked for, and hold the attachments, in the
    order of the part tree, exactly when there are some. *)
Theorem get_message_details_shape service msg_id full_body :
  (forall e, details_fetch service msg_id full_body = Raise e ->
             get_message_details service msg_id full_body = Raise e)
  /\ (forall msg, details_fetch service msg_id full_body = Ok msg ->
        (full_body = false \/ exists b, extract_body (payload_part (fetched_message msg)) = Ok b) ->
        exists d, get_message_details service msg_id full_body = Ok d)
  /\ (forall d, get_message_details service msg_id full_body = Ok d ->
        det_id d = msg_id
        /\ (is_Some (det_body d) <-> full_body = true)
        /\ exists msg,
            details_fetch service msg_id full_body = Ok msg
            /\ det_subject d
               = default "(no subject)"
                   (ReplySpec.last_header (ReplySpec.message_headers (fetched_message msg))
                                          "Subject")
            /\ (full_body = true ->
                extract_body (payload_part (fetched_message msg)) = Ok (default "" (det_body d)))
            /\ det_attachments d
               = match extract_attachment_info (payload_part (fetched_message msg)) with
                 | [] => None
                 | l => Some l
                 end).
Proof.
  rewrite get_message_details_run. split; [|split].
  - intros e ->. reflexivity.
  - intros msg -> [-> | [b Hb]]; [eauto|].
    destruct full_body; [|eauto]. rewrite Hb. cbn [res_map]. eauto.
  - intros d Hd.
    destruct (details_fetch service msg_id full_body) as [msg|e]; [|discriminate].
    destruct full_body.
    + destruct (extract_body (payload_part (fetched_message msg))) as [b|e] eqn:Hb;
        [|discriminate].
      cbn [res_map] in Hd. injection Hd as <-. cbn.
      split; [reflexivity|]. split; [split; [reflexivity | eauto]|].
      exists msg. repeat split; try reflexivity. intros _. exact Hb.
    + injection Hd as <-. cbn.
      split; [reflexivity|]. split; [split; [intros [? ?]; discriminate | discriminate]|].
      exists msg. repeat split; try reflexivity. discriminate.
Qed.

(** *** The search *)

Lemma details_each_outcome service full_body include_attachments messages :
  forall detailed ds,
    details_each service full_body include_attachments messages detailed = Ok ds ->
    exists new,
      ds = (detailed ++ new)%list
      /\ det_id <$> new = messages
      /\ Forall (well_shaped full_body) new
      /\ (include_attachments = false -> Forall (fun d => det_attachments d = None) new).
Proof.
  induction messages as [|msg_id rest IH]; intros detailed ds H.
  - injection H as <-. exists []. rewrite app_nil_r. repeat split; constructor.
  - cbn [details_each] in H.
    destruct (get_message_details service msg_id full_body) as [d|e] eqn:Hd;
      [|discriminate].
    apply get_message_details_well_shaped in Hd as (Hid & Hbody & Hatt).
    cbv zeta in H. apply IH in H as (new & -> & Hids & Hshape & Hnone).
    set (d' := if negb include_attachments && bool_decide (is_Some (det_attachments d))
               then without_attachments d else d) in *.
    assert (Hd' : det_id d' = msg_id /\ well_shaped full_body d'
                  /\ (include_attachments = false -> det_attachments d' = None)).
    { subst d'. destruct include_attachments; cbn [negb andb].
      - split; [exact Hid|]. split; [now split | discriminate].
      - destruct (bool_decide (is_Some (det_attachments d))) eqn:Hs.
        + split; [exact Hid|]. split; [split; [exact Hbody | discriminate]|].
          reflexivity.
        + split; [exact Hid|]. split; [now split|]. intros _.
          apply bool_decide_eq_false in Hs.
          destruct (det_attachments d); [exfalso; apply Hs; eauto | reflexivity]. }
    destruct Hd' as (Hid' & Hshape' & Hnone').
    exists (d' :: new). rewrite <- app_assoc. split; [reflexivity|].
    split; [cbn; now rewrite Hid', Hids|]. split; [now constructor|].
    intros Hinc. constructor; auto.
Qed.

Lemma details_each_failure service full_body include_attachments messages :
  forall detailed msg_id,
    msg_id ∈ messages ->
    raises (get_message_details service msg_id full_body) ->
    raises (details_each service full_body include_attachments messages detailed).
Proof.
  induction messages as [|x rest IH]; intros detailed msg_id Hin Hr.
  - inversion Hin.
  - cbn [details_each].
    destruct (get_message_details service x full_body) as [d|e] eqn:Hd; [|exact I].
    cbv zeta. apply (IH _ msg_id); [|exact Hr].
    apply elem_of_cons in Hin as [-> | Hin]; [|exact Hin].
    rewrite Hd in Hr. destruct Hr.
Qed.

(** X25.  [search_messages] passes on the exception of a failed listing
    and fails when the details of any listed message fail.  When it
    returns, it returns one dictionary of details per listed message, in
    the order of the listing and under the listed identifiers; each holds
    a body exactly when the full body was asked for, and none holds
    attachments unless they were asked for. *)
Theorem search_messages_follows_listing service query limit full_body include_attachments :
  let found := search_messages service query limit full_body include_attachments in
  (forall e, list_messages service query limit = Raise e -> found = Raise e)
  /\ (forall results msg_id,
        list_messages service query limit = Ok results ->
        msg_id ∈ default [] results ->
        raises (get_message_details service msg_id full_body) ->
        raises found)
  /\ (forall ds, found = Ok ds ->
        exists results,
          list_messages service query limit = Ok results
          /\ det_id <$> ds = default [] results
          /\ Forall (well_shaped full_body) ds
          /\ (include_attachments = false ->
              Forall (fun d => det_attachments d = None) ds)).
Proof.
  cbv zeta. unfold search_messages. split; [|split].
  - intros e ->. reflexivity.
  - intros results msg_id -> Hin Hr. now apply (details_each_failure _ _ _ _ _ msg_id).
  - intros ds H.
    destruct (list_messages service query limit) as [results|e]; [|discriminate].
    apply details_each_outcome in H as (new & -> & Hids & Hshape & Hnone).
    exists results. auto.
Qed.

Example search_two_messages :
  (det_attachments <$>
     default [] (match search_messages two_messages "in:inbox" 20 false true with
                 | Ok ds => Some ds
                 | Raise _ => None
                 end))
  = [Some [mkAttachment "report.pdf" "application/pdf" 9 (Some "att-1")]; None]
  /\ (det_body <$>
        default [] (match search_messages two_messages "in:inbox" 20 true false with
                    | Ok ds => Some ds
                    | Raise _ => None
                    end))
     = [Some "hello"; Some ""].
Proof. split; reflexivity. Qed.

(** *** The command *)

Lemma effective_query_cases args :
  (no_criterion args -> effective_query args = "in:inbox")
  /\ (~ no_criterion args ->
      effective_query args
      = build_query (or_empty (search_query args)) (or_empty (search_from_addr args))
                    (or_empty (search_to_addr args)) (or_empty (search_subject args))
                    (or_empty (search_label args)) (or_empty (search_after args))
                    (or_empty (search_before args))
                    (search_has_attachment args) (search_unread args) (search_starred args))
  /\ effective_query args <> EmptyString.
Proof.
  unfold effective_query, no_criterion. cbv zeta.
  pose proof (build_query_empty
                (or_empty (search_query args)) (or_empty (search_from_addr args))
                (or_empty (search_to_addr args)) (or_empty (search_subject args))
                (or_empty (search_label args)) (or_empty (search_after args))
                (or_empty (search_before args))
                (search_has_attachment args) (search_unread args) (search_starred args))
    as Hempty.
  destruct (build_query _ _ _ _ _ _ _ _ _ _) as [|a q]; unfold truthy.
  - split; [reflexivity|]. split; [|discriminate].
    intros Hn. exfalso. apply Hn, Hempty. reflexivity.
  - split; [|split; [reflexivity | discriminate]].
    intros Hn. apply Hempty in Hn. discriminate.
Qed.

(** X26.  [cmd_search] with a usable handle searches for the query
    built from its criteria, and for [in:inbox] when no criterion is
    given; the query it searches for is never empty.  It prints the
    messages found, as JSON or as Markdown; an [HttpError] of the search
    is printed and ends the command with status 1, any other exception
    leaves it as it is. *)
Theorem cmd_search_outcomes env service json_dumps args w c w1 :
  get_credentials env false w = (Ok (Some c), w1) ->
  cmd_search env service json_dumps args w
  = match search_messages service (effective_query args) (search_limit args)
                          (search_full args) (search_attachments args) with
    | Ok messages =>
        (Ok tt,
         after_print [if search_json args then json_dumps messages
                      else format_markdown messages (search_full args)] w1)
    | Raise e =>
        if is_HttpError e
        then (Raise (SystemExit 1), after_print ["Gmail API error: " +:+ exn_str e] w1)
        else (Raise e, w1)
    end
  /\ (no_criterion args -> effective_query args = "in:inbox")
  /\ effective_query args <> EmptyString.
Proof.
  intros Hc. split; [|split; apply effective_query_cases].
  unfold cmd_search. rewrite bind_run, (authenticated_run _ _ _ _ Hc). cbv zeta.
  fold (effective_query args).
  unfold except_http, try_except. rewrite bind_run. unfold lift at 1.
  destruct (search_messages service (effective_query args) (search_limit args)
              (search_full args) (search_attachments args)) as [messages|e].
  - destruct (search_json args); reflexivity.
  - destruct (is_HttpError e); reflexivity.
Qed.

Lemma cmd_search_outcomes_witness :
  let env := CredentialSpec.collaborators (Raise EOFError) (Raise EOFError)
                                          CredentialSpec.empty_message in
  cmd_search env (mkService (fun q _ => if String.eqb q "in:inbox" then Ok None
                                        else Raise (HttpError "bad query"))
                            (fun _ _ _ => Raise (HttpError "not found")))
             (fun _ => "[]") search_nothing signed_in
  = (Ok tt, after_print ["No messages found."] signed_in).
Proof.
  intros env.
  exact (proj1 (cmd_search_outcomes env _ (fun _ => "[]") search_nothing signed_in
                  CredentialSpec.renewed signed_in eq_refl)).
Defined.

End QueryProofs.

(** ** The labels command *)

Module LabelsProofs.
Import Credential Cli CliSpec Labels.
Import CredentialFacts CredentialFactsProofs ComposeFacts ComposeFactsProofs.

Lemma leb_refl s : String.leb s s = true.
Proof. now destruct (String.leb_total s s). Qed.

Lemma insert_by_name_Permutation x l : insert_by_name x l ≡ₚ x :: l.
Proof.
  induction l as [|y l IH]; [reflexivity|]. cbn [insert_by_name].
  destruct (String.leb (label_name x) (label_name y)); [reflexivity|].
  rewrite IH. apply Permutation_swap.
Qed.

Lemma insert_by_name_ascending x l :
  ascending l = true -> ascending (insert_by_name x l) = true.
Proof.
  induction l as [|y l IH]; intros Hl; [reflexivity|].
  cbn [insert_by_name].
  destruct (String.leb (label_name x) (label_name y)) eqn:Hxy.
  - cbn [ascending]. now rewrite Hxy.
  - assert (Hyx : String.leb (label_name y) (label_name x) = true).
    { destruct (String.leb_total (label_name x) (label_name y)); congruence. }
    destruct l as [|z l].
    + cbn [insert_by_name ascending]. now rewrite Hyx.
    + cbn [ascending] in Hl. apply andb_prop in Hl as [Hyz Hl].
      specialize (IH Hl). cbn [insert_by_name] in *.
      destruct (String.leb (label_name x) (label_name z)).
      * cbn [ascending] in *. now rewrite Hyx, IH.
      * cbn [ascending] in *. now rewrite Hyz, IH.
Qed.

Lemma insert_by_name_named name x l :
  named name (insert_by_name x l) = named name (x :: l).
Proof.
  induction l as [|y l IH]; [reflexivity|]. cbn [insert_by_name].
  destruct (String.leb (label_name x) (label_name y)) eqn:Hxy; [reflexivity|].
  unfold named in *. cbn [List.filter] in *. rewrite IH.
  destruct (String.eqb_spec (label_name x) name) as [Hx|_]; [|reflexivity].
  destruct (String.eqb_spec (label_name y) name) as [Hy|_]; [|reflexivity].
  rewrite Hx, <- Hy, leb_refl in Hxy. discriminate.
Qed.

Lemma sorted_by_name_spec labels :
  sorted_by_name labels ≡ₚ labels
  /\ ascending (sorted_by_name labels) = true
  /\ forall name, named name (sorted_by_name labels) = named name labels.
Proof.
  induction labels as [|x l (Hp & Ha & Hn)]; [repeat split; reflexivity|].
  cbn [sorted_by_name fold_right]. fold (sorted_by_name l). split; [|split].
  - now rewrite insert_by_name_Permutation, Hp.
  - now apply insert_by_name_ascending.
  - intros name. rewrite insert_by_name_named. unfold named in *. cbn [List.filter].
    now rewrite Hn.
Qed.

(** X27.  [cmd_labels] with a usable handle prints, in text mode, the
    heading and then one line per listed label: each label once, by
    ascending name, labels of the same name in the order of the listing.
    In JSON mode the labels are printed as listed.  An [HttpError] of
    the listing is printed and ends the command with status 1; any other
    exception leaves it as it is. *)
Theorem cmd_labels_outcomes env labels_list json_dumps json w c w1 :
  get_credentials env false w = (Ok (Some c), w1) ->
  cmd_labels env labels_list json_dumps json w
  = match labels_list with
    | Ok results =>
        (Ok tt,
         after_print (if json then [json_dumps (default [] results)]
                      else ("# Gmail Labels" +:+ PyStr.NL)
                             :: (label_line <$> sorted_by_name (default [] results))) w1)
    | Raise e =>
        if is_HttpError e
        then (Raise (SystemExit 1), after_print ["Gmail API error: " +:+ exn_str e] w1)
        else (Raise e, w1)
    end
  /\ (forall labels,
        sorted_by_name labels ≡ₚ labels
        /\ ascending (sorted_by_name labels) = true
        /\ forall name, named name (sorted_by_name labels) = named name labels).
Proof.
  intros Hc. split; [|apply sorted_by_name_spec].
  unfold cmd_labels. rewrite bind_run, (authenticated_run _ _ _ _ Hc).
  unfold except_http, try_except. rewrite bind_run. unfold lift at 1.
  destruct labels_list as [results|e].
  - cbv zeta. destruct json; [reflexivity|].
    rewrite bind_run, print_run, print_all_run, after_print_app. reflexivity.
  - destruct (is_HttpError e); reflexivity.
Qed.

Lemma cmd_labels_outcomes_witness :
  let env := CredentialSpec.collaborators (Raise EOFError) (Raise EOFError)
                                          CredentialSpec.empty_message in
  cmd_labels env (Ok (Some sample_labels)) (fun _ => "[]") false signed_in
  = (Ok tt,
     after_print [String.append "# Gmail Labels" PyStr.NL;
                  "- INBOX (`INBOX`)"; "- Work (`Label_2`)"; "- Work (`Label_1`)";
                  "- archive (`Label_3`)"] signed_in).
Proof.
  intros env.
  exact (proj1 (cmd_labels_outcomes env (Ok (Some sample_labels)) (fun _ => "[]") false
                  signed_in CredentialSpec.renewed signed_in eq_refl)).
Defined.

End LabelsProofs.

(** ** When the body of a message can be extracted *)

Module CodecFactsProofs.
Import Codec CodecSpec CodecProofs.

Lemma first_yield_raise l e :
  first_yield l = Raise e -> In (Some (Raise e)) l.
Proof.
  induction l as [|[r|] l IH]; cbn [first_yield]; intros H.
  - discriminate.
  - left. now rewrite H.
  - right. now apply IH.
Qed.

Lemma node_of_child p c n : c ∈ children p -> n ∈ nodes c -> n ∈ nodes p.
Proof.
  intros Hc Hn. rewrite (nodes_unfold p). apply elem_of_cons. right.
  apply list_elem_of_In, in_flat_map. exists c.
  split; apply list_elem_of_In; assumption.
Qed.

Lemma node_self p : p ∈ nodes p.
Proof. rewrite nodes_unfold. apply list_elem_of_here. Qed.

Lemma extract_body_raise p :
  forall e, extract_body p = Raise e ->
            exists n d, n ∈ nodes p /\ body_data n = Some d /\ b64_text d = Raise e.
Proof.
  induction p as [p IH] using MessagePart_ind. intros e H.
  destruct (body_data p) as [d|] eqn:Hown.
  - rewrite (extract_body_own p d Hown) in H. exists p, d. auto using node_self.
  - rewrite (extract_body_scan p Hown) in H.
    apply first_yield_raise, in_map_iff in H as (c & Hy & Hc).
    apply list_elem_of_In in Hc. rewrite Forall_forall in IH.
    unfold child_yield, plain_payload in Hy.
    destruct (is_text_plain c) eqn:Hplain.
    + destruct (body_data c) as [d|] eqn:Hd.
      * injection Hy as Hy. exists c, d.
        split; [apply (node_of_child p c c Hc), node_self | auto].
      * destruct (parts c); [|discriminate].
        destruct (extract_body c) as [[|a t]|e'] eqn:Hb; try discriminate.
        injection Hy as ->. destruct (IH c Hc e Hb) as (n & d & Hn & Hd' & He).
        exists n, d. split; [now apply (node_of_child p c n) | auto].
    + destruct (parts c); [|discriminate].
      destruct (extract_body c) as [[|a t]|e'] eqn:Hb; try discriminate.
      injection Hy as ->. destruct (IH c Hc e Hb) as (n & d & Hn & Hd' & He).
      exists n, d. split; [now apply (node_of_child p c n) | auto].
Qed.

Lemma extract_body_no_payload p :
  (forall n, n ∈ nodes p -> body_data n = None) -> extract_body p = Ok "".
Proof.
  induction p as [p IH] using MessagePart_ind. intros Hnone.
  rewrite (extract_body_scan p (Hnone p (node_self p))).
  apply first_yield_none, Forall_map, Forall_forall. intros c Hc.
  rewrite Forall_forall in IH.
  assert (Hcn : forall n, n ∈ nodes c -> body_data n = None).
  { intros n Hn. apply Hnone. now apply (node_of_child p c n). }
  unfold child_yield, plain_payload. rewrite (Hcn c (node_self c)).
  rewrite (IH c Hc Hcn).
  destruct (is_text_plain c); now destruct (parts c).
Qed.

(** X28.  [extract_body] fails only by a payload that cannot be decoded:
    when it raises, some part of the tree carries an inline payload whose
    decoding raises that exception.  So it returns a text on every tree
    whose payloads all decode, and the empty text on a tree without
    inline payload. *)
Theorem extract_body_fails_only_by_decoding p :
  (forall e, extract_body p = Raise e ->
             exists n d, n ∈ nodes p /\ body_data n = Some d /\ b64_text d = Raise e)
  /\ ((forall n d, n ∈ nodes p -> body_data n = Some d -> exists s, b64_text d = Ok s) ->
      exists s, extract_body p = Ok s)
  /\ ((forall n, n ∈ nodes p -> body_data n = None) -> extract_body p = Ok "").
Proof.
  split; [apply extract_body_raise|]. split; [|apply extract_body_no_payload].
  intros Hdec. destruct (extract_body p) as [s|e] eqn:H; [eauto|].
  apply extract_body_raise in H as (n & d & Hn & Hd & He).
  destruct (Hdec n d Hn Hd) as [s Hs]. congruence.
Qed.

Example extract_body_undecodable_part :
  extract_body (container "multipart/mixed"
                  [leaf "text/html" "PGI-aGk8L2I-"; leaf "text/plain" "a"])
  = Raise (BinasciiError "Invalid base64-encoded string")
  /\ extract_body (container "multipart/mixed"
                     [leaf "text/plain" "aGVsbG8="; leaf "text/plain" "a"])
     = Ok "hello".
Proof. split; reflexivity. Qed.

End CodecFactsProofs.
